(** * Rural Access Index pre-processing: a shallow embedding of [functions.py]

    The Python module works on GeoPandas data frames and Shapely geometries.
    Geometries and the operations of the geometry library are kept abstract
    (a class of operations); data frames are modelled column by column, the
    way pandas stores them, with an explicit row index.  Python exceptions
    are values of [exn], and code that may raise returns a [result].

    The module is read as Python 3 with the libraries of its time: pandas
    before 2.2, GeoPandas 0.3 and Shapely 1.8.  Floats are binary64
    numbers, written as the rationals they denote. *)

From Stdlib Require Import List String Ascii ZArith QArith Bool Arith Lia.
Import ListNotations.
Local Open Scope string_scope.
Local Open Scope list_scope.
Local Open Scope nat_scope.

Set Implicit Arguments.

(** ** Exceptions and fallible computations *)

Inductive exn : Type :=
| KeyError (key : string)
| NameError (name : string)
| ValueError
| IndexError
| TypeError
| AttributeError
| NotImplementedError
| ReferenceError.

Inductive result (A : Type) : Type :=
| Ok (a : A)
| Raise (e : exn).

Arguments Ok {A} a.
Arguments Raise {A} e.

Definition rbind {A B} (m : result A) (k : A -> result B) : result B :=
  match m with
  | Ok a => k a
  | Raise e => Raise e
  end.

Declare Scope result_scope.
Delimit Scope result_scope with res.
Notation "x <- m ;; k" := (rbind m (fun x => k))
  (at level 61, m at next level, right associativity) : result_scope.
Notation "' p <- m ;; k" := (rbind m (fun p => k))
  (at level 61, p pattern, m at next level, right associativity) : result_scope.

Fixpoint mapM {A B} (f : A -> result B) (l : list A) : result (list B) :=
  match l with
  | [] => Ok []
  | x :: l' =>
      match f x with
      | Ok y =>
          match mapM f l' with
          | Ok ys => Ok (y :: ys)
          | Raise e => Raise e
          end
      | Raise e => Raise e
      end
  end.

(** ** Small list utilities used by the frame operations *)

Definition mem (s : string) (l : list string) : bool :=
  existsb (String.eqb s) l.

(** The global names that the module binds, by its imports and by its
    function definitions.  [reduce], which line 73 calls, is not among
    them, and Python 3 has no builtin of that name. *)
Definition module_names : list string :=
  ["os"; "vincenty"; "pairwise"; "gpd"; "np"; "sleep"; "pd"; "mpl"; "plt";
   "spatial_overlays"; "get_country"; "clip_osm"; "extract_osm"; "line_length";
   "map_roads"; "explode"; "extract_osm_rail"; "Create_Buffer";
   "geom_within_country"; "delete_roads_urb"].

(** Evaluating a global name that is no builtin: [NameError] when the
    module does not bind it. *)
Definition global (name : string) : result unit :=
  if mem name module_names then Ok tt else Raise (NameError name).

(** [take ps l]: the elements of [l] at the positions [ps], in that order. *)
Definition take {A} (ps : list nat) (l : list A) : list A :=
  flat_map (fun p => match nth_error l p with Some x => [x] | None => [] end) ps.

(** [mask m l]: the elements of [l] whose flag in [m] is [true]. *)
Fixpoint mask {A} (m : list bool) (l : list A) : list A :=
  match m, l with
  | b :: m', x :: l' => if b then x :: mask m' l' else mask m' l'
  | _, _ => []
  end.

(** Python's [list.remove]: drop the first occurrence, [ValueError] when there is none. *)
Fixpoint list_remove (s : string) (l : list string) : result (list string) :=
  match l with
  | [] => Raise ValueError
  | x :: l' =>
      if String.eqb x s then Ok l'
      else match list_remove s l' with
           | Ok r => Ok (x :: r)
           | Raise e => Raise e
           end
  end.

(** [functools.reduce(function, sequence)] without an initial value: what
    line 73 would call if the module imported it. *)
Fixpoint reduce_from {A} (f : A -> A -> A) (acc : A) (l : list A) : A :=
  match l with
  | [] => acc
  | y :: l' => reduce_from f (f acc y) l'
  end.

Definition reduce {A} (f : A -> A -> A) (l : list A) : result A :=
  match l with
  | [] => Raise TypeError
  | x :: l' => Ok (reduce_from f x l')
  end.

(** ** Data frames *)

(** A bounding box as Shapely's [bounds] returns it: (minx, miny, maxx, maxy). *)
Definition bbox : Type := (Q * Q * Q * Q)%type.

(** The row index of a frame: one level of labels, or the two levels that
    [explode] builds. *)
Inductive pd_index : Type :=
| Index (labels : list Z)
| MultiIndex (labels : list (Z * Z)).

Definition RangeIndex (n : nat) : pd_index :=
  Index (map Z.of_nat (seq 0 n)).

Definition index_take (ps : list nat) (i : pd_index) : pd_index :=
  match i with
  | Index l => Index (take ps l)
  | MultiIndex l => MultiIndex (take ps l)
  end.

Definition index_mask (m : list bool) (i : pd_index) : pd_index :=
  match i with
  | Index l => Index (mask m l)
  | MultiIndex l => MultiIndex (mask m l)
  end.

Section Frames.

(** The type of Shapely geometries. *)
Variable geom : Type.

Inductive column : Type :=
| GeomCol (l : list geom)
| BoxCol (l : list bbox)
| ListCol (l : list (list nat))
| IntCol (l : list Z)
| NumCol (l : list Q)
| StrCol (l : list (option string))
| BoolCol (l : list bool).

Definition col_take (ps : list nat) (c : column) : column :=
  match c with
  | GeomCol l => GeomCol (take ps l)
  | BoxCol l => BoxCol (take ps l)
  | ListCol l => ListCol (take ps l)
  | IntCol l => IntCol (take ps l)
  | NumCol l => NumCol (take ps l)
  | StrCol l => StrCol (take ps l)
  | BoolCol l => BoolCol (take ps l)
  end.

Definition col_mask (m : list bool) (c : column) : column :=
  match c with
  | GeomCol l => GeomCol (mask m l)
  | BoxCol l => BoxCol (mask m l)
  | ListCol l => ListCol (mask m l)
  | IntCol l => IntCol (mask m l)
  | NumCol l => NumCol (mask m l)
  | StrCol l => StrCol (mask m l)
  | BoolCol l => BoolCol (mask m l)
  end.

Definition col_length (c : column) : nat :=
  match c with
  | GeomCol l => List.length l
  | BoxCol l => List.length l
  | ListCol l => List.length l
  | IntCol l => List.length l
  | NumCol l => List.length l
  | StrCol l => List.length l
  | BoolCol l => List.length l
  end.

Record frame : Type := Frame {
  index : pd_index;
  cols : list (string * column);
  crs : option string
}.

Definition names (f : frame) : list string := map fst (cols f).

Fixpoint lookup (c : string) (l : list (string * column)) : option column :=
  match l with
  | [] => None
  | (n, x) :: l' => if String.eqb n c then Some x else lookup c l'
  end.

(** [df[c]] *)
Definition get_col (c : string) (f : frame) : result column :=
  match lookup c (cols f) with
  | Some x => Ok x
  | None => Raise (KeyError c)
  end.

Definition get_geom (c : string) (f : frame) : result (list geom) :=
  match get_col c f with
  | Ok (GeomCol l) => Ok l
  | Ok _ => Raise AttributeError
  | Raise e => Raise e
  end.

Definition get_box (c : string) (f : frame) : result (list bbox) :=
  match get_col c f with
  | Ok (BoxCol l) => Ok l
  | Ok _ => Raise TypeError
  | Raise e => Raise e
  end.

Definition get_list (c : string) (f : frame) : result (list (list nat)) :=
  match get_col c f with
  | Ok (ListCol l) => Ok l
  | Ok _ => Raise TypeError
  | Raise e => Raise e
  end.

Definition get_int (c : string) (f : frame) : result (list Z) :=
  match get_col c f with
  | Ok (IntCol l) => Ok l
  | Ok _ => Raise TypeError
  | Raise e => Raise e
  end.

Definition get_num (c : string) (f : frame) : result (list Q) :=
  match get_col c f with
  | Ok (NumCol l) => Ok l
  | Ok _ => Raise TypeError
  | Raise e => Raise e
  end.

Definition get_str (c : string) (f : frame) : result (list (option string)) :=
  match get_col c f with
  | Ok (StrCol l) => Ok l
  | Ok _ => Raise TypeError
  | Raise e => Raise e
  end.

(** [df[c] = v]: the column is replaced where it stands, or appended. *)
Fixpoint assign (c : string) (v : column) (l : list (string * column))
  : list (string * column) :=
  match l with
  | [] => [(c, v)]
  | (n, x) :: l' =>
      if String.eqb n c then (n, v) :: l' else (n, x) :: assign c v l'
  end.

Definition set_col (c : string) (v : column) (f : frame) : frame :=
  {| index := index f; cols := assign c v (cols f); crs := crs f |}.

(** [df.drop(labels, axis=1)]: every label has to be a column. *)
Definition drop_cols (labels : list string) (f : frame) : result frame :=
  match find (fun c => negb (mem c (names f))) labels with
  | Some c => Raise (KeyError c)
  | None =>
      Ok {| index := index f;
            cols := filter (fun nc => negb (mem (fst nc) labels)) (cols f);
            crs := crs f |}
  end.

(** [df.rename(columns={old: new})] *)
Definition rename_col (old new : string) (f : frame) : frame :=
  {| index := index f;
     cols := map (fun nc => (if String.eqb (fst nc) old then new else fst nc, snd nc))
                 (cols f);
     crs := crs f |}.

(** [df[labels]]: the columns with these labels, in the order asked for. *)
Definition select_cols (labels : list string) (f : frame) : result frame :=
  match find (fun c => negb (mem c (names f))) labels with
  | Some c => Raise (KeyError c)
  | None =>
      Ok {| index := index f;
            cols := flat_map (fun c => filter (fun nc => String.eqb (fst nc) c) (cols f))
                             labels;
            crs := crs f |}
  end.

(** [df.loc[m]] for a boolean row mask [m]. *)
Definition mask_rows (m : list bool) (f : frame) : frame :=
  {| index := index_mask m (index f);
     cols := map (fun nc => (fst nc, col_mask m (snd nc))) (cols f);
     crs := crs f |}.

(** The labels of a one-level index; joining on a [MultiIndex] by one key
    is refused. *)
Definition index_labels (f : frame) : result (list Z) :=
  match index f with
  | Index l => Ok l
  | MultiIndex _ => Raise ValueError
  end.

(** Positions in [labels] that carry the label [k]. *)
Definition positions_of (k : Z) (labels : list Z) : list nat :=
  map fst (filter (fun pl => Z.eqb (snd pl) k) (combine (seq 0 (List.length labels)) labels)).

(** An inner join of the key column [keys] of the left frame with the
    index [labels] of the right frame pairs every left row with every right
    row that carries its key.  [join_rows] lists these pairs (left
    position, right position) under their key, in the order of the left
    rows. *)
Definition join_rows (keys labels : list Z) : list (Z * (nat * nat)) :=
  flat_map (fun ik => map (fun j => (snd ik, (fst ik, j))) (positions_of (snd ik) labels))
           (combine (seq 0 (List.length keys)) keys).

(** The distinct keys of a column, in the order in which they first
    appear. *)
Fixpoint first_seen (keys : list Z) : list Z :=
  match keys with
  | [] => []
  | k :: keys' => k :: filter (fun k' => negb (Z.eqb k' k)) (first_seen keys')
  end.

(** The rows under the keys [ks], key after key, the rows of one key in
    the order they have. *)
Definition group_by_key {A} (ks : list Z) (rows : list (Z * A)) : list (Z * A) :=
  flat_map (fun k => filter (fun r => Z.eqb (fst r) k) rows) ks.

(** The row pairs in the order in which pandas (before 2.2) returns an
    inner merge with [sort=False]: grouped by key, the keys in the order of
    their first appearance in the left column, the rows of one key in the
    order of the left rows. *)
Definition join_pairs (keys labels : list Z) : list (nat * nat) :=
  map snd (group_by_key (first_seen keys) (join_rows keys labels)).

(** A key column in which the occurrences of every key are next to each
    other. *)
Fixpoint clustered (keys : list Z) : Prop :=
  match keys with
  | [] => True
  | k :: keys' => (In k keys' -> exists tl, keys' = k :: tl) /\ clustered keys'
  end.

Definition suffixed (other : list string) (suffix : string) (n : string) : string :=
  if mem n other then (n ++ suffix)%string else n.

(** [left.merge(right, left_on=key, right_index=True, suffixes=...)]: an
    inner join; a column name that occurs on both sides gets the left
    suffix on the left column and the right suffix on the right column.
    The rows come in the order of [join_pairs] and carry the index labels
    of their left rows. *)
Definition merge (left right : frame) (left_on : string) (suffixes : string * string)
  : result frame :=
  (keys <- get_int left_on left ;;
   labels <- index_labels right ;;
   let ps := join_pairs keys labels in
   Ok {| index := index_take (map fst ps) (index left);
         cols :=
           map (fun nc => (suffixed (names right) (fst suffixes) (fst nc),
                           col_take (map fst ps) (snd nc))) (cols left)
           ++ map (fun nc => (suffixed (names left) (snd suffixes) (fst nc),
                              col_take (map snd ps) (snd nc))) (cols right);
         crs := crs left |})%res.

(** Number of rows, read off the index. *)
Definition nrows (f : frame) : nat :=
  match index f with
  | Index l => List.length l
  | MultiIndex l => List.length l
  end.

Definition take_rows (ps : list nat) (f : frame) : frame :=
  {| index := index_take ps (index f);
     cols := map (fun nc => (fst nc, col_take ps (snd nc))) (cols f);
     crs := crs f |}.

(** [df[c] = df.apply(f, axis=1)] needs a row: on a frame without rows
    [apply] does not call [f] and returns a frame, not a column, and the
    assignment raises [ValueError]. *)
Definition apply_has_rows (f : frame) : result unit :=
  if nrows f =? 0 then Raise ValueError else Ok tt.

(** [df.iloc[ps]] for a list of row positions: out of range is an [IndexError]. *)
Definition iloc (ps : list nat) (f : frame) : result frame :=
  if forallb (fun p => p <? nrows f) ps then Ok (take_rows ps f) else Raise IndexError.

End Frames.

Arguments GeomCol {geom} l.
Arguments BoxCol {geom} l.
Arguments ListCol {geom} l.
Arguments IntCol {geom} l.
Arguments NumCol {geom} l.
Arguments StrCol {geom} l.
Arguments BoolCol {geom} l.

(** [Series.to_dict()]: a Python dict from the index labels to the values;
    a label that comes again overwrites the value and keeps its place. *)
Fixpoint dict_set {V} (k : Z) (v : V) (d : list (Z * V)) : list (Z * V) :=
  match d with
  | [] => [(k, v)]
  | (k', v') :: d' =>
      if Z.eqb k' k then (k', v) :: d' else (k', v') :: dict_set k v d'
  end.

Definition to_dict {V} (labels : list Z) (values : list V) : list (Z * V) :=
  fold_left (fun d kv => dict_set (fst kv) (snd kv) d) (combine labels values) [].

(** ** The geometry library

    Shapely's operations on geometries and GeoPandas' spatial index, as an
    interface.  [buffer g d] is [g.buffer(d)]; [sindex_intersection gs b]
    is [list(s.sindex.intersection(b))] for a GeoSeries [s] holding the
    geometries [gs]: positions of geometries whose bounding box meets [b].
    [parts g] is [None] for a single-part geometry and the list of parts
    for a multi-part one. *)

Class GeoOps (geom : Type) : Type := {
  buffer : geom -> Q -> geom;
  intersection : geom -> geom -> geom;
  difference : geom -> geom -> geom;
  is_empty : geom -> bool;
  bounds : geom -> bbox;
  sindex_intersection : list geom -> bbox -> list nat;
  parts : geom -> option (list geom)
}.

(** ** Frames as mutable objects

    [spatial_overlays] copies its arguments and then updates the copies in
    place.  Frames live in a heap, a variable holds a reference, and every
    pandas call that returns a new frame allocates. *)

Definition ref : Type := nat.

(** What a Python function returns: [None] or (a reference to) a frame. *)
Inductive pyval : Type :=
| PyNone
| PyFrame (r : ref).

Section Heap.

Variable geom : Type.

Definition heap : Type := list (frame geom).

Definition M (A : Type) : Type := heap -> result A * heap.

Definition ret {A} (a : A) : M A := fun h => (Ok a, h).

Definition bind {A B} (m : M A) (k : A -> M B) : M B :=
  fun h =>
    match m h with
    | (Ok a, h') => k a h'
    | (Raise e, h') => (Raise e, h')
    end.

Definition lift {A} (r : result A) : M A := fun h => (r, h).

Definition alloc (f : frame geom) : M ref :=
  fun h => (Ok (List.length h), h ++ [f]).

Definition deref (r : ref) : M (frame geom) :=
  fun h =>
    match nth_error h r with
    | Some f => (Ok f, h)
    | None => (Raise ReferenceError, h)
    end.

Fixpoint update (r : nat) (f : frame geom) (h : heap) : heap :=
  match h, r with
  | [], _ => []
  | _ :: h', O => f :: h'
  | x :: h', S r' => x :: update r' f h'
  end.

Definition store (r : ref) (f : frame geom) : M unit :=
  fun h => (Ok tt, update r f h).

End Heap.

Declare Scope heap_scope.
Delimit Scope heap_scope with heap.
Notation "x <- m ;; k" := (bind m (fun x => k))
  (at level 61, m at next level, right associativity) : heap_scope.
Notation "m ;;; k" := (bind m (fun _ => k))
  (at level 61, right associativity) : heap_scope.

Section PandasCalls.

Context {geom : Type}.

Local Open Scope heap_scope.

(** [df.copy()] *)
Definition copy (df : ref) : M geom ref :=
  f <- deref df ;; alloc f.

(** [df.geometry] *)
Definition geometry (df : ref) : M geom (list geom) :=
  f <- deref df ;; lift (get_geom "geometry" f).

(** [df[c] = v] *)
Definition setitem (df : ref) (c : string) (v : column geom) : M geom unit :=
  f <- deref df ;; store df (set_col c v f).

(** [gpd.GeoDataFrame(df, columns=df.columns, crs=c)] *)
Definition GeoDataFrame (df : ref) (c : option string) : M geom ref :=
  f <- deref df ;; alloc {| index := index f; cols := cols f; crs := c |}.

(** [left.merge(right, left_on=key, right_index=True, suffixes=...)] *)
Definition merge_frames (left right : ref) (key : string) (suffixes : string * string)
  : M geom ref :=
  l <- deref left ;;
  r <- deref right ;;
  m <- lift (merge l r key suffixes) ;;
  alloc m.

(** [df.loc[m]] *)
Definition loc (df : ref) (m : list bool) : M geom ref :=
  f <- deref df ;; alloc (mask_rows m f).

End PandasCalls.

(** ** [spatial_overlays] *)

Section Overlay.

Context {geom : Type} `{GeoOps geom}.

Local Open Scope heap_scope.

(** Lines 33-34: [df['geometry'] = df.geometry.buffer(0)] *)
Definition repair (df : ref) : M geom unit :=
  g <- geometry df ;;
  setitem df "geometry" (GeomCol (map (fun x => buffer x 0) g)).

(** Lines 41-43 and 70-72: the bounding boxes of [df1] and, for each of
    them, the candidates that the spatial index of [df2] returns. *)
Definition add_candidates (df1 df2 : ref) : M geom unit :=
  g2 <- geometry df2 ;;
  let spatial_index := sindex_intersection g2 in
  g1 <- geometry df1 ;;
  setitem df1 "bbox" (BoxCol (map bounds g1)) ;;;
  f1 <- deref df1 ;;
  b <- lift (get_box "bbox" f1) ;;
  setitem df1 "histreg" (ListCol (map spatial_index b)).

(** Line 53, the row function: [x['geometry_1'].intersection(x['geometry_2']).buffer(0)] *)
Definition intersect_row (x : geom * geom) : geom :=
  buffer (intersection (fst x) (snd x)) 0.

(** Lines 39-65 *)
Definition intersection_branch (df1 df2 : ref) : M geom pyval :=
  add_candidates df1 df2 ;;;
  f1 <- deref df1 ;;
  histreg <- lift (get_list "histreg" f1) ;;
  labels <- lift (index_labels f1) ;;
  let pairs := to_dict labels histreg in
  let nei := flat_map (fun ij => map (fun k => (fst ij, k)) (snd ij)) pairs in
  pairs <- alloc {| index := RangeIndex (List.length nei);
                    cols := [("idx1", IntCol (map fst nei));
                             ("idx2", IntCol (map (fun ik => Z.of_nat (snd ik)) nei))];
                    crs := crs f1 |} ;;
  pairs <- merge_frames pairs df1 "idx1" ("_x", "_y") ;;
  pairs <- merge_frames pairs df2 "idx2" ("_1", "_2") ;;
  p <- deref pairs ;;
  lift (apply_has_rows p) ;;;
  g_1 <- lift (get_geom "geometry_1" p) ;;
  g_2 <- lift (get_geom "geometry_2" p) ;;
  setitem pairs "Intersection" (GeomCol (map intersect_row (combine g_1 g_2))) ;;;
  f1 <- deref df1 ;;
  pairs <- GeoDataFrame pairs (crs f1) ;;
  p <- deref pairs ;;
  let cols := names p in
  cols <- lift (list_remove "geometry_1" cols) ;;
  cols <- lift (list_remove "geometry_2" cols) ;;
  cols <- lift (list_remove "histreg" cols) ;;
  cols <- lift (list_remove "bbox" cols) ;;
  cols <- lift (list_remove "Intersection" cols) ;;
  sel <- lift (select_cols (cols ++ ["Intersection"]) p) ;;
  sel <- alloc sel ;;
  dfinter <- copy sel ;;
  d <- deref dfinter ;;
  store dfinter (rename_col "Intersection" "geometry" d) ;;;
  dfinter <- GeoDataFrame dfinter (crs p) ;;
  g <- geometry dfinter ;;
  dfinter <- loc dfinter (map (fun x => Bool.eqb (is_empty x) false) g) ;;
  ret (PyFrame dfinter).

(** Line 73, the row function: the fold of [x.difference(y).buffer(0)] over
    the row's geometry followed by the candidate geometries
    [df2.iloc[x.histreg].geometry].  The call evaluates the name [reduce]
    before its arguments. *)
Definition erase (x y : geom) : geom := buffer (difference x y) 0.

(** The arguments of the call and what [functools.reduce] makes of them. *)
Definition difference_fold (f2 : frame geom) (x : geom * list nat) : result geom :=
  (sel <- iloc (snd x) f2 ;;
   candidates <- get_geom "geometry" sel ;;
   reduce erase ([fst x] ++ candidates))%res.

Definition difference_row (f2 : frame geom) (x : geom * list nat) : result geom :=
  (_ <- global "reduce" ;;
   difference_fold f2 x)%res.

(** Lines 69-77 *)
Definition difference_branch (df1 df2 : ref) : M geom pyval :=
  add_candidates df1 df2 ;;;
  f1 <- deref df1 ;;
  g1 <- lift (get_geom "geometry" f1) ;;
  histreg <- lift (get_list "histreg" f1) ;;
  f2 <- deref df2 ;;
  lift (apply_has_rows f1) ;;;
  new_g <- lift (mapM (difference_row f2) (combine g1 histreg)) ;;
  setitem df1 "new_g" (GeomCol new_g) ;;;
  f1 <- deref df1 ;;
  new_g <- lift (get_geom "new_g" f1) ;;
  setitem df1 "geometry" (GeomCol new_g) ;;;
  g <- geometry df1 ;;
  sel <- loc df1 (map (fun x => Bool.eqb (is_empty x) false) g) ;;
  df1 <- copy sel ;;
  f1 <- deref df1 ;;
  dropped <- lift (drop_cols ["bbox"; "histreg"; "new_g"] f1) ;;
  store df1 dropped ;;;
  ret (PyFrame df1).

(** Lines 15-77.  A mode that is neither of the two literals falls off the
    end of the function, which is Python's [return None]. *)
Definition spatial_overlays (df1 df2 : ref) (how : string) : M geom pyval :=
  df1 <- copy df1 ;;
  df2 <- copy df2 ;;
  repair df1 ;;;
  repair df2 ;;;
  if String.eqb how "intersection" then intersection_branch df1 df2
  else if String.eqb how "difference" then difference_branch df1 df2
  else ret PyNone.

End Overlay.

(** ** Row-wise conditional geometry transforms

    [geom_within_country] and [delete_roads_urb] are applied to the rows of
    a frame; a row is a pandas Series, read by column name. *)

Section Rows.

Context {geom : Type} `{GeoOps geom}.

Inductive cell : Type :=
| CGeom (g : geom)
| CBool (b : bool)
| CInt (z : Z)
| CStr (s : string)
| CNone.

Definition row : Type := list (string * cell).

(** [x[c]] *)
Fixpoint getitem (x : row) (c : string) : result cell :=
  match x with
  | [] => Raise (KeyError c)
  | (n, v) :: x' => if String.eqb n c then Ok v else getitem x' c
  end.

(** Python's truth value of a cell, as [if] and [not] take it. *)
Definition truthy (v : cell) : bool :=
  match v with
  | CGeom g => negb (is_empty g)
  | CBool b => b
  | CInt z => negb (Z.eqb z 0)
  | CStr s => negb (String.eqb s "")
  | CNone => false
  end.

(** A method of Shapely geometries called on a cell. *)
Definition geom_method (op : geom -> geom -> geom) (v : cell) (other : geom) : result cell :=
  match v with
  | CGeom g => Ok (CGeom (op g other))
  | _ => Raise AttributeError
  end.

(** Lines 369-381 *)
Definition geom_within_country (x : row) (geo_country : geom) : result cell :=
  (flag <- getitem x "within_country" ;;
   if negb (truthy flag) then
     g <- getitem x "geometry" ;;
     geom_method intersection g geo_country
   else
     getitem x "geometry")%res.

(** Lines 384-395 *)
Definition delete_roads_urb (x : row) (geo_urban : geom) : result cell :=
  (flag <- getitem x "inter_urb" ;;
   if truthy flag then
     g <- getitem x "geometry" ;;
     geom_method difference g geo_urban
   else
     getitem x "geometry")%res.

End Rows.

Arguments cell geom : clear implicits.
Arguments row geom : clear implicits.

(** ** [map_roads] *)

(** Lines 241-304: the static table. *)
Definition dict_map : list (string * string) :=
  [ ("disused", "other"); ("dummy", "other"); ("planned", "other");
    ("platform", "other"); ("unsurfaced", "track"); ("traffic_island", "other");
    ("razed", "other"); ("abandoned", "other"); ("services", "track");
    ("proposed", "other"); ("corridor", "track"); ("bus_guideway", "other");
    ("bus_stop", "other"); ("rest_area", "other"); ("yes", "other");
    ("trail", "other"); ("escape", "track"); ("raceway", "other");
    ("emergency_access_point", "track"); ("emergency_bay", "track");
    ("construction", "track"); ("bridleway", "track"); ("cycleway", "other");
    ("footway", "other"); ("living_street", "tertiary"); ("path", "track");
    ("pedestrian", "other"); ("primary", "primary"); ("primary_link", "primary");
    ("residential", "tertiary"); ("road", "secondary"); ("secondary", "secondary");
    ("secondary_link", "secondary"); ("service", "tertiary"); ("steps", "other");
    ("tertiary", "tertiary"); ("tertiary_link", "tertiary"); ("track", "track");
    ("unclassified", "tertiary"); ("trunk", "primary"); ("motorway", "primary");
    ("trunk_link", "primary"); ("motorway_link", "primary"); ("via_ferrata", "other");
    ("elevator", "other"); ("crossing", "other"); ("seasonal", "other");
    ("traffic_signals", "other"); ("piste", "other"); ("dismantled", "other");
    ("winter_road", "other"); ("access", "other"); ("ohm:military:Trench", "other");
    ("no", "other"); ("byway", "other"); ("unmarked_route", "other");
    ("track_grade1", "track"); ("track_grade2", "track"); ("track_grade3", "track");
    ("track_grade4", "track"); ("track_grade5", "track"); ("unknown", "other") ].

(** The five coarse classes of the specification. *)
Definition coarse_classes : list string :=
  ["primary"; "secondary"; "tertiary"; "track"; "other"].

(** [d[k]] on a Python dict given by its literal: the last binding of a key
    is the one that counts. *)
Fixpoint dict_find (d : list (string * string)) (k : string) : option string :=
  match d with
  | [] => None
  | (k', v) :: d' =>
      match dict_find d' k with
      | Some v' => Some v'
      | None => if String.eqb k' k then Some v else None
      end
  end.

Definition dict_getitem (d : list (string * string)) (k : string) : result string :=
  match dict_find d k with
  | Some v => Ok v
  | None => Raise (KeyError k)
  end.

(** Line 306, the function mapped over the column: [dict_map[x]].  A null
    cell is no key of the table either. *)
Definition classify (x : option string) : result string :=
  match x with
  | Some tag => dict_getitem dict_map tag
  | None => Raise (KeyError "None")
  end.

Section Roads.

Context {geom : Type}.

(** Lines 229-308.  The frame is updated in place and returned; here the
    updated frame is the result. *)
Definition map_roads (load_country : frame geom) : result (frame geom) :=
  (fclass <- get_str "fclass" load_country ;;
   roads <- mapM classify fclass ;;
   Ok (set_col "roads" (StrCol (map Some roads)) load_country))%res.

End Roads.

(** ** [line_length] and [get_country] *)

(** A coordinate tuple of a Shapely line. *)
Definition point : Type := list Q.

(** The geometries of the [lines] layer. *)
Inductive linegeom : Type :=
| LineString (coords : list point)
| MultiLineString (segments : list (list point)).

(** [boltons.iterutils.pairwise] *)
Fixpoint pairwise {A} (l : list A) : list (A * A) :=
  match l with
  | [] => []
  | a :: l' =>
      match l' with
      | [] => []
      | b :: _ => (a, b) :: pairwise l'
      end
  end.

(** [a < b] on floats, compared as the rationals they denote. *)
Definition Qltb (a b : Q) : bool :=
  (Qnum a * Zpos (Qden b) <? Qnum b * Zpos (Qden a))%Z.

(** *** Sums of floats

    A length is a Python float, a binary64 number; a finite float is
    written as the rational it denotes.  The sum of two floats is their
    exact sum rounded to the nearest float, a tie going to the even
    significand.  Overflow and subnormal numbers are left out: the numbers
    summed are distances in kilometres. *)

(** [n / d] rounded to the nearest integer, a tie going to the even one,
    for [0 <= n] and [0 < d]. *)
Definition round_half_even (n d : Z) : Z :=
  let q := (n / d)%Z in
  let r := (n mod d)%Z in
  if (2 * r <? d)%Z then q
  else if (d <? 2 * r)%Z then (q + 1)%Z
  else if Z.even q then q else (q + 1)%Z.

(** [n / 2 ^ e] with the numerator and the denominator as integers. *)
Definition scaled (n d e : Z) : Z * Z :=
  if (e <? 0)%Z then (n * 2 ^ (- e), d)%Z else (n, d * 2 ^ e)%Z.

(** The exponent of the last place of the float nearest to [n / d]: the one
    that puts [n / d / 2 ^ e] in the range from [2 ^ 52] to [2 ^ 53]. *)
Definition ulp_exponent (n d : Z) : Z :=
  let e0 := (Z.log2 n - Z.log2 d - 52)%Z in
  let '(sn, sd) := scaled n d e0 in
  if (sn <? 2 ^ 52 * sd)%Z then (e0 - 1)%Z else e0.

(** The float nearest to [n / d], for [0 < n] and [0 < d]. *)
Definition round53_pos (n d : Z) : Q :=
  let e := ulp_exponent n d in
  let '(sn, sd) := scaled n d e in
  let m := round_half_even sn sd in
  if (e <? 0)%Z then Qred (Qmake m (Z.to_pos (2 ^ (- e))))
  else inject_Z (m * 2 ^ e).

(** The float nearest to a rational. *)
Definition round53 (q : Q) : Q :=
  match Qnum q with
  | Z0 => 0%Q
  | Zpos n => round53_pos (Zpos n) (Zpos (Qden q))
  | Zneg n => Qopp (round53_pos (Zpos n) (Zpos (Qden q)))
  end.

(** [x + y] on floats *)
Definition fadd (x y : Q) : Q := round53 (x + y).

(** Python's [sum] on floats, as it was before Python 3.12: the additions
    from the left, starting at 0. *)
Definition fsum (ds : list Q) : Q := fold_left fadd ds 0%Q.

(** [line.geometryType()]: Shapely 1.8 reports a multi-line without a
    segment as a geometry collection. *)
Definition geometryType (line : linegeom) : string :=
  match line with
  | LineString _ => "LineString"
  | MultiLineString [] => "GeometryCollection"
  | MultiLineString (_ :: _) => "MultiLineString"
  end.

(** [line.coords]: only a single line has a coordinate sequence. *)
Definition coords (line : linegeom) : result (list point) :=
  match line with
  | LineString c => Ok c
  | MultiLineString _ => Raise NotImplementedError
  end.

(** The segments that iterating over a multi-line gives. *)
Definition segments (line : linegeom) : list linegeom :=
  match line with
  | LineString _ => []
  | MultiLineString s => map LineString s
  end.

Section Country.

(** [vincenty(a, b, ellipsoid='WGS-84').kilometers] of geopy; it raises
    for a latitude out of range. *)
Variable vincenty : point -> point -> result Q.

(** Python's [sum] over the generator of segment lengths. *)
Definition sum_km (l : list (point * point)) : result Q :=
  (ds <- mapM (fun ab => vincenty (fst ab) (snd ab)) l ;;
   Ok (fsum ds))%res.

(** Lines 220-225: the length of a line from its coordinate sequence, with
    the coordinates swapped when the first attempt raises. *)
Definition single_length (line : linegeom) : result Q :=
  match (c <- coords line ;; sum_km (pairwise c))%res with
  | Ok d => Ok d
  | Raise _ => (c <- coords line ;; sum_km (pairwise (map (@rev Q) c)))%res
  end.

(** Lines 203-225: the segments of a multi-line are single lines, so the
    call of line 217 on a segment is [single_length]. *)
Definition line_length (line : linegeom) : result Q :=
  if String.eqb (geometryType line) "MultiLineString" then
    (ds <- mapM single_length (segments line) ;;
     Ok (fsum ds))%res
  else single_length line.

(** [Series.value_counts()]: the non-null values with their counts. *)
Definition value_counts (l : list (option string)) : list (string * nat) :=
  let vals := flat_map (fun x => match x with Some s => [s] | None => [] end) l in
  map (fun s => (s, count_occ string_dec vals s)) (nodup string_dec vals).

(** [Series.isin(values)] *)
Definition isin (values : list string) (l : list (option string)) : list bool :=
  map (fun x => match x with Some s => mem s values | None => false end) l.

(** Lines 140-144 *)
Definition filter_tags (load_country : frame linegeom) : result (frame linegeom) :=
  (highway <- get_str "highway" load_country ;;
   let uniq := value_counts highway in
   let uniq := map fst (filter (fun tn => 20 <? snd tn) uniq) in
   let uniq := uniq ++ ["primary"; "secondary"; "trunk"; "motorway"] in
   let uniq := nodup string_dec uniq in
   highway <- get_str "highway" load_country ;;
   Ok (mask_rows (isin uniq highway) load_country))%res.

(** Lines 147-148 *)
Definition filter_length (load_country : frame linegeom) : result (frame linegeom) :=
  (g <- get_geom "geometry" load_country ;;
   d <- mapM line_length g ;;
   let load_country := set_col "distance" (NumCol d) load_country in
   distance <- get_num "distance" load_country ;;
   Ok (mask_rows (map (fun x => Qltb x 500) distance) load_country))%res.

(** Lines 140-159 of [get_country], from the frame that [gpd.read_file]
    returned. *)
Definition get_country (load_country : frame linegeom) (RAI : bool)
  : result (frame linegeom) :=
  (load_country <- filter_tags load_country ;;
   load_country <- (if negb RAI then filter_length load_country else Ok load_country) ;;
   map_roads load_country)%res.

End Country.

(** ** [explode] *)

Section Explode.

Context {geom : Type} `{GeoOps geom}.

(** GeoPandas' [explode()] on the geometry column, as lines 315-317 and 327
    use it: a series with one entry per part, under the pair (label of the
    parent, zero-based number of the part). *)
Definition explode_parts (labels : list Z) (g : list geom) : list ((Z * Z) * geom) :=
  flat_map (fun lg =>
              match parts (snd lg) with
              | Some ps =>
                  map (fun kp => ((fst lg, Z.of_nat (fst kp)), snd kp))
                      (combine (seq 0 (List.length ps)) ps)
              | None => [((fst lg, 0%Z), snd lg)]
              end)
           (combine labels g).

(** [df.set_index([a, b])] *)
Definition set_index2 (a b : string) (f : frame geom) : result (frame geom) :=
  (la <- get_int a f ;;
   lb <- get_int b f ;;
   Ok {| index := MultiIndex (combine la lb);
         cols := filter (fun nc => negb (mem (fst nc) [a; b])) (cols f);
         crs := crs f |})%res.

(** The list [geometries] that GeoPandas' [explode()] collects: the parts
    of every geometry with parts, and the other geometries themselves. *)
Definition exploded (g : list geom) : list geom :=
  flat_map (fun x => match parts x with Some ps => ps | None => [x] end) g.

(** What GeoPandas 0.3.0 raises in the [explode()] of line 327:
    [MultiIndex.from_tuples] raises a TypeError on an empty list of index
    tuples, and the [__finalize__] that ends [explode()] copies the
    attribute [name] of the frame to the series, which raises a TypeError
    when [name] is a column. *)
Definition explode_checks (gdf : frame geom) (g : list geom) : result unit :=
  match exploded g with
  | [] => Raise TypeError
  | _ :: _ => if mem "name" (names gdf) then Raise TypeError else Ok tt
  end.

(** Lines 311-332 *)
Definition explode (gdf : frame geom) : result (frame geom) :=
  (g <- get_geom "geometry" gdf ;;
   _ <- explode_checks gdf g ;;
   labels <- index_labels gdf ;;
   let gs := explode_parts labels g in
   let gdf2 := {| index := RangeIndex (List.length gs);
                  cols := [("level_0", IntCol (map (fun e => fst (fst e)) gs));
                           ("level_1", IntCol (map (fun e => snd (fst e)) gs));
                           ("geometry", GeomCol (map snd gs))];
                  crs := None |} in
   attrs <- drop_cols ["geometry"] gdf ;;
   gdf_out <- merge gdf2 attrs "level_0" ("_x", "_y") ;;
   gdf_out <- set_index2 "level_0" "level_1" gdf_out ;;
   _ <- get_geom "geometry" gdf_out ;;
   Ok {| index := index gdf_out; cols := cols gdf_out; crs := crs gdf |})%res.

End Explode.

(** ** A concrete geometry for examples

    A geometry is a finite set of unit cells on a line; buffering by zero
    changes nothing, every bounding box meets every other. *)

Definition cells : Type := list nat.

Definition cells_intersection (a b : cells) : cells :=
  filter (fun x => existsb (Nat.eqb x) b) a.

Definition cells_difference (a b : cells) : cells :=
  filter (fun x => negb (existsb (Nat.eqb x) b)) a.

Definition cells_is_empty (a : cells) : bool :=
  match a with
  | [] => true
  | _ => false
  end.

#[export] Instance cells_ops : GeoOps cells := {|
  buffer := fun g _ => g;
  intersection := cells_intersection;
  difference := cells_difference;
  is_empty := cells_is_empty;
  bounds := fun _ => (0, 0, 0, 0)%Q;
  sindex_intersection := fun gs _ => seq 0 (List.length gs);
  parts := fun _ => None
|}.

(** [list_remove] where the element is known to be there. *)
Fixpoint remove_first (s : string) (l : list string) : list string :=
  match l with
  | [] => []
  | x :: l' => if String.eqb x s then l' else x :: remove_first s l'
  end.

(** [ends_with sfx s]: the string [s] ends with [sfx]. *)
Fixpoint ends_with (sfx s : string) : bool :=
  if String.eqb s sfx then true
  else match s with
       | EmptyString => false
       | String _ s' => ends_with sfx s'
       end.

(** Column names that [spatial_overlays] uses for its own bookkeeping in
    intersection mode. *)
Definition reserved : list string :=
  ["idx1"; "idx2"; "bbox"; "histreg"; "Intersection"; "geometry_1"; "geometry_2"].

Section Joined.

Variable geom : Type.

(** The frame that [merge] builds from the key column of the left frame and
    the index labels of the right frame. *)
Definition merged (left right : frame geom) (keys labels : list Z)
    (suffixes : string * string) : frame geom :=
  let ps := join_pairs keys labels in
  {| index := index_take (map fst ps) (index left);
     cols :=
       map (fun nc => (suffixed (names right) (fst suffixes) (fst nc),
                       col_take (map fst ps) (snd nc))) (cols left)
       ++ map (fun nc => (suffixed (names left) (snd suffixes) (fst nc),
                          col_take (map snd ps) (snd nc))) (cols right);
     crs := crs left |}.

End Joined.

(** ** The frames of one call

    Names for the frames that a call of [spatial_overlays] builds from its
    two repaired copies [a] and [b], whose geometries are [ga] and [gb] and
    whose index labels are [la] and [lb]. *)

Section Trace.

Context {geom : Type} `{GeoOps geom}.

Variables (a b : frame geom) (ga gb : list geom) (la lb : list Z).

(** The two private copies after lines 31-34. *)
Definition repaired (f : frame geom) (g : list geom) : frame geom :=
  set_col "geometry" (GeomCol (map (fun x => buffer x 0) g)) f.

(** The first frame once the candidate lists are attached. *)
Definition with_candidates : frame geom :=
  set_col "histreg" (ListCol (map (sindex_intersection gb) (map bounds ga)))
          (set_col "bbox" (BoxCol (map bounds ga)) a).

(** The rows of [f] whose geometry in [g] is not empty. *)
Definition kept (f : frame geom) (g : list geom) : frame geom :=
  mask_rows (map (fun x => Bool.eqb (is_empty x) false) g) f.

(** Intersection mode: the candidate pairs (line 44-48) ... *)
Definition nei : list (Z * nat) :=
  flat_map (fun ij => map (fun k => (fst ij, k)) (snd ij))
           (to_dict la (map (sindex_intersection gb) (map bounds ga))).

Definition pairs0 : frame geom :=
  {| index := RangeIndex (List.length nei);
     cols := [("idx1", IntCol (map fst nei));
              ("idx2", IntCol (map (fun ik => Z.of_nat (snd ik)) nei))];
     crs := crs a |}.

(** ... joined with the first frame (line 51) ... *)
Definition joined_1 : frame geom :=
  merged pairs0 with_candidates (map fst nei) la ("_x", "_y").

Definition rows_1 : list nat := map snd (join_pairs (map fst nei) la).

Definition keys_2 : list Z :=
  take (map fst (join_pairs (map fst nei) la)) (map (fun ik => Z.of_nat (snd ik)) nei).

(** ... and with the second frame (line 52). *)
Definition joined_2 : frame geom :=
  merged joined_1 b keys_2 lb ("_1", "_2").

Definition rows_A : list nat := map fst (join_pairs keys_2 lb).

Definition rows_B : list nat := map snd (join_pairs keys_2 lb).

(** Line 53 *)
Definition intersections : list geom :=
  map intersect_row (combine (take rows_A (take rows_1 ga)) (take rows_B gb)).

Definition joined : frame geom :=
  set_col "Intersection" (GeomCol intersections) joined_2.

(** Line 54 *)
Definition rewrapped : frame geom :=
  {| index := index joined; cols := cols joined; crs := crs a |}.

(** Lines 55-60 *)
Definition kept_names : list string :=
  remove_first "bbox"
    (remove_first "histreg"
       (remove_first "geometry_2" (remove_first "geometry_1" (names joined_2)))).

(** Line 61 *)
Definition selected : frame geom :=
  {| index := index rewrapped;
     cols := flat_map (fun c => filter (fun nc => String.eqb (fst nc) c) (cols rewrapped))
                      (kept_names ++ ["Intersection"]);
     crs := crs rewrapped |}.

(** Line 62 *)
Definition projected : frame geom :=
  rename_col "Intersection" "geometry" selected.

(** Line 63 *)
Definition dfinter : frame geom :=
  {| index := index projected; cols := cols projected; crs := crs rewrapped |}.

(** Line 64: the row mask and the result. *)
Definition nonempty_rows : list bool :=
  map (fun x => Bool.eqb (is_empty x) false) intersections.

Definition intersected : frame geom := kept dfinter intersections.

End Trace.

(** ** Statements about schemas *)

Section Schemas.

Variable geom : Type.

(** The result [out] of an intersection carries every column of [f1] and
    of [f2] other than the geometries, with the suffix [_1] or [_2] on a
    name that both inputs have. *)
Definition carries_attributes (f1 f2 out : frame geom) : Prop :=
  (forall c, In c (names f1) -> c <> "geometry" ->
             In (suffixed (names f2) "_1" c) (names out))
  /\ (forall c, In c (names f2) -> c <> "geometry" ->
                In (suffixed (names f1) "_2" c) (names out)).

End Schemas.

(** ** Example data *)

Definition ex_A : frame cells :=
  {| index := Index [10; 11]%Z;
     cols := [("name", StrCol [Some "a"; Some "b"]);
              ("geometry", GeomCol [[1; 2]; [5]])];
     crs := Some "epsg:4326" |}.

Definition ex_B : frame cells :=
  {| index := Index [0; 1]%Z;
     cols := [("geometry", GeomCol [[2; 3]; [9]]);
              ("name", StrCol [Some "x"; Some "y"]);
              ("kind", StrCol [Some "urban"; Some "rural"])];
     crs := Some "epsg:4326" |}.

(** A collection without a column called [name]. *)
Definition ex_zones : frame cells :=
  {| index := Index [10; 11]%Z;
     cols := [("kind", StrCol [Some "a"; Some "b"]);
              ("geometry", GeomCol [[1; 2]; [5]])];
     crs := Some "epsg:4326" |}.

(** A first collection with an attribute column called [bbox]. *)
Definition ex_A_bbox : frame cells :=
  {| index := Index [10; 11]%Z;
     cols := [("bbox", StrCol [Some "a"; Some "b"]);
              ("geometry", GeomCol [[1; 2]; [5]])];
     crs := Some "epsg:4326" |}.

Section RowStatements.

Context {geom : Type} `{GeoOps geom}.

(** A row transform that returns the row's geometry as it is when the flag
    is true and [op] of the geometry and the reference when it is false. *)
Definition original_when_flagged
    (transform : row geom -> geom -> result (cell geom))
    (flag : string) (op : geom -> geom -> geom) : Prop :=
  forall (x : row geom) (reference g : geom) (b : bool),
    getitem x "geometry" = Ok (CGeom g) ->
    getitem x flag = Ok (CBool b) ->
    transform x reference = Ok (CGeom (if b then g else op g reference)).

End RowStatements.

(** A road that crosses the urban area [[2]]. *)
Definition ex_row : row cells :=
  [("geometry", CGeom [1; 2]); ("within_country", CBool false); ("inter_urb", CBool true)].

(** Equality of tags, null or not, is decidable. *)
Definition option_string_dec (x y : option string) : {x = y} + {x <> y}.
Proof. decide equality. apply string_dec. Defined.

(** The four tags that line 142 always keeps. *)
Definition major_tags : list string := ["primary"; "secondary"; "trunk"; "motorway"].

(** A single road of [n] segments between two fixed points, in a country
    where every segment is [km] long. *)
Definition ex_road (n : nat) : linegeom :=
  LineString (repeat [0%Q; 0%Q] (S n)).

Definition ex_vincenty (km : Q) (a b : point) : result Q := Ok km.

Definition ex_roads (n : nat) : frame linegeom :=
  {| index := Index [0]%Z;
     cols := [("highway", StrCol [Some "primary"]);
              ("fclass", StrCol [Some "primary"]);
              ("geometry", GeomCol [ex_road n])];
     crs := None |}.

(** A loaded frame with [n] roads tagged [service], one [path] and one
    [trunk]. *)
Definition ex_tagged (n : nat) : frame linegeom :=
  {| index := RangeIndex (n + 2);
     cols := [("highway", StrCol (repeat (Some "service") n ++ [Some "path"; Some "trunk"]))];
     crs := None |}.

Section ExplodeStatements.

Variable geom : Type.

(** What [explode] should do to a frame of single-part geometries: as many
    rows, the same geometries, the part number 0 under every parent label,
    every other column as it was, and the CRS of the input. *)
Definition single_parts_kept (gdf out : frame geom) : Prop :=
  nrows out = nrows gdf
  /\ get_geom "geometry" out = get_geom "geometry" gdf
  /\ (exists labels, index gdf = Index labels
                     /\ index out = MultiIndex (map (fun l => (l, 0%Z)) labels))
  /\ (forall c x, In (c, x) (cols gdf) -> c <> "geometry" -> In (c, x) (cols out))
  /\ crs out = crs gdf.

(** Every column has one value per row. *)
Definition rectangular (f : frame geom) : Prop :=
  forall c x, In (c, x) (cols f) -> col_length x = nrows f.

End ExplodeStatements.

(** A collection of single-part geometries with an attribute column called
    [level_1]. *)
Definition ex_levels : frame cells :=
  {| index := Index [10; 11]%Z;
     cols := [("level_1", StrCol [Some "a"; Some "b"]);
              ("geometry", GeomCol [[1; 2]; [5]])];
     crs := Some "epsg:4326" |}.

(** ** What a call leaves alone *)

Section HeapInvariant.

Variable geom : Type.

(** [keeps h0 m inv]: run from any heap that extends [h0], [m] leaves the
    part [h0] as it is, and a value it returns satisfies [inv]. *)
Definition keeps {A} (h0 : heap geom) (m : M geom A) (inv : A -> Prop) : Prop :=
  forall l, (exists l', snd (m (h0 ++ l)) = h0 ++ l')
            /\ (forall a, fst (m (h0 ++ l)) = Ok a -> inv a).

Definition fresh (h0 : heap geom) (r : ref) : Prop := List.length h0 <= r.

End HeapInvariant.

(** ** Further statements about one call *)

Section Results.

Variable geom : Type.

(** A returned frame is an object made during the call. *)
Definition fresh_val (h0 : heap geom) (v : pyval) : Prop :=
  match v with
  | PyNone => True
  | PyFrame r => fresh h0 r
  end.

End Results.

(** ** [Create_Buffer]

    GeoPandas' [to_crs] re-projects the geometry column of a frame.  The
    projection library is an interface: [from_epsg n] is the CRS of the
    EPSG code [n], [transform c c' g] is the geometry [g] of the CRS [c]
    in the coordinates of [c']. *)

Class Projections (geom : Type) : Type := {
  from_epsg : nat -> string;
  transform : string -> string -> geom -> geom
}.

Section Buffer.

Context {geom : Type} `{GeoOps geom} `{Projections geom}.

Local Open Scope heap_scope.

(** [df.to_crs(epsg=n)]: a new frame, the geometry column transformed;
    a frame that has no CRS cannot be transformed. *)
Definition to_crs (df : ref) (epsg : nat) : M geom ref :=
  df <- copy df ;;
  g <- geometry df ;;
  f <- deref df ;;
  match crs f with
  | None => lift (Raise ValueError)
  | Some c =>
      let target := from_epsg epsg in
      store df {| index := index f;
                  cols := assign "geometry" (GeomCol (map (transform c target) g)) (cols f);
                  crs := Some target |} ;;;
      ret df
  end.

(** Lines 352-366 *)
Definition Create_Buffer (gdf : ref) (epsg1 : nat) (size : Q) : M geom ref :=
  gdf1 <- copy gdf ;;
  gdf1 <- to_crs gdf1 epsg1 ;;
  g <- geometry gdf1 ;;
  setitem gdf1 "geometry" (GeomCol (map (fun x => buffer x size) g)) ;;;
  gdf1 <- to_crs gdf1 4326 ;;
  ret gdf1.

(** The frame that [to_crs] makes of a frame with the geometries [g] and
    the CRS [c]. *)
Definition reprojected (f : frame geom) (g : list geom) (c target : string) : frame geom :=
  {| index := index f;
     cols := assign "geometry" (GeomCol (map (transform c target) g)) (cols f);
     crs := Some target |}.

End Buffer.

(** ** The files and commands of [get_country]

    Lines 102-138 of [get_country] and the functions [clip_osm],
    [extract_osm] and [extract_osm_rail] talk to the operating system.  A
    run carries the state of the machine and the log of what was asked of
    it. *)

Module Script.

Inductive event : Type :=
| System (command : string)
| Sleep (seconds : nat)
| ReadFile (path : string).

(** What can be raised: an exception of the Python code, or the error of
    the reader when it cannot open a file. *)
Inductive error : Type :=
| Python (e : exn)
| DriverError.

(** The machine: [os.path.join], [os.path.exists], [os.system] (its exit
    status is not looked at), [time.sleep] and [gpd.read_file]. *)
Class OS (world : Type) : Type := {
  path_join : string -> string -> string;
  path_exists : string -> world -> bool;
  system : string -> world -> world;
  sleep : nat -> world -> world;
  read_file : string -> world -> option (frame linegeom)
}.

Section Calls.

Context {world : Type} `{OS world}.

Definition state : Type := (world * list event)%type.

Definition IO (A : Type) : Type := state -> (A + error) * state.

Definition io_ret {A} (a : A) : IO A := fun s => (inl a, s).

Definition io_bind {A B} (m : IO A) (k : A -> IO B) : IO B :=
  fun s =>
    match m s with
    | (inl a, s') => k a s'
    | (inr e, s') => (inr e, s')
    end.

(** [try: m except: handler]: a bare [except] catches every exception. *)
Definition try_except {A} (m handler : IO A) : IO A :=
  fun s =>
    match m s with
    | (inl a, s') => (inl a, s')
    | (inr _, s') => handler s'
    end.

Definition os_path_exists (path : string) : IO bool :=
  fun s => (inl (path_exists path (fst s)), s).

Definition os_system (command : string) : IO unit :=
  fun s => (inl tt, (system command (fst s), snd s ++ [System command])).

Definition time_sleep (seconds : nat) : IO unit :=
  fun s => (inl tt, (sleep seconds (fst s), snd s ++ [Sleep seconds])).

Definition gpd_read_file (path : string) : IO (frame linegeom) :=
  fun s =>
    (match read_file path (fst s) with
     | Some f => inl f
     | None => inr DriverError
     end, (fst s, snd s ++ [ReadFile path])).

(** The rest of a function that does not touch the machine. *)
Definition pure {A} (r : result A) : IO A :=
  fun s =>
    (match r with
     | Ok a => inl a
     | Raise e => inr (Python e)
     end, s).

End Calls.

Declare Scope io_scope.
Delimit Scope io_scope with io.
Notation "x <- m ;; k" := (io_bind m (fun x => k))
  (at level 61, m at next level, right associativity) : io_scope.
Notation "m ;;; k" := (io_bind m (fun _ => k))
  (at level 61, right associativity) : io_scope.

(** The double quote of the command lines. *)
Definition dquote : string := String "034" EmptyString.

Section Functions.

Context {world : Type} `{OS world}.

Variable vincenty : point -> point -> result Q.

Local Open Scope io_scope.

(** Lines 163-182: [%s] puts the path strings into the command. *)
Definition clip_osm (continent_osm country_poly country_pbf : string) : IO unit :=
  os_system ("osmconvert64 " ++ continent_osm ++ " -B=" ++ country_poly
             ++ " --complete-ways -o=" ++ country_pbf)%string.

(** The command of lines 197-199 and 346-348 for the attribute [tag]: the
    literal runs over three lines, each ended by a backslash, so the
    indentation of the second and the third line is part of the command. *)
Definition ogr2ogr (tag country_shp country_pbf : string) : string :=
  ("ogr2ogr -overwrite -skipfailures -f " ++ dquote ++ "ESRI Shapefile" ++ dquote
   ++ " -progress "
   ++ "              -sql " ++ dquote ++ "SELECT " ++ tag ++ " FROM lines WHERE "
   ++ tag ++ " IS "
   ++ "              NOT NULL" ++ dquote ++ " -lco ENCODING=UTF-8 "
   ++ country_shp ++ " " ++ country_pbf)%string.

(** Lines 185-199 *)
Definition extract_osm (country_shp country_pbf : string) : IO unit :=
  os_system (ogr2ogr "highway" country_shp country_pbf).

(** Lines 334-348 *)
Definition extract_osm_rail (country_shp country_pbf : string) : IO unit :=
  os_system (ogr2ogr "railway" country_shp country_pbf).

(** Lines 130-138 *)
Definition load_shapefile (country_shp : string) : IO (frame linegeom) :=
  try_except (gpd_read_file country_shp)
    (time_sleep 30 ;;;
     try_except (gpd_read_file country_shp)
       (time_sleep 60 ;;;
        gpd_read_file country_shp)).

(** Lines 80-159.  Lines 140-159, from the loaded frame on, are the
    function [get_country] of the section [Country] above. *)
Definition get_country (country continent_osm base_path : string) (overwrite RAI : bool)
  : IO (frame linegeom) :=
  let ctry_out := path_join base_path "country_data" in
  let osm_path_out := path_join base_path "osm_country" in
  let poly_dir := path_join base_path "poly_files" in
  let country_poly := path_join poly_dir (country ++ ".poly")%string in
  let country_shp := path_join ctry_out (country ++ ".shp")%string in
  let country_pbf := path_join osm_path_out (country ++ ".osm.pbf")%string in
  present <- os_path_exists country_pbf ;;
  (if negb present then clip_osm continent_osm country_poly country_pbf
   else io_ret tt) ;;;
  present <- os_path_exists country_shp ;;
  (if negb present || overwrite then extract_osm country_shp country_pbf
   else io_ret tt) ;;;
  load_country <- load_shapefile country_shp ;;
  pure (get_country vincenty load_country RAI).

End Functions.

End Script.

(** ** Reading a log *)

Definition is_command (e : Script.event) : bool :=
  match e with
  | Script.System _ => true
  | _ => false
  end.

(** The commands of a log, in order. *)
Definition commands (log : list Script.event) : list string :=
  flat_map (fun e => match e with Script.System c => [c] | _ => [] end) log.

(** How often a log reads [path]. *)
Definition reads (path : string) (log : list Script.event) : nat :=
  List.length (filter (fun e => match e with
                                | Script.ReadFile p => String.eqb p path
                                | _ => false
                                end) log).

(** The seconds a log sleeps. *)
Definition slept (log : list Script.event) : nat :=
  fold_right (fun e n => match e with Script.Sleep k => k + n | _ => n end) 0 log.

(** A machine for examples: the state is the clock, in seconds; no file
    exists, commands change nothing, and a shapefile can be read after
    [ready] seconds. *)
Definition ex_machine (ready : nat) : Script.OS nat := {|
  Script.path_join := fun a b => (a ++ "/" ++ b)%string;
  Script.path_exists := fun _ _ => false;
  Script.system := fun _ w => w;
  Script.sleep := fun n w => w + n;
  Script.read_file := fun _ w => if ready <=? w then Some (ex_roads 1) else None
|}.

(** ** The rows of an exploded frame *)

Section Parts.

Context {geom : Type} `{GeoOps geom}.

(** The number of rows that one geometry explodes into. *)
Definition part_count (x : geom) : nat :=
  match parts x with
  | Some ps => List.length ps
  | None => 1
  end.

(** For every row of the exploded series, the position of its parent. *)
Definition parents_from (s : nat) (g : list geom) : list nat :=
  flat_map (fun ix => repeat (fst ix) (part_count (snd ix)))
           (combine (seq s (List.length g)) g).

Definition parents (g : list geom) : list nat := parents_from 0 g.

End Parts.

(** ** The candidate pairs of an intersection *)

(** For every element of the flattened list of [counts], the position of
    the count it comes from, positions starting at [s]. *)
Definition owners_from (s : nat) (counts : list nat) : list nat :=
  flat_map (fun ic => repeat (fst ic) (snd ic))
           (combine (seq s (List.length counts)) counts).

Section Candidates.

Context {geom : Type} `{GeoOps geom}.

(** Every geometry of [A] with every position that the spatial index of
    [B] returns for its bounding box, in the order of lines 44-48. *)
Definition candidate_pairs (A B : list geom) : list (geom * nat) :=
  flat_map (fun x => map (pair x) (sindex_intersection B (bounds x))) A.

(** The overlaps of a geometry with the rows of the second frame that a
    candidate [k] is joined with: the rows whose index label is [k]. *)
Definition overlaps (B : list geom) (labels : list Z) (xk : geom * nat) : list geom :=
  map (fun y => intersect_row (fst xk, y))
      (take (positions_of (Z.of_nat (snd xk)) labels) B).

(** The candidate pairs in the order of the rows of the second join: the
    pairs of one candidate together, the candidates in the order in which
    they first occur, the pairs of one candidate in their own order. *)
Definition by_candidate {X} (P : list (X * nat)) : list (X * nat) :=
  flat_map (fun k => filter (fun xk => Z.eqb (Z.of_nat (snd xk)) k) P)
           (first_seen (map (fun xk => Z.of_nat (snd xk)) P)).

End Candidates.

(** ** Further example data *)

(** A projection library for the cell geometries: coordinates are the same
    in every CRS. *)
#[export] Instance cells_projections : Projections cells := {|
  from_epsg := fun n => if n =? 4326 then "epsg:4326" else "epsg:3857";
  transform := fun _ _ g => g
|}.

(** A frame without a CRS. *)
Definition ex_naive : frame cells :=
  {| index := Index [10; 11]%Z;
     cols := [("name", StrCol [Some "a"; Some "b"]);
              ("geometry", GeomCol [[1; 2]; [5]])];
     crs := None |}.

(** A second collection with an attribute column called [bbox]. *)
Definition ex_B_bbox : frame cells :=
  {| index := Index [0; 1]%Z;
     cols := [("geometry", GeomCol [[2; 3]; [9]]);
              ("bbox", StrCol [Some "x"; Some "y"])];
     crs := Some "epsg:4326" |}.

(** The cell geometries with parts: a geometry of two cells or more is a
    multi-part geometry, each cell a part. *)
Definition cells_parts : GeoOps cells := {|
  buffer := fun g _ => g;
  intersection := cells_intersection;
  difference := cells_difference;
  is_empty := cells_is_empty;
  bounds := fun _ => (0, 0, 0, 0)%Q;
  sindex_intersection := fun gs _ => seq 0 (List.length gs);
  parts := fun g => match g with
                    | _ :: _ :: _ => Some (map (fun c => [c]) g)
                    | _ => None
                    end
|}.

(** The cell geometries read as nested collections: the cell 0 in front
    marks a collection whose only member is the rest, and the geometry
    without cells is a collection without members. *)
Definition cells_nested : GeoOps cells := {|
  buffer := fun g _ => g;
  intersection := cells_intersection;
  difference := cells_difference;
  is_empty := cells_is_empty;
  bounds := fun _ => (0, 0, 0, 0)%Q;
  sindex_intersection := fun gs _ => seq 0 (List.length gs);
  parts := fun g => match g with
                    | [] => Some []
                    | 0 :: rest => Some [rest]
                    | _ => None
                    end
|}.

(** * Properties *)

(** ** Lists and columns *)

Lemma mask_map_filter : forall {A} (p : A -> bool) (l : list A),
  mask (map p l) l = filter p l.
Proof.
  induction l as [|x l IH]; simpl; [reflexivity|].
  rewrite IH. reflexivity.
Qed.

Lemma mem_In : forall s l, mem s l = true <-> In s l.
Proof.
  unfold mem. intros s l. rewrite existsb_exists. split.
  - intros (x & Hx & E). apply String.eqb_eq in E. subst. assumption.
  - intros Hin. exists s. split; [assumption | apply String.eqb_refl].
Qed.

Lemma mem_not_In : forall s l, mem s l = false <-> ~ In s l.
Proof.
  intros s l. rewrite <- mem_In. destruct (mem s l); split; congruence.
Qed.

Section FrameFacts.

Variable geom : Type.

Implicit Types (f : frame geom) (l : list (string * column geom)).

Lemma lookup_assign_same : forall c v l, lookup c (assign c v l) = Some v.
Proof.
  induction l as [|[n x] l IH]; simpl.
  - rewrite String.eqb_refl. reflexivity.
  - destruct (String.eqb n c) eqn:E; simpl; rewrite E; [reflexivity | exact IH].
Qed.

Lemma lookup_assign_other : forall c c' v l,
  c <> c' -> lookup c' (assign c v l) = lookup c' l.
Proof.
  intros c c' v l Hne. induction l as [|[n x] l IH]; simpl.
  - apply String.eqb_neq in Hne. rewrite Hne. reflexivity.
  - destruct (String.eqb n c) eqn:E; simpl.
    + apply String.eqb_eq in E. subst n.
      apply String.eqb_neq in Hne. rewrite Hne. reflexivity.
    + rewrite IH. reflexivity.
Qed.

Lemma lookup_map_snd : forall (F : column geom -> column geom) c l,
  lookup c (map (fun nc => (fst nc, F (snd nc))) l) = option_map F (lookup c l).
Proof.
  induction l as [|[n x] l IH]; simpl; [reflexivity|].
  destruct (String.eqb n c); [reflexivity | exact IH].
Qed.

Lemma lookup_filter_keep : forall c labels l,
  ~ In c labels ->
  lookup c (filter (fun nc => negb (mem (fst nc) labels)) l) = lookup c l.
Proof.
  intros c labels l Hc. induction l as [|[n x] l IH]; simpl; [reflexivity|].
  destruct (mem n labels) eqn:Em; simpl.
  - destruct (String.eqb n c) eqn:E; [|exact IH].
    apply String.eqb_eq in E. subst n. apply mem_In in Em. contradiction.
  - rewrite IH. reflexivity.
Qed.

Lemma lookup_In : forall c v l, lookup c l = Some v -> In (c, v) l.
Proof.
  induction l as [|[n x] l IH]; simpl; [discriminate|].
  destruct (String.eqb n c) eqn:E.
  - intros [= ->]. apply String.eqb_eq in E. subst. left. reflexivity.
  - intros Hl. right. apply IH. exact Hl.
Qed.

Lemma lookup_None : forall c l, lookup c l = None <-> ~ In c (map fst l).
Proof.
  induction l as [|[n x] l IH]; simpl.
  - split; [intros _ [] | reflexivity].
  - destruct (String.eqb n c) eqn:E.
    + apply String.eqb_eq in E. subst. split; [discriminate | intros Hn; elim Hn; left; reflexivity].
    + apply String.eqb_neq in E. rewrite IH. split.
      * intros Hn [Heq | Hin]; [exact (E Heq) | exact (Hn Hin)].
      * intros Hn Hin. apply Hn. right. exact Hin.
Qed.

Lemma get_geom_set_col_same : forall c g f,
  get_geom c (set_col c (GeomCol g) f) = Ok g.
Proof.
  intros. unfold get_geom, get_col, set_col. simpl.
  rewrite lookup_assign_same. reflexivity.
Qed.

Lemma get_col_set_col_other : forall c c' v f,
  c <> c' -> get_col c' (set_col c v f) = get_col c' f.
Proof.
  intros. unfold get_col, set_col. simpl.
  rewrite lookup_assign_other by assumption. reflexivity.
Qed.

Lemma get_geom_set_col_other : forall c c' v f,
  c <> c' -> get_geom c' (set_col c v f) = get_geom c' f.
Proof.
  intros. unfold get_geom. rewrite get_col_set_col_other by assumption. reflexivity.
Qed.

Lemma get_geom_mask_rows : forall c m f g,
  get_geom c f = Ok g -> get_geom c (mask_rows m f) = Ok (mask m g).
Proof.
  unfold get_geom, get_col, mask_rows. simpl. intros c m f g.
  rewrite lookup_map_snd.
  destruct (lookup c (cols f)) as [[]|]; simpl; try discriminate.
  intros [= ->]. reflexivity.
Qed.

Lemma get_geom_drop_cols : forall c labels f f',
  ~ In c labels -> drop_cols labels f = Ok f' -> get_geom c f' = get_geom c f.
Proof.
  unfold drop_cols. intros c labels f f' Hc.
  destruct (find _ labels); [discriminate|].
  intros [= <-]. unfold get_geom, get_col. simpl.
  rewrite lookup_filter_keep by assumption. reflexivity.
Qed.

End FrameFacts.

(** ** The heap *)

Section HeapFacts.

Variable geom : Type.

Implicit Types (h : heap geom) (f : frame geom).

Lemma bind_inv : forall {A B} (m : M geom A) (k : A -> M geom B) h b h',
  bind m k h = (Ok b, h') ->
  exists a h1, m h = (Ok a, h1) /\ k a h1 = (Ok b, h').
Proof.
  unfold bind. intros A B m k h b h' Hb.
  destruct (m h) as [[a|e] h1]; [|discriminate].
  exists a, h1. split; [reflexivity | exact Hb].
Qed.

Lemma lift_inv : forall {A} (r : result A) h a h',
  lift r h = (Ok a, h') -> r = Ok a /\ h' = h.
Proof. unfold lift. intros A r h a h' [= -> ->]. split; reflexivity. Qed.

Lemma ret_inv : forall {A} (x : A) h a h',
  ret x h = (Ok a, h') -> a = x /\ h' = h.
Proof. unfold ret. intros A x h a h' [= -> ->]. split; reflexivity. Qed.

Lemma deref_inv : forall r h f h',
  deref r h = (Ok f, h') -> nth_error h r = Some f /\ h' = h.
Proof.
  unfold deref. intros r h f h'. destruct (nth_error h r); [|discriminate].
  intros [= -> ->]. split; reflexivity.
Qed.

Lemma alloc_inv : forall f h r h',
  alloc f h = (Ok r, h') -> r = List.length h /\ h' = h ++ [f].
Proof. unfold alloc. intros f h r h' [= <- <-]. split; reflexivity. Qed.

Lemma store_inv : forall r f h u h',
  store r f h = (Ok u, h') -> h' = update r f h.
Proof. unfold store. intros r f h u h' [= _ <-]. reflexivity. Qed.

Lemma nth_error_update_same : forall r f h,
  r < List.length h -> nth_error (update r f h) r = Some f.
Proof.
  induction r as [|r IH]; intros f [|x h] Hlt; simpl in *; try lia.
  - reflexivity.
  - apply IH. lia.
Qed.

Lemma nth_error_snoc : forall h f, nth_error (h ++ [f]) (List.length h) = Some f.
Proof.
  intros. rewrite nth_error_app2 by lia. rewrite Nat.sub_diag. reflexivity.
Qed.

End HeapFacts.

Ltac inv_bind :=
  repeat match goal with
    | H : bind _ _ _ = (Ok _, _) |- _ =>
        let a := fresh "a" in
        let h := fresh "h" in
        let Hm := fresh "Hm" in
        apply bind_inv in H; destruct H as (a & h & Hm & H)
    end.

Ltac inv_step H :=
  match type of H with
  | lift _ _ = _ => apply lift_inv in H; destruct H as [H ?]
  | ret _ _ = _ => apply ret_inv in H; destruct H as [H ?]
  | deref _ _ = _ => apply deref_inv in H; destruct H as [H ?]
  | alloc _ _ = _ => apply alloc_inv in H; destruct H as [H ?]
  | store _ _ _ = _ => apply store_inv in H
  end.

Section OverlayFacts.

Context {geom : Type} `{GeoOps geom}.

Implicit Types (h : heap geom) (f : frame geom).

Lemma geometry_inv : forall df h g h',
  geometry df h = (Ok g, h') ->
  exists f, nth_error h df = Some f /\ get_geom "geometry" f = Ok g /\ h' = h.
Proof.
  unfold geometry. intros df h g h' Hr. inv_bind.
  inv_step Hm. inv_step Hr. subst. exists a. auto.
Qed.

Lemma loc_inv : forall df m h r h',
  loc df m h = (Ok r, h') ->
  exists f, nth_error h df = Some f /\ r = List.length h /\ h' = h ++ [mask_rows m f].
Proof.
  unfold loc. intros df m h r h' Hr. inv_bind.
  inv_step Hm. inv_step Hr. subst. exists a. auto.
Qed.

Lemma copy_inv : forall df h r h',
  copy df h = (Ok r, h') ->
  exists f, nth_error h df = Some f /\ r = List.length h /\ h' = h ++ [f].
Proof.
  unfold copy. intros df h r h' Hr. inv_bind.
  inv_step Hm. inv_step Hr. subst. exists a. auto.
Qed.

Lemma nonempty_mask : forall g : list geom,
  Forall (fun x => is_empty x = false)
         (mask (map (fun x => Bool.eqb (is_empty x) false) g) g).
Proof.
  intros g. rewrite mask_map_filter. apply Forall_forall.
  intros x Hx. apply filter_In in Hx. destruct Hx as [_ Hx].
  destruct (is_empty x); [discriminate | reflexivity].
Qed.

Lemma intersection_branch_nonempty : forall df1 df2 h out h',
  intersection_branch df1 df2 h = (Ok (PyFrame out), h') ->
  exists f g, nth_error h' out = Some f /\ get_geom "geometry" f = Ok g
              /\ Forall (fun x => is_empty x = false) g.
Proof.
  unfold intersection_branch. intros df1 df2 h out h' Hr. inv_bind.
  apply ret_inv in Hr. destruct Hr as [[= ->] ->].
  match goal with
  | Hl : loc _ _ ?hk = _, Hg : geometry _ _ = (_, ?hk) |- _ =>
      apply loc_inv in Hl; destruct Hl as (f & Hf & -> & ->);
      apply geometry_inv in Hg; destruct Hg as (f' & Hf' & Hg' & ->);
      rewrite Hf in Hf'; injection Hf' as <-;
      eexists; eexists; split; [apply nth_error_snoc|];
      split; [apply get_geom_mask_rows; exact Hg' | apply nonempty_mask]
  end.
Qed.

Lemma difference_branch_nonempty : forall df1 df2 h out h',
  difference_branch df1 df2 h = (Ok (PyFrame out), h') ->
  exists f g, nth_error h' out = Some f /\ get_geom "geometry" f = Ok g
              /\ Forall (fun x => is_empty x = false) g.
Proof.
  unfold difference_branch. intros df1 df2 h out h' Hr. inv_bind.
  apply ret_inv in Hr. destruct Hr as [[= ->] ->].
  match goal with
  | Hg : geometry _ _ = (_, ?hk), Hl : loc _ _ ?hk = (Ok ?sel, ?hl),
    Hc : copy ?sel ?hl = (Ok ?c, ?hc), Hd : deref ?c ?hc = (Ok ?fc, ?hd),
    Hdr : lift (drop_cols _ ?fc) ?hd = (_, ?hs), Hs : store ?c _ ?hs = _ |- _ =>
      apply geometry_inv in Hg; destruct Hg as (f & Hf & Hg' & ->);
      apply loc_inv in Hl; destruct Hl as (f' & Hf' & -> & ->);
      rewrite Hf in Hf'; injection Hf' as <-;
      apply copy_inv in Hc; destruct Hc as (fs & Hfs & -> & ->);
      rewrite nth_error_snoc in Hfs; injection Hfs as <-;
      apply deref_inv in Hd; destruct Hd as [Hd ->];
      rewrite nth_error_snoc in Hd; injection Hd as <-;
      apply lift_inv in Hdr; destruct Hdr as [Hdr ->];
      apply store_inv in Hs; subst
  end.
  eexists; eexists. split.
  - apply nth_error_update_same. rewrite !length_app. simpl. lia.
  - split.
    + erewrite get_geom_drop_cols; [apply get_geom_mask_rows; eassumption | | eassumption].
      simpl. intros [E|[E|[E|[]]]]; discriminate.
    + apply nonempty_mask.
Qed.

End OverlayFacts.

Section NoEmptyGeometry.

Context {geom : Type} `{GeoOps geom}.

(** C3. In both recognised modes, whenever [spatial_overlays] returns a
    frame, that frame has a geometry column and none of its geometries is
    empty. *)
Theorem spatial_overlays_no_empty_geometry :
  forall (h : heap geom) (df1 df2 : ref) (how : string) (out : ref) (h' : heap geom),
    how = "intersection" \/ how = "difference" ->
    spatial_overlays df1 df2 how h = (Ok (PyFrame out), h') ->
    exists f g,
      nth_error h' out = Some f /\
      get_geom "geometry" f = Ok g /\
      Forall (fun x => is_empty x = false) g.
Proof.
  intros h df1 df2 how out h' Hhow Hr. unfold spatial_overlays in Hr.
  inv_bind. destruct Hhow as [-> | ->]; simpl in Hr.
  - eapply intersection_branch_nonempty; eassumption.
  - eapply difference_branch_nonempty; eassumption.
Qed.

End NoEmptyGeometry.

Section HeapRun.

Variable geom : Type.

Implicit Types (h l : heap geom) (f : frame geom).

Lemma deref_old : forall h l r f,
  nth_error h r = Some f -> deref r (h ++ l) = (Ok f, h ++ l).
Proof.
  intros h l r f Hr. unfold deref.
  rewrite nth_error_app1 by (apply nth_error_Some; congruence).
  rewrite Hr. reflexivity.
Qed.

Lemma deref_new : forall h l k f,
  nth_error l k = Some f -> deref (List.length h + k) (h ++ l) = (Ok f, h ++ l).
Proof.
  intros h l k f Hk. unfold deref.
  rewrite nth_error_app2 by lia.
  replace (List.length h + k - List.length h) with k by lia.
  rewrite Hk. reflexivity.
Qed.

Lemma alloc_new : forall h l f,
  alloc f (h ++ l) = (Ok (List.length h + List.length l), h ++ (l ++ [f])).
Proof.
  intros. unfold alloc. rewrite length_app, app_assoc. reflexivity.
Qed.

Lemma update_app_new : forall h l k f,
  update (List.length h + k) f (h ++ l) = h ++ update k f l.
Proof.
  induction h as [|x h IH]; intros; simpl; [reflexivity|].
  rewrite IH. reflexivity.
Qed.

Lemma store_new : forall h l k f,
  store (List.length h + k) f (h ++ l) = (Ok tt, h ++ update k f l).
Proof. intros. unfold store. rewrite update_app_new. reflexivity. Qed.

Lemma copy_old : forall h l r f,
  nth_error h r = Some f ->
  copy r (h ++ l) = (Ok (List.length h + List.length l), h ++ (l ++ [f])).
Proof.
  intros. unfold copy, bind. erewrite deref_old by eassumption. apply alloc_new.
Qed.

Lemma copy_new : forall h l k f,
  nth_error l k = Some f ->
  copy (List.length h + k) (h ++ l)
  = (Ok (List.length h + List.length l), h ++ (l ++ [f])).
Proof.
  intros. unfold copy, bind. erewrite deref_new by eassumption. apply alloc_new.
Qed.

Lemma geometry_new : forall h l k f,
  nth_error l k = Some f ->
  geometry (List.length h + k) (h ++ l) = (get_geom "geometry" f, h ++ l).
Proof.
  intros. unfold geometry, bind. erewrite deref_new by eassumption. reflexivity.
Qed.

Lemma setitem_new : forall h l k f c v,
  nth_error l k = Some f ->
  setitem (List.length h + k) c v (h ++ l) = (Ok tt, h ++ update k (set_col c v f) l).
Proof.
  intros. unfold setitem, bind. erewrite deref_new by eassumption. apply store_new.
Qed.

Lemma GeoDataFrame_new : forall h l k f c,
  nth_error l k = Some f ->
  GeoDataFrame (List.length h + k) c (h ++ l)
  = (Ok (List.length h + List.length l),
     h ++ (l ++ [{| index := index f; cols := cols f; crs := c |}])).
Proof.
  intros. unfold GeoDataFrame, bind. erewrite deref_new by eassumption. apply alloc_new.
Qed.

Lemma loc_new : forall h l k f m,
  nth_error l k = Some f ->
  loc (List.length h + k) m (h ++ l)
  = (Ok (List.length h + List.length l), h ++ (l ++ [mask_rows m f])).
Proof.
  intros. unfold loc, bind. erewrite deref_new by eassumption. apply alloc_new.
Qed.

Lemma merge_frames_new : forall h l k1 k2 fl fr key sfx m,
  nth_error l k1 = Some fl ->
  nth_error l k2 = Some fr ->
  merge fl fr key sfx = Ok m ->
  merge_frames (List.length h + k1) (List.length h + k2) key sfx (h ++ l)
  = (Ok (List.length h + List.length l), h ++ (l ++ [m])).
Proof.
  intros h l k1 k2 fl fr key sfx m H1 H2 Hm. unfold merge_frames, bind.
  erewrite deref_new by eassumption. erewrite deref_new by eassumption.
  unfold lift. rewrite Hm. apply alloc_new.
Qed.

Lemma get_col_set_col_same : forall c v f, get_col c (set_col c v f) = Ok v.
Proof.
  intros. unfold get_col, set_col. simpl. rewrite lookup_assign_same. reflexivity.
Qed.

Lemma get_box_set_col_same : forall c b f, get_box c (set_col c (BoxCol b) f) = Ok b.
Proof. intros. unfold get_box. rewrite get_col_set_col_same. reflexivity. Qed.

Lemma get_list_set_col_same : forall c b f, get_list c (set_col c (ListCol b) f) = Ok b.
Proof. intros. unfold get_list. rewrite get_col_set_col_same. reflexivity. Qed.

Lemma get_list_set_col_other : forall c c' v f,
  c <> c' -> get_list c' (set_col c v f) = get_list c' f.
Proof.
  intros. unfold get_list. rewrite get_col_set_col_other by assumption. reflexivity.
Qed.

Lemma names_set_col : forall c v f,
  names (set_col c v f) = if mem c (names f) then names f else names f ++ [c].
Proof.
  intros c v f. unfold names, set_col. simpl.
  induction (cols f) as [|[n x] l IH]; simpl; [reflexivity|].
  rewrite (String.eqb_sym c n).
  destruct (String.eqb n c) eqn:E; simpl; [reflexivity|].
  rewrite IH. destruct (mem c (map fst l)); reflexivity.
Qed.

Lemma In_names_set_col : forall c c' v f,
  In c' (names (set_col c v f)) <-> c' = c \/ In c' (names f).
Proof.
  intros c c' v f. rewrite names_set_col.
  destruct (mem c (names f)) eqn:E.
  - apply mem_In in E. split; [auto | intros [-> | ?]; assumption].
  - rewrite in_app_iff. simpl. split.
    + intros [? | [<- | []]]; auto.
    + intros [-> | ?]; auto.
Qed.

Lemma names_mask_rows : forall m f, names (mask_rows m f) = names f.
Proof.
  intros. unfold names, mask_rows. simpl. rewrite map_map. reflexivity.
Qed.

Lemma drop_cols_ok : forall labels f,
  (forall c, In c labels -> In c (names f)) ->
  drop_cols labels f
  = Ok {| index := index f;
          cols := filter (fun nc => negb (mem (fst nc) labels)) (cols f);
          crs := crs f |}.
Proof.
  intros labels f Hall. unfold drop_cols.
  destruct (find _ labels) as [c|] eqn:E; [|reflexivity].
  apply find_some in E. destruct E as [Hin Hc].
  apply Hall, mem_In in Hin. rewrite Hin in Hc. discriminate.
Qed.

End HeapRun.

Ltac run_cbn :=
  cbv beta iota delta [bind ret lift]; cbn [app update List.length nth_error].

Ltac run_step :=
  first
    [ erewrite setitem_new by reflexivity
    | erewrite geometry_new by reflexivity
    | erewrite deref_new by reflexivity
    | erewrite loc_new by reflexivity
    | erewrite copy_new by reflexivity
    | erewrite GeoDataFrame_new by reflexivity
    | rewrite alloc_new
    | rewrite store_new ];
  run_cbn.

Section OverlayRun.

Context {geom : Type} `{GeoOps geom}.

Implicit Types (h : heap geom) (f a b : frame geom).

Lemma get_geom_repaired : forall f g,
  get_geom "geometry" (repaired f g) = Ok (map (fun x => buffer x 0) g).
Proof. intros. apply get_geom_set_col_same. Qed.

Lemma add_candidates_run : forall h a b ga gb,
  get_geom "geometry" a = Ok ga ->
  get_geom "geometry" b = Ok gb ->
  add_candidates (List.length h + 0) (List.length h + 1) (h ++ [a; b])
  = (Ok tt, h ++ [with_candidates a ga gb; b]).
Proof.
  intros h a b ga gb Ha Hb. unfold add_candidates. run_cbn.
  run_step. rewrite Hb. run_cbn.
  run_step. rewrite Ha. run_cbn.
  run_step. run_step. rewrite get_box_set_col_same. run_cbn.
  run_step. reflexivity.
Qed.

Lemma prologue_run : forall h r1 r2 f1 f2 g1 g2 (k : ref -> ref -> M geom pyval),
  nth_error h r1 = Some f1 ->
  nth_error h r2 = Some f2 ->
  get_geom "geometry" f1 = Ok g1 ->
  get_geom "geometry" f2 = Ok g2 ->
  bind (copy r1) (fun df1 => bind (copy r2) (fun df2 =>
    bind (repair df1) (fun _ => bind (repair df2) (fun _ => k df1 df2)))) h
  = k (List.length h + 0) (List.length h + 1) (h ++ [repaired f1 g1; repaired f2 g2]).
Proof.
  intros h r1 r2 f1 f2 g1 g2 k H1 H2 Hg1 Hg2.
  rewrite <- (app_nil_r h) at 1. run_cbn.
  erewrite copy_old by eassumption. run_cbn.
  erewrite copy_old by eassumption. run_cbn.
  unfold repair. run_cbn.
  run_step. rewrite Hg1. run_cbn. run_step.
  run_step. rewrite Hg2. run_cbn. run_step.
  reflexivity.
Qed.

End OverlayRun.

(** ** Frame property: objects that exist before a call are left alone *)

Section Keeps.

Variable geom : Type.

Implicit Types (h l : heap geom) (f : frame geom).

Lemma keeps_ret : forall {A} h0 (a : A) (inv : A -> Prop),
  inv a -> keeps h0 (ret a) inv.
Proof.
  intros A h0 a inv Ha l. simpl. split; [exists l; reflexivity|].
  intros a' [= <-]. exact Ha.
Qed.

Lemma keeps_lift : forall {A} h0 (r : result A), keeps h0 (lift r) (fun _ => True).
Proof. intros A h0 r l. simpl. split; [exists l; reflexivity | trivial]. Qed.

Lemma keeps_deref : forall (h0 : heap geom) r, keeps h0 (deref r) (fun _ => True).
Proof.
  intros h0 r l. unfold deref. split; [|trivial].
  exists l. destruct (nth_error (h0 ++ l) r); reflexivity.
Qed.

Lemma keeps_alloc : forall (h0 : heap geom) f, keeps h0 (alloc f) (fresh h0).
Proof.
  intros h0 f l. unfold alloc. simpl. split.
  - exists (l ++ [f]). rewrite app_assoc. reflexivity.
  - intros a [= <-]. unfold fresh. rewrite length_app. lia.
Qed.

Lemma keeps_store : forall (h0 : heap geom) r f, fresh h0 r -> keeps h0 (store r f) (fun _ => True).
Proof.
  intros h0 r f Hr l. unfold store. simpl. split; [|trivial].
  exists (update (r - List.length h0) f l).
  unfold fresh in Hr.
  replace r with (List.length h0 + (r - List.length h0)) at 1 by lia.
  apply update_app_new.
Qed.

Lemma keeps_bind : forall {A B} h0 (m : M geom A) (k : A -> M geom B) inv1 inv2,
  keeps h0 m inv1 ->
  (forall a, inv1 a -> keeps h0 (k a) inv2) ->
  keeps h0 (bind m k) inv2.
Proof.
  intros A B h0 m k inv1 inv2 Hm Hk l. unfold bind.
  destruct (Hm l) as [[l1 Hl1] Hv].
  destruct (m (h0 ++ l)) as [[a|e] h1]; simpl in *.
  - subst h1. apply (Hk a (Hv a eq_refl) l1).
  - split; [exists l1; exact Hl1 | discriminate].
Qed.

Lemma keeps_unchanged : forall {A} h0 (m : M geom A) inv k f,
  keeps h0 m inv ->
  nth_error h0 k = Some f ->
  nth_error (snd (m h0)) k = Some f.
Proof.
  intros A h0 m inv k f Hm Hk.
  destruct (Hm []) as [[l' Hl] _]. rewrite app_nil_r in Hl. rewrite Hl.
  rewrite nth_error_app1 by (apply nth_error_Some; congruence). exact Hk.
Qed.

Lemma keeps_copy : forall h0 r, keeps h0 (copy r) (fresh h0).
Proof.
  intros. unfold copy. eapply keeps_bind; [apply keeps_deref|].
  intros; apply keeps_alloc.
Qed.

Lemma keeps_geometry : forall h0 r, keeps h0 (geometry r) (fun _ => True).
Proof.
  intros. unfold geometry. eapply keeps_bind; [apply keeps_deref|].
  intros; apply keeps_lift.
Qed.

Lemma keeps_setitem : forall h0 r c v,
  fresh h0 r -> keeps h0 (setitem r c v) (fun _ => True).
Proof.
  intros. unfold setitem. eapply keeps_bind; [apply keeps_deref|].
  intros; apply keeps_store; assumption.
Qed.

Lemma keeps_GeoDataFrame : forall h0 r c, keeps h0 (GeoDataFrame r c) (fresh h0).
Proof.
  intros. unfold GeoDataFrame. eapply keeps_bind; [apply keeps_deref|].
  intros; apply keeps_alloc.
Qed.

Lemma keeps_loc : forall h0 r m, keeps h0 (loc r m) (fresh h0).
Proof.
  intros. unfold loc. eapply keeps_bind; [apply keeps_deref|].
  intros; apply keeps_alloc.
Qed.

Lemma keeps_merge_frames : forall h0 r1 r2 key sfx,
  keeps h0 (merge_frames r1 r2 key sfx) (fresh h0).
Proof.
  intros. unfold merge_frames.
  eapply keeps_bind; [apply keeps_deref|]. intros.
  eapply keeps_bind; [apply keeps_deref|]. intros.
  eapply keeps_bind; [apply keeps_lift|]. intros.
  apply keeps_alloc.
Qed.

End Keeps.

Ltac keeps_step :=
  first
    [ apply keeps_lift
    | apply keeps_deref
    | apply keeps_alloc
    | apply keeps_copy
    | apply keeps_geometry
    | apply keeps_GeoDataFrame
    | apply keeps_loc
    | apply keeps_merge_frames
    | apply keeps_setitem; assumption
    | apply keeps_store; assumption
    | apply keeps_ret; exact I
    | eapply keeps_bind; [ | intros ? ? ] ].

Section OverlayKeeps.

Context {geom : Type} `{GeoOps geom}.


Lemma keeps_repair : forall (h0 : heap geom) df,
  fresh h0 df -> keeps h0 (repair df) (fun _ => True).
Proof. intros. unfold repair. repeat keeps_step. Qed.

Lemma keeps_add_candidates : forall (h0 : heap geom) df1 df2,
  fresh h0 df1 -> keeps h0 (add_candidates df1 df2) (fun _ => True).
Proof. intros. unfold add_candidates. cbv zeta. repeat keeps_step. Qed.

Lemma keeps_intersection_branch : forall (h0 : heap geom) df1 df2,
  fresh h0 df1 -> keeps h0 (intersection_branch df1 df2) (fun _ => True).
Proof.
  intros. unfold intersection_branch. cbv zeta.
  eapply keeps_bind; [apply keeps_add_candidates; assumption | intros ? ?].
  repeat keeps_step.
Qed.

Lemma keeps_difference_branch : forall (h0 : heap geom) df1 df2,
  fresh h0 df1 -> keeps h0 (difference_branch df1 df2) (fun _ => True).
Proof.
  intros. unfold difference_branch.
  eapply keeps_bind; [apply keeps_add_candidates; assumption | intros ? ?].
  repeat keeps_step.
Qed.

Lemma keeps_spatial_overlays : forall (h0 : heap geom) df1 df2 how,
  keeps h0 (spatial_overlays df1 df2 how) (fun _ => True).
Proof.
  intros. unfold spatial_overlays.
  eapply keeps_bind; [apply keeps_copy | intros d1 Hd1].
  eapply keeps_bind; [apply keeps_copy | intros d2 Hd2].
  eapply keeps_bind; [apply keeps_repair; assumption | intros ? ?].
  eapply keeps_bind; [apply keeps_repair; assumption | intros ? ?].
  destruct (String.eqb how "intersection").
  - apply keeps_intersection_branch; assumption.
  - destruct (String.eqb how "difference").
    + apply keeps_difference_branch; assumption.
    + apply keeps_ret. exact I.
Qed.

End OverlayKeeps.

Section DifferenceRun.

Context {geom : Type} `{GeoOps geom}.

Implicit Types (h : heap geom) (f a b : frame geom).

Lemma reduce_from_fold_left : forall {A} (f : A -> A -> A) l acc,
  reduce_from f acc l = fold_left f l acc.
Proof. induction l as [|y l IH]; intros; simpl; [reflexivity | apply IH]. Qed.

Lemma combine_map_self : forall {A B} (F : A -> B) (l : list A),
  combine l (map F l) = map (fun x => (x, F x)) l.
Proof. induction l as [|x l IH]; simpl; [reflexivity | rewrite IH; reflexivity]. Qed.

Lemma get_geom_take_rows : forall c ps f g,
  get_geom c f = Ok g -> get_geom c (take_rows ps f) = Ok (take ps g).
Proof.
  unfold get_geom, get_col, take_rows. simpl. intros c ps f g.
  rewrite lookup_map_snd.
  destruct (lookup c (cols f)) as [[]|]; simpl; try discriminate.
  intros [= ->]. reflexivity.
Qed.

(** What line 73 passes to [reduce] is the row's geometry followed by the
    candidate geometries, and [functools.reduce] would fold [erase] over
    them from the left. *)
Lemma difference_fold_is_left_fold : forall b gb g ps,
  get_geom "geometry" b = Ok gb ->
  (forall p, In p ps -> p < nrows b) ->
  difference_fold b (g, ps) = Ok (fold_left erase (take ps gb) g).
Proof.
  intros b gb g ps Hb Hps. unfold difference_fold, iloc. simpl.
  replace (forallb (fun p => p <? nrows b) ps) with true.
  - simpl. erewrite get_geom_take_rows by eassumption. simpl.
    rewrite reduce_from_fold_left. reflexivity.
  - symmetry. apply forallb_forall. intros p Hp. apply Nat.ltb_lt. auto.
Qed.

(** The module does not bind [reduce]: the row function raises before it
    looks at the row. *)
Lemma difference_row_raises : forall b (x : geom * list nat),
  difference_row b x = Raise (NameError "reduce").
Proof. reflexivity. Qed.

Lemma nrows_with_candidates : forall a ga gb, nrows (with_candidates a ga gb) = nrows a.
Proof. reflexivity. Qed.

Lemma difference_branch_raises : forall h a b ga gb,
  get_geom "geometry" a = Ok ga ->
  get_geom "geometry" b = Ok gb ->
  List.length ga = nrows a ->
  difference_branch (List.length h + 0) (List.length h + 1) (h ++ [a; b])
  = (Raise match ga with
           | [] => ValueError
           | _ :: _ => NameError "reduce"
           end,
     h ++ [with_candidates a ga gb; b]).
Proof.
  intros h a b ga gb Ha Hb Hlen. unfold difference_branch. run_cbn.
  erewrite add_candidates_run by eassumption. run_cbn.
  run_step. unfold with_candidates at 1.
  rewrite !get_geom_set_col_other by discriminate. rewrite Ha. run_cbn.
  unfold with_candidates at 1. rewrite get_list_set_col_same. run_cbn.
  run_step. unfold apply_has_rows. rewrite nrows_with_candidates, <- Hlen.
  destruct ga as [|x ga']; reflexivity.
Qed.

End DifferenceRun.

Section ModesAndCopies.

Context {geom : Type} `{GeoOps geom}.

(** C1.  The difference mode computes no geometry.  Line 73 calls [reduce],
    a name that the module does not bind: for every first collection with
    a record the call raises [NameError] at its first record, after the
    candidates were attached to the private copy; for a first collection
    without records line 73 raises [ValueError]; no frame is returned, and
    the frames of the caller are as they were.  (The arguments that line 73
    builds for [reduce] are those of a fold from the left of
    [x.difference(y).buffer(0)] over the candidate geometries, started at
    the repaired geometry of the record: [difference_fold_is_left_fold].) *)
Theorem difference_mode_raises_name_error :
  forall (h : heap geom) (df1 df2 : ref) (f1 f2 : frame geom) (g1 g2 : list geom),
    nth_error h df1 = Some f1 ->
    nth_error h df2 = Some f2 ->
    get_geom "geometry" f1 = Ok g1 ->
    get_geom "geometry" f2 = Ok g2 ->
    List.length g1 = nrows f1 ->
    exists h',
      spatial_overlays df1 df2 "difference" h
      = (Raise match g1 with
               | [] => ValueError
               | _ :: _ => NameError "reduce"
               end, h') /\
      (forall r f, nth_error h r = Some f -> nth_error h' r = Some f).
Proof.
  intros h df1 df2 f1 f2 g1 g2 H1 H2 Hg1 Hg2 Hlen.
  eexists. split.
  - unfold spatial_overlays. erewrite prologue_run by eassumption.
    change (String.eqb "difference" "intersection") with false.
    change (String.eqb "difference" "difference") with true. cbv iota.
    erewrite difference_branch_raises;
      [ | apply get_geom_repaired | apply get_geom_repaired
        | rewrite length_map; exact Hlen ].
    destruct g1; reflexivity.
  - intros r f Hr. rewrite nth_error_app1 by (apply nth_error_Some; congruence).
    exact Hr.
Qed.

(** C2. With a mode that is neither ['intersection'] nor ['difference'] the
    call raises nothing and returns [None]; it leaves the two repaired
    copies behind and no result frame. *)
Theorem unsupported_mode_returns_none :
  forall (h : heap geom) (df1 df2 : ref) (f1 f2 : frame geom) (g1 g2 : list geom)
         (how : string),
    nth_error h df1 = Some f1 ->
    nth_error h df2 = Some f2 ->
    get_geom "geometry" f1 = Ok g1 ->
    get_geom "geometry" f2 = Ok g2 ->
    how <> "intersection" ->
    how <> "difference" ->
    spatial_overlays df1 df2 how h
    = (Ok PyNone, h ++ [repaired f1 g1; repaired f2 g2]).
Proof.
  intros h df1 df2 f1 f2 g1 g2 how H1 H2 Hg1 Hg2 Hi Hd.
  unfold spatial_overlays. erewrite prologue_run by eassumption.
  apply String.eqb_neq in Hi, Hd. rewrite Hi, Hd. reflexivity.
Qed.

(** C5. Whatever the mode, the call first makes private copies of both
    inputs and repairs their geometries with a zero-distance buffer; the
    mode is dispatched on these copies; and every frame that existed before
    the call, the two inputs among them, is the same after it. *)
Theorem spatial_overlays_repairs_copies :
  forall (h : heap geom) (df1 df2 : ref) (f1 f2 : frame geom) (g1 g2 : list geom)
         (how : string),
    nth_error h df1 = Some f1 ->
    nth_error h df2 = Some f2 ->
    get_geom "geometry" f1 = Ok g1 ->
    get_geom "geometry" f2 = Ok g2 ->
    spatial_overlays df1 df2 how h
    = (if String.eqb how "intersection"
       then intersection_branch (List.length h + 0) (List.length h + 1)
       else if String.eqb how "difference"
            then difference_branch (List.length h + 0) (List.length h + 1)
            else ret PyNone)
        (h ++ [repaired f1 g1; repaired f2 g2])
    /\ (forall r f, nth_error h r = Some f ->
                    nth_error (snd (spatial_overlays df1 df2 how h)) r = Some f)
    /\ nth_error (snd (spatial_overlays df1 df2 how h)) df1 = Some f1
    /\ nth_error (snd (spatial_overlays df1 df2 how h)) df2 = Some f2.
Proof.
  intros h df1 df2 f1 f2 g1 g2 how H1 H2 Hg1 Hg2.
  assert (Hkeep : forall r f, nth_error h r = Some f ->
                    nth_error (snd (spatial_overlays df1 df2 how h)) r = Some f).
  { intros r f Hr. eapply keeps_unchanged; [apply keeps_spatial_overlays | exact Hr]. }
  split; [|split; [exact Hkeep | split; apply Hkeep; assumption]].
  unfold spatial_overlays. erewrite prologue_run by eassumption.
  destruct (String.eqb how "intersection"); [reflexivity|].
  destruct (String.eqb how "difference"); reflexivity.
Qed.

End ModesAndCopies.

(** ** Strings, suffixes and column names *)

Lemma string_length_append : forall s t,
  String.length (s ++ t)%string = String.length s + String.length t.
Proof. induction s as [|c s IH]; intros; simpl; [reflexivity | rewrite IH; reflexivity]. Qed.

Lemma string_append_inj : forall s s' t, (s ++ t = s' ++ t)%string -> s = s'.
Proof.
  induction s as [|c s IH]; intros [|c' s'] t E; simpl in E.
  - reflexivity.
  - apply (f_equal String.length) in E. simpl in E.
    rewrite string_length_append in E. lia.
  - apply (f_equal String.length) in E. simpl in E.
    rewrite string_length_append in E. lia.
  - injection E as -> E. f_equal. eapply IH. exact E.
Qed.

Lemma ends_with_append : forall sfx s, ends_with sfx (s ++ sfx) = true.
Proof.
  induction s as [|c s IH]; cbn [ends_with append].
  - destruct sfx; cbn [ends_with]; rewrite String.eqb_refl; reflexivity.
  - destruct (String.eqb (String c (s ++ sfx)) sfx); [reflexivity | exact IH].
Qed.

Lemma not_ends_with : forall sfx s t,
  ends_with sfx t = false -> (s ++ sfx)%string <> t.
Proof.
  intros sfx s t Hf E. subst t. rewrite ends_with_append in Hf. discriminate.
Qed.

Lemma suffixed_in : forall other sfx n,
  In n other -> suffixed other sfx n = (n ++ sfx)%string.
Proof.
  intros other sfx n Hin. unfold suffixed.
  apply mem_In in Hin. rewrite Hin. reflexivity.
Qed.

Lemma suffixed_notin : forall other sfx n,
  ~ In n other -> suffixed other sfx n = n.
Proof.
  intros other sfx n Hin. unfold suffixed.
  apply mem_not_In in Hin. rewrite Hin. reflexivity.
Qed.

(** A suffixed name equals [t] only if it is [t] itself, left alone, or [t]
    is the name with the suffix. *)
Lemma suffixed_eq : forall other sfx n t,
  suffixed other sfx n = t ->
  (~ In n other /\ n = t) \/ (In n other /\ (n ++ sfx)%string = t).
Proof.
  intros other sfx n t E. unfold suffixed in E.
  destruct (mem n other) eqn:Em.
  - right. apply mem_In in Em. auto.
  - left. apply mem_not_In in Em. auto.
Qed.

Lemma list_remove_ok : forall s l, In s l -> list_remove s l = Ok (remove_first s l).
Proof.
  induction l as [|x l IH]; simpl; [intros []|].
  intros Hin. destruct (String.eqb x s) eqn:E; [reflexivity|].
  apply String.eqb_neq in E. destruct Hin as [Hx | Hin]; [contradiction|].
  rewrite IH by assumption. reflexivity.
Qed.

Lemma remove_first_app : forall s l r,
  In s l -> remove_first s (l ++ r) = remove_first s l ++ r.
Proof.
  induction l as [|x l IH]; simpl; [intros r []|].
  intros r Hin. destruct (String.eqb x s) eqn:E; [reflexivity|].
  apply String.eqb_neq in E. destruct Hin as [Hx | Hin]; [contradiction|].
  rewrite IH by assumption. reflexivity.
Qed.

Lemma remove_first_last : forall s l, ~ In s l -> remove_first s (l ++ [s]) = l.
Proof.
  induction l as [|x l IH]; simpl; intros Hn.
  - rewrite String.eqb_refl. reflexivity.
  - destruct (String.eqb x s) eqn:E.
    + apply String.eqb_eq in E. elim Hn. left. exact E.
    + rewrite IH; [reflexivity|]. intros Hin. apply Hn. right. exact Hin.
Qed.

Lemma In_remove_first : forall s x l, x <> s -> In x l -> In x (remove_first s l).
Proof.
  induction l as [|y l IH]; simpl; [intros _ []|].
  intros Hne Hin. destruct (String.eqb y s) eqn:E.
  - apply String.eqb_eq in E. subst y. destruct Hin as [Hx | Hin]; [congruence | exact Hin].
  - destruct Hin as [Hx | Hin]; [left; exact Hx | right; apply IH; assumption].
Qed.

Lemma remove_first_incl : forall s x l, In x (remove_first s l) -> In x l.
Proof.
  induction l as [|y l IH]; simpl; [intros []|].
  destruct (String.eqb y s); [intros Hin; right; exact Hin|].
  intros [Hx | Hin]; [left; exact Hx | right; apply IH; exact Hin].
Qed.

Section LookupFacts.

Variable geom : Type.

Implicit Types (f : frame geom) (l : list (string * column geom)).

Lemma lookup_app : forall c l1 l2,
  lookup c (l1 ++ l2)
  = match lookup c l1 with Some x => Some x | None => lookup c l2 end.
Proof.
  induction l1 as [|[n x] l1 IH]; intros; simpl; [reflexivity|].
  destruct (String.eqb n c); [reflexivity | apply IH].
Qed.

Lemma lookup_map_rename : forall (ren : string -> string) (F : column geom -> column geom) c l,
  (forall n, In n (map fst l) -> ren n = ren c -> n = c) ->
  lookup (ren c) (map (fun nc => (ren (fst nc), F (snd nc))) l)
  = option_map F (lookup c l).
Proof.
  intros ren F c. induction l as [|[n x] l IH]; intros Hinj; simpl; [reflexivity|].
  destruct (String.eqb n c) eqn:E.
  - apply String.eqb_eq in E. subst n. rewrite String.eqb_refl. reflexivity.
  - destruct (String.eqb (ren n) (ren c)) eqn:E'.
    + apply String.eqb_eq in E'. apply Hinj in E'; [|left; reflexivity].
      apply String.eqb_neq in E. contradiction.
    + apply IH. intros n' Hn'. apply Hinj. right. exact Hn'.
Qed.

Lemma lookup_map_rename_none : forall (ren : string -> string) (F : column geom -> column geom) c l,
  (forall n, In n (map fst l) -> ren n <> c) ->
  lookup c (map (fun nc => (ren (fst nc), F (snd nc))) l) = None.
Proof.
  intros ren F c l Hne. apply lookup_None. rewrite map_map. simpl.
  intros Hin. apply in_map_iff in Hin. destruct Hin as ([n x] & E & Hin).
  simpl in E. apply (Hne n); [|exact E].
  apply in_map_iff. exists (n, x). auto.
Qed.

Lemma In_assign_other : forall c v n x l,
  n <> c -> In (n, x) l -> In (n, x) (assign c v l).
Proof.
  intros c v n x. induction l as [|[n' x'] l IH]; simpl; [intros _ []|].
  intros Hne Hin. destruct (String.eqb n' c) eqn:E.
  - apply String.eqb_eq in E. subst n'.
    destruct Hin as [[= <- <-] | Hin]; [congruence | right; exact Hin].
  - destruct Hin as [Hx | Hin]; [left; exact Hx | right; apply IH; assumption].
Qed.

Lemma assign_notin : forall c v l,
  ~ In c (map fst l) -> assign c v l = l ++ [(c, v)].
Proof.
  intros c v. induction l as [|[n x] l IH]; simpl; intros Hn; [reflexivity|].
  destruct (String.eqb n c) eqn:E.
  - apply String.eqb_eq in E. elim Hn. left. exact E.
  - rewrite IH; [reflexivity|]. intros Hin. apply Hn. right. exact Hin.
Qed.

Lemma merge_ok : forall (left right : frame geom) key sfx keys labels,
  get_int key left = Ok keys ->
  index right = Index labels ->
  merge left right key sfx = Ok (merged left right keys labels sfx).
Proof.
  intros left right key sfx keys labels Hk Hi. unfold merge, index_labels.
  rewrite Hk, Hi. reflexivity.
Qed.

Lemma names_merged : forall (left right : frame geom) keys labels sfx,
  names (merged left right keys labels sfx)
  = map (suffixed (names right) (fst sfx)) (names left)
    ++ map (suffixed (names left) (snd sfx)) (names right).
Proof.
  intros. unfold names, merged. cbn [cols]. rewrite map_app, !map_map. reflexivity.
Qed.

Lemma get_geom_In_names : forall c f g, get_geom c f = Ok g -> In c (names f).
Proof.
  unfold get_geom, get_col, names. intros c f g Hg.
  destruct (lookup c (cols f)) eqn:E; [|discriminate].
  apply lookup_In in E. apply in_map_iff. exists (c, c0). auto.
Qed.

Lemma get_geom_lookup : forall c f g,
  get_geom c f = Ok g -> lookup c (cols f) = Some (GeomCol g).
Proof.
  unfold get_geom, get_col. intros c f g.
  destruct (lookup c (cols f)) as [[]|]; try discriminate.
  intros [= ->]. reflexivity.
Qed.

Lemma lookup_get_geom : forall c f g,
  lookup c (cols f) = Some (GeomCol g) -> get_geom c f = Ok g.
Proof. unfold get_geom, get_col. intros c f g ->. reflexivity. Qed.

End LookupFacts.

(** ** Intersection mode, step by step *)

Section IntersectionRun.

Context {geom : Type} `{GeoOps geom}.

Variables (a b : frame geom) (ga gb : list geom) (la lb : list Z).

Hypothesis Ha : get_geom "geometry" a = Ok ga.
Hypothesis Hb : get_geom "geometry" b = Ok gb.
Hypothesis Hia : index a = Index la.
Hypothesis Hib : index b = Index lb.
Hypothesis Hra : forall c, In c reserved -> ~ In c (names a).
Hypothesis Hrb : forall c, In c reserved -> ~ In c (names b).

Local Abbreviation a1 := (with_candidates a ga gb).
Local Abbreviation p0 := (pairs0 a ga gb la).
Local Abbreviation m1 := (joined_1 a ga gb la).
Local Abbreviation m2 := (joined_2 a b ga gb la lb).
Local Abbreviation m3 := (joined a b ga gb la lb).
Local Abbreviation m4 := (rewrapped a b ga gb la lb).

Ltac reserved_name := unfold reserved; simpl; tauto.

Lemma names_a1 : names a1 = names a ++ ["bbox"; "histreg"].
Proof.
  unfold with_candidates. rewrite !names_set_col.
  assert (Hb1 : mem "bbox" (names a) = false)
    by (apply mem_not_In, Hra; reserved_name).
  rewrite Hb1.
  assert (Hh : mem "histreg" (names a ++ ["bbox"]) = false).
  { apply mem_not_In. rewrite in_app_iff. simpl.
    intros [Hin | [E | []]]; [|discriminate].
    revert Hin. apply Hra. reserved_name. }
  rewrite Hh, <- app_assoc. reflexivity.
Qed.

Lemma In_names_a1 : forall n,
  In n (names a1) <-> In n (names a) \/ n = "bbox" \/ n = "histreg".
Proof.
  intros n. rewrite names_a1, in_app_iff. simpl. intuition.
Qed.

Lemma names_m1 : names m1 = "idx1" :: "idx2" :: names a1.
Proof.
  unfold joined_1. rewrite names_merged. cbn [fst snd].
  change (names p0) with ["idx1"; "idx2"]. cbn [map app].
  assert (Hn : forall c, In c ["idx1"; "idx2"] -> ~ In c (names a1)).
  { intros c Hc. rewrite In_names_a1. simpl in Hc.
    intros [Hin | [E | E]].
    - revert Hin. apply Hra. reserved_name.
    - subst c. destruct Hc as [E | [E | []]]; discriminate.
    - subst c. destruct Hc as [E | [E | []]]; discriminate. }
  rewrite !suffixed_notin by (apply Hn; simpl; auto).
  f_equal. f_equal. rewrite <- (map_id (names a1)) at 2.
  apply map_ext_in. intros n Hin. apply suffixed_notin.
  intros Hc. apply (Hn n Hc Hin).
Qed.

Lemma In_names_m1 : forall n,
  In n (names m1) <->
  n = "idx1" \/ n = "idx2" \/ In n (names a) \/ n = "bbox" \/ n = "histreg".
Proof.
  intros n. rewrite names_m1. simpl. rewrite In_names_a1. intuition.
Qed.

Lemma geometry_in_a : In "geometry" (names a).
Proof. eapply get_geom_In_names. exact Ha. Qed.

Lemma geometry_in_b : In "geometry" (names b).
Proof. eapply get_geom_In_names. exact Hb. Qed.

Lemma geometry_in_m1 : In "geometry" (names m1).
Proof. apply In_names_m1. right. right. left. exact geometry_in_a. Qed.

(** No reserved name is a column of the joined left side except the four
    that the function put there. *)
Lemma m1_reserved : forall n,
  In n (names m1) -> In n ["Intersection"; "geometry_1"; "geometry_2"] -> False.
Proof.
  intros n Hin Hn. apply In_names_m1 in Hin.
  destruct Hin as [E | [E | [Hin | [E | E]]]];
    try (subst n; simpl in Hn; intuition discriminate).
  revert Hin. apply Hra. simpl in Hn. unfold reserved. simpl. tauto.
Qed.

Lemma names_m2 :
  names m2 = map (suffixed (names b) "_1") (names m1)
             ++ map (suffixed (names m1) "_2") (names b).
Proof. unfold joined_2. rewrite names_merged. reflexivity. Qed.

(** A column of the join is a column of one side, suffixed or not. *)
Lemma In_names_m2 : forall t,
  In t (names m2) ->
  (exists n, In n (names m1) /\ suffixed (names b) "_1" n = t)
  \/ (exists n, In n (names b) /\ suffixed (names m1) "_2" n = t).
Proof.
  intros t. rewrite names_m2, in_app_iff, !in_map_iff.
  intros [(n & E & Hin) | (n & E & Hin)]; [left | right]; exists n; auto.
Qed.

Lemma m2_plain : forall t,
  ends_with "_1" t = false -> ends_with "_2" t = false ->
  In t (names m2) ->
  (In t (names m1) /\ ~ In t (names b)) \/ (In t (names b) /\ ~ In t (names m1)).
Proof.
  intros t H1 H2 Hin. apply In_names_m2 in Hin.
  destruct Hin as [(n & Hn & E) | (n & Hn & E)]; apply suffixed_eq in E;
    destruct E as [[Hnot <-] | [_ E]].
  - left. split; assumption.
  - exfalso. exact (not_ends_with _ _ H1 E).
  - right. split; assumption.
  - exfalso. exact (not_ends_with _ _ H2 E).
Qed.

Lemma Intersection_notin_m2 : ~ In "Intersection" (names m2).
Proof.
  intros Hin. apply m2_plain in Hin; auto.
  destruct Hin as [[Hin _] | [Hin _]].
  - apply (m1_reserved Hin). simpl. auto.
  - revert Hin. apply Hrb. reserved_name.
Qed.

Lemma geometry_notin_m2 : ~ In "geometry" (names m2).
Proof.
  intros Hin. apply In_names_m2 in Hin.
  destruct Hin as [(n & Hn & E) | (n & Hn & E)]; apply suffixed_eq in E;
    destruct E as [[Hnot ->] | [_ E]].
  - apply Hnot. exact geometry_in_b.
  - revert E. apply not_ends_with. reflexivity.
  - apply Hnot. exact geometry_in_m1.
  - revert E. apply not_ends_with. reflexivity.
Qed.

Lemma plain_in_m2 : forall n,
  In n (names m1) -> ~ In n (names b) -> In n (names m2).
Proof.
  intros n Hin Hnb. rewrite names_m2, in_app_iff. left.
  apply in_map_iff. exists n. split; [apply suffixed_notin; exact Hnb | exact Hin].
Qed.

Lemma bbox_in_m2 : In "bbox" (names m2).
Proof.
  apply plain_in_m2.
  - apply In_names_m1. auto.
  - apply Hrb. reserved_name.
Qed.

Lemma histreg_in_m2 : In "histreg" (names m2).
Proof.
  apply plain_in_m2.
  - apply In_names_m1. auto 6.
  - apply Hrb. reserved_name.
Qed.

Lemma geometry_1_in_m2 : In "geometry_1" (names m2).
Proof.
  rewrite names_m2, in_app_iff. left. apply in_map_iff. exists "geometry".
  split; [apply (suffixed_in _ _ _ geometry_in_b) | exact geometry_in_m1].
Qed.

Lemma geometry_2_in_m2 : In "geometry_2" (names m2).
Proof.
  rewrite names_m2, in_app_iff. right. apply in_map_iff. exists "geometry".
  split; [apply (suffixed_in _ _ _ geometry_in_m1) | exact geometry_in_b].
Qed.

Lemma idx_notin_a1 : forall c, In c ["idx1"; "idx2"] -> ~ In c (names a1).
Proof.
  intros c Hc. rewrite In_names_a1. simpl in Hc.
  intros [Hin | [E | E]].
  - revert Hin. apply Hra. reserved_name.
  - subst c. destruct Hc as [E | [E | []]]; discriminate.
  - subst c. destruct Hc as [E | [E | []]]; discriminate.
Qed.

Lemma get_geom_a1 : get_geom "geometry" a1 = Ok ga.
Proof.
  unfold with_candidates. rewrite !get_geom_set_col_other by discriminate. exact Ha.
Qed.

Lemma merge_1 : merge p0 a1 "idx1" ("_x", "_y") = Ok m1.
Proof. apply merge_ok; [reflexivity | exact Hia]. Qed.

Lemma cols_m1 :
  cols m1
  = [("idx1", col_take (map fst (join_pairs (map fst (nei ga gb la)) la))
                       (IntCol (map fst (nei ga gb la))));
     ("idx2", IntCol (keys_2 ga gb la))]
    ++ map (fun nc => (fst nc, col_take (rows_1 ga gb la) (snd nc))) (cols a1).
Proof.
  unfold joined_1, merged. cbn [cols pairs0 map fst snd].
  rewrite !suffixed_notin by (apply idx_notin_a1; simpl; auto).
  cbn [app]. f_equal. f_equal. apply map_ext_in. intros [n x] Hin. cbn [fst snd].
  f_equal. apply suffixed_notin. change (names p0) with ["idx1"; "idx2"].
  intros Hc. apply (idx_notin_a1 Hc). apply in_map_iff. exists (n, x). auto.
Qed.

Lemma merge_2 : merge m1 b "idx2" ("_1", "_2") = Ok m2.
Proof.
  apply merge_ok; [|exact Hib].
  unfold get_int, get_col. rewrite cols_m1. reflexivity.
Qed.

Lemma lookup_geometry_m1 :
  lookup "geometry" (cols m1) = Some (GeomCol (take (rows_1 ga gb la) ga)).
Proof.
  rewrite cols_m1. cbn [app lookup]. change (String.eqb "idx1" "geometry") with false.
  change (String.eqb "idx2" "geometry") with false. cbv iota.
  rewrite (lookup_map_rename (fun n => n)).
  - rewrite (get_geom_lookup _ _ get_geom_a1). reflexivity.
  - intros n _ E. exact E.
Qed.

Lemma cols_m2 :
  cols m2
  = map (fun nc => (suffixed (names b) "_1" (fst nc),
                    col_take (rows_A ga gb la lb) (snd nc))) (cols m1)
    ++ map (fun nc => (suffixed (names m1) "_2" (fst nc),
                       col_take (rows_B ga gb la lb) (snd nc))) (cols b).
Proof. reflexivity. Qed.

Lemma lookup_geometry_1 :
  lookup "geometry_1" (cols m2)
  = Some (GeomCol (take (rows_A ga gb la lb) (take (rows_1 ga gb la) ga))).
Proof.
  rewrite cols_m2, lookup_app.
  replace "geometry_1" with (suffixed (names b) "_1" "geometry")
    by exact (suffixed_in _ _ _ geometry_in_b).
  rewrite lookup_map_rename.
  - rewrite lookup_geometry_m1. reflexivity.
  - intros n Hn E. rewrite (suffixed_in _ "_1" _ geometry_in_b) in E.
    apply suffixed_eq in E. destruct E as [[_ ->] | [_ E]].
    + exfalso. apply (m1_reserved Hn). simpl. auto.
    + eapply string_append_inj. exact E.
Qed.

Lemma lookup_geometry_2 :
  lookup "geometry_2" (cols m2) = Some (GeomCol (take (rows_B ga gb la lb) gb)).
Proof.
  rewrite cols_m2, lookup_app, lookup_map_rename_none.
  - replace "geometry_2" with (suffixed (names m1) "_2" "geometry")
      by exact (suffixed_in _ _ _ geometry_in_m1).
    rewrite lookup_map_rename.
    + rewrite (get_geom_lookup _ _ Hb). reflexivity.
    + intros n Hn E. rewrite (suffixed_in _ "_2" _ geometry_in_m1) in E.
      apply suffixed_eq in E. destruct E as [[_ ->] | [_ E]].
      * exfalso. revert Hn. apply Hrb. reserved_name.
      * eapply string_append_inj. exact E.
  - intros n Hn E. apply suffixed_eq in E. destruct E as [[_ ->] | [_ E]].
    + apply (m1_reserved Hn). simpl. auto.
    + revert E. apply not_ends_with. reflexivity.
Qed.

Lemma cols_m3 :
  cols m3 = cols m2 ++ [("Intersection", GeomCol (intersections ga gb la lb))].
Proof.
  unfold joined, set_col. cbn [cols]. apply assign_notin.
  exact Intersection_notin_m2.
Qed.

Lemma names_m3 : names m3 = names m2 ++ ["Intersection"].
Proof. unfold names. rewrite cols_m3, map_app. reflexivity. Qed.

Lemma kept_names_incl : forall n,
  In n (kept_names a b ga gb la lb) -> In n (names m2).
Proof.
  intros n Hin. unfold kept_names in Hin.
  repeat apply remove_first_incl in Hin. exact Hin.
Qed.

Lemma In_kept_names : forall n,
  In n (names m2) ->
  ~ In n ["geometry_1"; "geometry_2"; "histreg"; "bbox"] ->
  In n (kept_names a b ga gb la lb).
Proof.
  intros n Hin Hn. unfold kept_names. simpl in Hn.
  repeat (apply In_remove_first; [intros E; apply Hn; auto 6|]). exact Hin.
Qed.

Lemma get_list_a1 :
  get_list "histreg" a1 = Ok (map (sindex_intersection gb) (map bounds ga)).
Proof. unfold with_candidates. apply get_list_set_col_same. Qed.

Lemma index_labels_a1 : index_labels a1 = Ok la.
Proof. unfold index_labels, with_candidates, set_col. cbn [index]. rewrite Hia. reflexivity. Qed.

Lemma remove_geometry_1 :
  list_remove "geometry_1" (names m4)
  = Ok (remove_first "geometry_1" (names m2) ++ ["Intersection"]).
Proof.
  change (names m4) with (names m3). rewrite names_m3.
  rewrite list_remove_ok by (apply in_or_app; left; exact geometry_1_in_m2).
  rewrite remove_first_app by exact geometry_1_in_m2. reflexivity.
Qed.

Lemma remove_geometry_2 :
  list_remove "geometry_2" (remove_first "geometry_1" (names m2) ++ ["Intersection"])
  = Ok (remove_first "geometry_2" (remove_first "geometry_1" (names m2))
        ++ ["Intersection"]).
Proof.
  assert (H2 : In "geometry_2" (remove_first "geometry_1" (names m2)))
    by (apply In_remove_first; [discriminate | exact geometry_2_in_m2]).
  rewrite list_remove_ok by (apply in_or_app; left; exact H2).
  rewrite remove_first_app by exact H2. reflexivity.
Qed.

Lemma remove_histreg :
  list_remove "histreg"
    (remove_first "geometry_2" (remove_first "geometry_1" (names m2)) ++ ["Intersection"])
  = Ok (remove_first "histreg"
          (remove_first "geometry_2" (remove_first "geometry_1" (names m2)))
        ++ ["Intersection"]).
Proof.
  assert (H3 : In "histreg"
                  (remove_first "geometry_2" (remove_first "geometry_1" (names m2))))
    by (repeat (apply In_remove_first; [discriminate|]); exact histreg_in_m2).
  rewrite list_remove_ok by (apply in_or_app; left; exact H3).
  rewrite remove_first_app by exact H3. reflexivity.
Qed.

Lemma remove_bbox :
  list_remove "bbox"
    (remove_first "histreg"
       (remove_first "geometry_2" (remove_first "geometry_1" (names m2)))
     ++ ["Intersection"])
  = Ok (kept_names a b ga gb la lb ++ ["Intersection"]).
Proof.
  assert (H4 : In "bbox"
                  (remove_first "histreg"
                     (remove_first "geometry_2" (remove_first "geometry_1" (names m2)))))
    by (repeat (apply In_remove_first; [discriminate|]); exact bbox_in_m2).
  rewrite list_remove_ok by (apply in_or_app; left; exact H4).
  rewrite remove_first_app by exact H4. reflexivity.
Qed.

Lemma Intersection_notin_kept : ~ In "Intersection" (kept_names a b ga gb la lb).
Proof.
  intros Hin. apply Intersection_notin_m2. apply kept_names_incl. exact Hin.
Qed.

Lemma remove_Intersection :
  list_remove "Intersection" (kept_names a b ga gb la lb ++ ["Intersection"])
  = Ok (kept_names a b ga gb la lb).
Proof.
  rewrite list_remove_ok by (apply in_or_app; right; left; reflexivity).
  rewrite remove_first_last; [reflexivity | exact Intersection_notin_kept].
Qed.

Lemma select_ok :
  select_cols (kept_names a b ga gb la lb ++ ["Intersection"]) m4
  = Ok (selected a b ga gb la lb).
Proof.
  unfold select_cols.
  destruct (find _ _) as [c|] eqn:E; [|reflexivity].
  apply find_some in E. destruct E as [Hin Hc].
  assert (Hm : In c (names m4)).
  { change (names m4) with (names m3). rewrite names_m3.
    apply in_app_or in Hin. apply in_or_app.
    destruct Hin as [Hin | Hin]; [left; apply kept_names_incl; exact Hin | right; exact Hin]. }
  apply mem_In in Hm. rewrite Hm in Hc. discriminate.
Qed.

Lemma flat_map_ext_In : forall {A B} (f g : A -> list B) l,
  (forall x, In x l -> f x = g x) -> flat_map f l = flat_map g l.
Proof.
  induction l as [|x l IH]; intros Hfg; simpl; [reflexivity|].
  rewrite (Hfg x) by (left; reflexivity).
  rewrite IH by (intros; apply Hfg; right; assumption). reflexivity.
Qed.

Lemma filter_name_notin : forall c (l : list (string * column geom)),
  ~ In c (map fst l) -> filter (fun nc => String.eqb (fst nc) c) l = [].
Proof.
  intros c l. induction l as [|[n x] l IH]; simpl; intros Hn; [reflexivity|].
  destruct (String.eqb n c) eqn:E.
  - apply String.eqb_eq in E. elim Hn. left. exact E.
  - apply IH. intros Hin. apply Hn. right. exact Hin.
Qed.

Lemma cols_projected :
  cols (projected a b ga gb la lb)
  = map (fun nc => (if String.eqb (fst nc) "Intersection" then "geometry" else fst nc,
                    snd nc))
        (flat_map (fun c => filter (fun nc => String.eqb (fst nc) c) (cols m2))
                  (kept_names a b ga gb la lb))
    ++ [("geometry", GeomCol (intersections ga gb la lb))].
Proof.
  unfold projected, selected, rename_col. cbn [cols].
  rewrite flat_map_app, map_app. f_equal.
  - f_equal. apply flat_map_ext_In. intros c Hc.
    change (cols m4) with (cols m3). rewrite cols_m3, filter_app. cbn [filter fst].
    replace (String.eqb "Intersection" c) with false; [apply app_nil_r|].
    symmetry. apply String.eqb_neq. intros <-. exact (Intersection_notin_kept Hc).
  - cbn [flat_map]. rewrite app_nil_r. change (cols m4) with (cols m3).
    rewrite cols_m3, filter_app, filter_name_notin by exact Intersection_notin_m2.
    reflexivity.
Qed.

Lemma In_selected_names : forall n x,
  In (n, x)
     (flat_map (fun c => filter (fun nc => String.eqb (fst nc) c) (cols m2))
               (kept_names a b ga gb la lb)) ->
  In n (kept_names a b ga gb la lb).
Proof.
  intros n x Hin. apply in_flat_map in Hin. destruct Hin as (c & Hc & Hin).
  apply filter_In in Hin. destruct Hin as [_ E]. cbn [fst] in E.
  apply String.eqb_eq in E. subst c. exact Hc.
Qed.

Lemma get_geom_dfinter :
  get_geom "geometry" (dfinter a b ga gb la lb) = Ok (intersections ga gb la lb).
Proof.
  apply lookup_get_geom. change (cols (dfinter a b ga gb la lb))
    with (cols (projected a b ga gb la lb)).
  rewrite cols_projected, lookup_app.
  match goal with |- match ?x with _ => _ end = _ => replace x with (@None (column geom)) end.
  - reflexivity.
  - symmetry. apply lookup_None. rewrite map_map. cbn [fst].
    intros Hin. apply in_map_iff in Hin. destruct Hin as ([n x] & E & Hin).
    cbn [fst] in E. apply In_selected_names in Hin.
    destruct (String.eqb n "Intersection") eqn:En.
    + apply String.eqb_eq in En. subst n. exact (Intersection_notin_kept Hin).
    + subst n. apply geometry_notin_m2. apply kept_names_incl. exact Hin.
Qed.

Local Abbreviation msk := (nonempty_rows ga gb la lb).

Lemma In_cols_intersected : forall n x,
  In (n, x) (cols m2) ->
  In n (kept_names a b ga gb la lb) ->
  In (n, col_mask msk x) (cols (intersected a b ga gb la lb)).
Proof.
  intros n x Hin Hk. unfold intersected, kept, mask_rows. cbn [cols].
  change (cols (dfinter a b ga gb la lb)) with (cols (projected a b ga gb la lb)).
  rewrite cols_projected, map_app, map_map. apply in_or_app. left.
  apply in_map_iff. exists (n, x). cbn [fst snd]. split.
  - replace (String.eqb n "Intersection") with false; [reflexivity|].
    symmetry. apply String.eqb_neq. intros ->. exact (Intersection_notin_kept Hk).
  - apply in_flat_map. exists n. split; [exact Hk|].
    apply filter_In. split; [exact Hin | apply String.eqb_refl].
Qed.

Lemma name_in_cols : forall n x (f : frame geom), In (n, x) (cols f) -> In n (names f).
Proof. intros n x f Hin. apply in_map_iff. exists (n, x). auto. Qed.

Lemma not_reserved_a : forall n, In n (names a) -> ~ In n reserved.
Proof. intros n Hin Hr. exact (Hra Hr Hin). Qed.

Lemma not_reserved_b : forall n, In n (names b) -> ~ In n reserved.
Proof. intros n Hin Hr. exact (Hrb Hr Hin). Qed.

Lemma left_not_dropped : forall n,
  In n (names a) -> n <> "geometry" ->
  ~ In (suffixed (names b) "_1" n) ["geometry_1"; "geometry_2"; "histreg"; "bbox"].
Proof.
  intros n Hn Hng Hbad.
  assert (Hnr : ~ In n reserved) by (apply not_reserved_a; exact Hn).
  remember (suffixed (names b) "_1" n) as t eqn:Et. symmetry in Et.
  apply suffixed_eq in Et. destruct Et as [[_ ->] | [_ <-]].
  - apply Hnr. simpl in Hbad. unfold reserved. simpl. tauto.
  - simpl in Hbad. destruct Hbad as [E | [E | [E | [E | []]]]]; symmetry in E.
    + apply Hng. eapply string_append_inj. exact E.
    + revert E. apply not_ends_with. reflexivity.
    + revert E. apply not_ends_with. reflexivity.
    + revert E. apply not_ends_with. reflexivity.
Qed.

(** Every column of the first frame but its geometry is in the result,
    under its own name or with the suffix [_1]. *)
Lemma carried_left : forall n x,
  In (n, x) (cols a) -> n <> "geometry" ->
  In (suffixed (names b) "_1" n,
      col_mask msk (col_take (rows_A ga gb la lb) (col_take (rows_1 ga gb la) x)))
     (cols (intersected a b ga gb la lb)).
Proof.
  intros n x Hin Hng.
  assert (Hn : In n (names a)) by (eapply name_in_cols; exact Hin).
  assert (Hnr : ~ In n reserved) by (apply not_reserved_a; exact Hn).
  assert (H1 : In (n, col_take (rows_1 ga gb la) x) (cols m1)).
  { rewrite cols_m1. apply in_or_app. right.
    apply in_map_iff. exists (n, x). split; [reflexivity|].
    unfold with_candidates, set_col. cbn [cols].
    repeat (apply In_assign_other; [intros ->; apply Hnr; reserved_name|]). exact Hin. }
  assert (H2 : In (suffixed (names b) "_1" n,
                   col_take (rows_A ga gb la lb) (col_take (rows_1 ga gb la) x)) (cols m2)).
  { rewrite cols_m2. apply in_or_app. left.
    apply in_map_iff. exists (n, col_take (rows_1 ga gb la) x). auto. }
  apply In_cols_intersected; [exact H2|].
  apply In_kept_names; [eapply name_in_cols; exact H2|].
  apply left_not_dropped; assumption.
Qed.

Lemma suffixed_m1_a : forall n,
  In n (names b) -> suffixed (names m1) "_2" n = suffixed (names a) "_2" n.
Proof.
  intros n Hn. unfold suffixed.
  assert (Hnr : ~ In n reserved) by (apply not_reserved_b; exact Hn).
  replace (mem n (names m1)) with (mem n (names a)); [reflexivity|].
  destruct (mem n (names a)) eqn:E; symmetry.
  - apply mem_In. apply In_names_m1. apply mem_In in E. auto.
  - apply mem_not_In. apply mem_not_In in E. rewrite In_names_m1.
    intros [-> | [-> | [Hin | [-> | ->]]]];
      apply Hnr; reserved_name.
Qed.

(** Every column of the second frame but its geometry is in the result,
    under its own name or with the suffix [_2]. *)
Lemma carried_right : forall n x,
  In (n, x) (cols b) -> n <> "geometry" ->
  In (suffixed (names a) "_2" n, col_mask msk (col_take (rows_B ga gb la lb) x))
     (cols (intersected a b ga gb la lb)).
Proof.
  intros n x Hin Hng.
  assert (Hn : In n (names b)) by (eapply name_in_cols; exact Hin).
  assert (Hnr : ~ In n reserved) by (apply not_reserved_b; exact Hn).
  rewrite <- suffixed_m1_a by exact Hn.
  assert (H2 : In (suffixed (names m1) "_2" n, col_take (rows_B ga gb la lb) x) (cols m2)).
  { rewrite cols_m2. apply in_or_app. right.
    apply in_map_iff. exists (n, x). auto. }
  apply In_cols_intersected; [exact H2|].
  apply In_kept_names; [eapply name_in_cols; exact H2|].
  intros Hbad.
  remember (suffixed (names m1) "_2" n) as t eqn:Et. symmetry in Et.
  apply suffixed_eq in Et. destruct Et as [[_ ->] | [_ <-]].
  - apply Hnr. simpl in Hbad. unfold reserved. simpl. tauto.
  - simpl in Hbad. destruct Hbad as [E | [E | [E | [E | []]]]]; symmetry in E.
    + revert E. apply not_ends_with. reflexivity.
    + apply Hng. eapply string_append_inj. exact E.
    + revert E. apply not_ends_with. reflexivity.
    + revert E. apply not_ends_with. reflexivity.
Qed.

Ltac heap_is l' :=
  match goal with
  | |- context [?h ++ ?l] =>
      lazymatch type of l with
      | list (frame _) => change l with l'
      end
  end.

(** The join of lines 51-52 leaves a row. *)
Hypothesis Hrows : nrows m2 <> 0.

Lemma intersection_branch_run : forall h : heap geom,
  intersection_branch (List.length h + 0) (List.length h + 1) (h ++ [a; b])
  = (Ok (PyFrame (List.length h + 9)),
     h ++ [a1; b; p0; m1; m3; m4; selected a b ga gb la lb; projected a b ga gb la lb;
           dfinter a b ga gb la lb; intersected a b ga gb la lb]).
Proof.
  intros h. unfold intersection_branch. run_cbn.
  erewrite add_candidates_run by eassumption. run_cbn.
  run_step. rewrite get_list_a1. run_cbn. rewrite index_labels_a1. run_cbn.
  rewrite alloc_new. run_cbn. heap_is [a1; b; p0].
  erewrite merge_frames_new; [ | reflexivity | reflexivity | exact merge_1 ]. run_cbn.
  erewrite merge_frames_new; [ | reflexivity | reflexivity | exact merge_2 ]. run_cbn.
  run_step. unfold apply_has_rows.
  replace (nrows m2 =? 0) with false by (symmetry; apply Nat.eqb_neq; exact Hrows).
  run_cbn.
  rewrite (lookup_get_geom _ _ lookup_geometry_1). run_cbn.
  rewrite (lookup_get_geom _ _ lookup_geometry_2). run_cbn.
  run_step. heap_is [a1; b; p0; m1; m3].
  run_step. run_step. heap_is [a1; b; p0; m1; m3; m4].
  run_step.
  rewrite remove_geometry_1. run_cbn.
  rewrite remove_geometry_2. run_cbn.
  rewrite remove_histreg. run_cbn.
  rewrite remove_bbox. run_cbn.
  rewrite remove_Intersection. run_cbn.
  rewrite select_ok. run_cbn.
  run_step. run_step. run_step. run_step.
  heap_is [a1; b; p0; m1; m3; m4; selected a b ga gb la lb; projected a b ga gb la lb].
  run_step.
  heap_is [a1; b; p0; m1; m3; m4; selected a b ga gb la lb; projected a b ga gb la lb;
           dfinter a b ga gb la lb].
  run_step. rewrite get_geom_dfinter. run_cbn.
  run_step. reflexivity.
Qed.

End IntersectionRun.

Section IntersectionSchema.

Context {geom : Type} `{GeoOps geom}.

Lemma names_repaired : forall (f : frame geom) g g',
  get_geom "geometry" f = Ok g -> names (repaired f g') = names f.
Proof.
  intros f g g' Hg. unfold repaired. rewrite names_set_col.
  apply get_geom_In_names, mem_In in Hg. rewrite Hg. reflexivity.
Qed.

Lemma In_cols_repaired : forall (f : frame geom) g n x,
  In (n, x) (cols f) -> n <> "geometry" -> In (n, x) (cols (repaired f g)).
Proof.
  intros f g n x Hin Hn. unfold repaired, set_col. cbn [cols].
  apply In_assign_other; assumption.
Qed.


End IntersectionSchema.


(** When no candidate is an index label of the second input, the join of
    line 52 leaves no row, and line 53 raises instead of adding a column:
    the call returns no frame. *)
Example intersection_mode_empty_join_raises :
  fst (spatial_overlays 0 1 "intersection"
         [{| index := Index [10]%Z; cols := [("geometry", GeomCol [[1; 2]])]; crs := None |};
          {| index := Index [5; 6]%Z; cols := [("geometry", GeomCol [[2; 3]; [9]])];
             crs := None |}])
  = Raise ValueError.
Proof. reflexivity. Qed.

(** ** Row-wise transforms *)

Section RowClaims.

Context {geom : Type} `{GeoOps geom}.

(** C6, as the code has it.  Both transforms are functions of the row
    alone.  [geom_within_country] returns the row's geometry when
    [within_country] is true and its intersection with the reference when
    it is false; [delete_roads_urb] returns the difference from the
    reference when [inter_urb] is true and the row's geometry when it is
    false. *)
Theorem row_transforms_by_flag :
  forall (x : row geom) (g geo_country geo_urban : geom),
    getitem x "geometry" = Ok (CGeom g) ->
    (forall w, getitem x "within_country" = Ok (CBool w) ->
       geom_within_country x geo_country
       = Ok (CGeom (if w then g else intersection g geo_country)))
    /\ (forall u, getitem x "inter_urb" = Ok (CBool u) ->
          delete_roads_urb x geo_urban
          = Ok (CGeom (if u then difference g geo_urban else g))).
Proof.
  intros x g geo_country geo_urban Hg. split.
  - intros w Hw. unfold geom_within_country. rewrite Hw. simpl.
    destruct w; simpl; rewrite Hg; reflexivity.
  - intros u Hu. unfold delete_roads_urb. rewrite Hu. simpl.
    destruct u; simpl; rewrite Hg; reflexivity.
Qed.

End RowClaims.

(** C6, as stated, fails for [delete_roads_urb]: with the flag true it
    returns the difference, not the row's geometry. *)
Lemma delete_roads_urb_changes_flagged_rows :
  ~ original_when_flagged (geom:=cells) delete_roads_urb "inter_urb" difference.
Proof.
  intros Hc.
  specialize (Hc ex_row [2] [1; 2] true eq_refl eq_refl).
  vm_compute in Hc. discriminate Hc.
Qed.

(** ** Road classification *)

Lemma dict_find_In : forall d k v, dict_find d k = Some v -> In v (map snd d).
Proof.
  induction d as [|[k' v'] d IH]; simpl; [discriminate|].
  intros k v. destruct (dict_find d k) eqn:E.
  - intros [= <-]. right. eapply IH. exact E.
  - destruct (String.eqb k' k); [intros [= <-]; left; reflexivity | discriminate].
Qed.

Lemma dict_find_key : forall d k v, dict_find d k = Some v -> In k (map fst d).
Proof.
  induction d as [|[k' v'] d IH]; simpl; [discriminate|].
  intros k v. destruct (dict_find d k) eqn:E.
  - intros _. right. eapply IH. exact E.
  - destruct (String.eqb k' k) eqn:Ek; [|discriminate].
    intros _. left. apply String.eqb_eq. exact Ek.
Qed.

Lemma dict_find_None : forall d k, dict_find d k = None -> ~ In k (map fst d).
Proof.
  induction d as [|[k' v'] d IH]; simpl; intros k; [intros _ []|].
  destruct (dict_find d k) eqn:E; [discriminate|].
  destruct (String.eqb k' k) eqn:Ek; [discriminate|].
  apply String.eqb_neq in Ek. intros _ [Hk | Hk]; [exact (Ek Hk) | exact (IH k E Hk)].
Qed.

Lemma dict_map_classes : forall v, In v (map snd dict_map) -> In v coarse_classes.
Proof.
  assert (Hall : forallb (fun v => mem v coarse_classes) (map snd dict_map) = true)
    by reflexivity.
  intros v Hv. rewrite forallb_forall in Hall. apply mem_In. apply Hall. exact Hv.
Qed.

Lemma classify_present : forall tag,
  In tag (map fst dict_map) ->
  exists c, classify (Some tag) = Ok c /\ In c coarse_classes.
Proof.
  intros tag Hin. unfold classify, dict_getitem.
  destruct (dict_find dict_map tag) as [c|] eqn:E.
  - exists c. split; [reflexivity|]. apply dict_map_classes. eapply dict_find_In. exact E.
  - apply dict_find_None in E. contradiction.
Qed.

Lemma classify_absent : forall tag,
  ~ In tag (map fst dict_map) -> classify (Some tag) = Raise (KeyError tag).
Proof.
  intros tag Hn. unfold classify, dict_getitem.
  destruct (dict_find dict_map tag) as [c|] eqn:E; [|reflexivity].
  apply dict_find_key in E. contradiction.
Qed.

Lemma mapM_raises : forall {A B} (f : A -> result B) l x e,
  In x l -> f x = Raise e -> exists e', mapM f l = Raise e'.
Proof.
  induction l as [|y l IH]; simpl; [intros x e []|].
  intros x e [-> | Hin] Hx.
  - rewrite Hx. eauto.
  - destruct (f y); [|eauto].
    destruct (IH x e Hin Hx) as [e' ->]. eauto.
Qed.

Lemma mapM_succeeds : forall {A B} (f : A -> result B) (P : B -> Prop) l,
  (forall x, In x l -> exists y, f x = Ok y /\ P y) ->
  exists ys, mapM f l = Ok ys /\ Forall2 (fun x y => f x = Ok y /\ P y) l ys.
Proof.
  induction l as [|x l IH]; simpl; intros Hall.
  - exists []. split; [reflexivity | constructor].
  - destruct (Hall x (or_introl eq_refl)) as (y & Hy & Py).
    destruct IH as (ys & Hys & Hf); [intros; apply Hall; right; assumption|].
    rewrite Hy, Hys. exists (y :: ys). split; [reflexivity|].
    constructor; [split; assumption | exact Hf].
Qed.

Section RoadClaims.

Variable geom : Type.

(** C7. The lookup is total on the tags of the table, with a value among
    the five coarse classes, and raises [KeyError] on every other tag;
    [map_roads] classifies a frame whose tags are all in the table and
    raises as soon as one is not. *)
Theorem map_roads_closed_world :
  (forall tag, In tag (map fst dict_map) ->
     exists c, classify (Some tag) = Ok c /\ In c coarse_classes)
  /\ (forall tag, ~ In tag (map fst dict_map) ->
        classify (Some tag) = Raise (KeyError tag))
  /\ (forall (f : frame geom) (tags : list (option string)),
        get_str "fclass" f = Ok tags ->
        (forall tag, In (Some tag) tags -> ~ In tag (map fst dict_map) ->
           exists e, map_roads f = Raise e)
        /\ ((forall x, In x tags -> exists tag, x = Some tag /\ In tag (map fst dict_map)) ->
            exists roads,
              map_roads f = Ok (set_col "roads" (StrCol (map Some roads)) f)
              /\ Forall2 (fun x c => classify x = Ok c /\ In c coarse_classes) tags roads)).
Proof.
  split; [exact classify_present|]. split; [exact classify_absent|].
  intros f tags Hf. unfold map_roads. rewrite Hf. simpl. split.
  - intros tag Hin Hn.
    destruct (mapM_raises classify tags (Some tag) Hin (classify_absent Hn)) as [e ->].
    exists e. reflexivity.
  - intros Hall.
    destruct (mapM_succeeds classify (fun c => In c coarse_classes) tags) as (roads & -> & Hr).
    + intros x Hx. destruct (Hall x Hx) as (tag & -> & Hin).
      apply classify_present. exact Hin.
    + exists roads. split; [reflexivity | exact Hr].
Qed.

End RoadClaims.

(** ** The filters of [get_country] *)

Lemma Qltb_lt : forall a b : Q, Qltb a b = true <-> (a < b)%Q.
Proof. intros a b. unfold Qltb, Qlt. apply Z.ltb_lt. Qed.

Lemma count_occ_tags : forall (tags : list (option string)) (t : string),
  count_occ string_dec
    (flat_map (fun x => match x with Some s => [s] | None => [] end) tags) t
  = count_occ option_string_dec tags (Some t).
Proof.
  induction tags as [|x tags IH]; intros t; [reflexivity|].
  destruct x as [s|]; simpl.
  - destruct (string_dec s t) as [Heq | Hne];
      destruct (option_string_dec (Some s) (Some t)) as [E | E];
      try congruence; rewrite IH; reflexivity.
  - destruct (option_string_dec None (Some t)); [discriminate | apply IH].
Qed.

Lemma In_frequent : forall (tags : list (option string)) (t : string),
  In t (map fst (filter (fun tn => 20 <? snd tn) (value_counts tags)))
  <-> 20 < count_occ option_string_dec tags (Some t).
Proof.
  intros tags t. unfold value_counts. rewrite <- count_occ_tags.
  set (vals := flat_map _ tags). split.
  - intros Hin. apply in_map_iff in Hin. destruct Hin as ([t' n] & E & Hin).
    cbn [fst] in E. subst t'. apply filter_In in Hin. destruct Hin as [Hin Hn].
    apply in_map_iff in Hin. destruct Hin as (s & [= -> <-] & _).
    apply Nat.ltb_lt. exact Hn.
  - intros Hc. apply in_map_iff. exists (t, count_occ string_dec vals t).
    split; [reflexivity|]. apply filter_In. split.
    + apply in_map_iff. exists t. split; [reflexivity|].
      apply nodup_In. apply (count_occ_In string_dec). lia.
    + apply Nat.ltb_lt. exact Hc.
Qed.

Section CountryClaims.

Variable vincenty : point -> point -> result Q.

(** C10. Lines 140-144 keep the rows of the loaded frame whose [highway]
    tag occurs more than 20 times in the frame or is one of [primary],
    [secondary], [trunk] and [motorway], and no other row. *)
Theorem filter_tags_frequent_or_major :
  forall (f : frame linegeom) (tags : list (option string)),
    get_str "highway" f = Ok tags ->
    exists keep : list bool,
      filter_tags f = Ok (mask_rows keep f) /\
      List.length keep = List.length tags /\
      forall (i : nat) (x : option string),
        nth_error tags i = Some x ->
        (nth_error keep i = Some true <->
         exists t, x = Some t /\
                   (20 < count_occ option_string_dec tags (Some t) \/ In t major_tags)).
Proof.
  intros f tags Hf. unfold filter_tags. rewrite Hf. cbn [rbind].
  eexists. split; [reflexivity|]. split; [apply length_map|].
  intros i x Hx. unfold isin. rewrite nth_error_map, Hx. cbn [option_map].
  destruct x as [t|].
  - split.
    + intros [= Hm]. exists t. split; [reflexivity|].
      apply mem_In, nodup_In, in_app_or in Hm.
      destruct Hm as [Hm | Hm]; [left; apply In_frequent; exact Hm | right; exact Hm].
    + intros (t' & [= <-] & Ht). f_equal. apply mem_In, nodup_In, in_or_app.
      destruct Ht as [Ht | Ht]; [left; apply In_frequent; exact Ht | right; exact Ht].
  - split; [discriminate|]. intros (t & E & _). discriminate.
Qed.

(** C8. With [RAI] false, [get_country] runs the length filter between the
    tag filter and the classification; the filter keeps a row exactly when
    the length that [line_length] computed for it is below 500, strictly. *)
Theorem filter_length_below_500 :
  forall (f : frame linegeom) (g : list linegeom) (d : list Q),
    get_geom "geometry" f = Ok g ->
    mapM (line_length vincenty) g = Ok d ->
    exists keep : list bool,
      filter_length vincenty f
      = Ok (mask_rows keep (set_col "distance" (NumCol d) f)) /\
      List.length keep = List.length d /\
      (forall (i : nat) (L : Q),
         nth_error d i = Some L ->
         (nth_error keep i = Some true <-> (L < 500)%Q)) /\
      (forall f0,
         get_country vincenty f0 false
         = rbind (filter_tags f0)
                 (fun f1 => rbind (filter_length vincenty f1) map_roads)).
Proof.
  intros f g d Hg Hd. unfold filter_length. rewrite Hg. cbn [rbind]. rewrite Hd.
  cbn [rbind]. unfold get_num. rewrite get_col_set_col_same.
  eexists. split; [reflexivity|]. split; [apply length_map|]. split.
  - intros i L HL. rewrite nth_error_map, HL. cbn [option_map]. split.
    + intros [= E]. apply Qltb_lt. exact E.
    + intros E. f_equal. apply Qltb_lt. exact E.
  - reflexivity.
Qed.

End CountryClaims.

(** ** Joins *)

Lemma In_first_seen : forall k keys, In k (first_seen keys) -> In k keys.
Proof.
  intros k keys. induction keys as [|k' keys IH]; simpl; [auto|].
  intros [E | Hin]; [left; exact E|]. right. apply IH.
  apply filter_In in Hin. apply Hin.
Qed.

Lemma filter_filter_same : forall {A} (p : A -> bool) (l : list A),
  filter p (filter p l) = filter p l.
Proof.
  intros A p l. induction l as [|x l IH]; simpl; [reflexivity|].
  destruct (p x) eqn:E; simpl; [rewrite E, IH; reflexivity | exact IH].
Qed.

Lemma filter_none : forall {A} (p : A -> bool) (l : list A),
  (forall x, In x l -> p x = false) -> filter p l = [].
Proof.
  intros A p l. induction l as [|x l IH]; intros Hall; simpl; [reflexivity|].
  rewrite (Hall x) by (left; reflexivity). apply IH.
  intros y Hy. apply Hall. right. exact Hy.
Qed.

Lemma filter_all : forall {A} (p : A -> bool) (l : list A),
  (forall x, In x l -> p x = true) -> filter p l = l.
Proof.
  intros A p l Hall. apply forallb_filter_id. apply forallb_forall. exact Hall.
Qed.

Lemma first_seen_without : forall k keys,
  ~ In k keys ->
  filter (fun k' => negb (Z.eqb k' k)) (first_seen keys) = first_seen keys.
Proof.
  intros k keys Hn. apply filter_all. intros x Hx. apply In_first_seen in Hx.
  apply negb_true_iff, Z.eqb_neq. intros ->. exact (Hn Hx).
Qed.

Section Grouping.

Variable A : Type.

Implicit Types (rows : list (Z * A)) (ks : list Z).

(** Rows of one key in front of other rows: under another key they do not
    count. *)
Lemma group_by_key_other : forall k ks (H T : list (Z * A)),
  (forall r, In r H -> fst r = k) ->
  ~ In k ks ->
  group_by_key ks (H ++ T) = group_by_key ks T.
Proof.
  intros k ks H T HH. unfold group_by_key.
  induction ks as [|k' ks IH]; intros Hn; simpl; [reflexivity|].
  rewrite filter_app, IH by (intros Hin; apply Hn; right; exact Hin).
  rewrite filter_none; [reflexivity|].
  intros r Hr. apply Z.eqb_neq. rewrite (HH r Hr). intros E. apply Hn. left.
  symmetry. exact E.
Qed.

Lemma not_in_filter_other : forall k ks,
  ~ In k (filter (fun k' => negb (Z.eqb k' k)) ks).
Proof.
  intros k ks Hin. apply filter_In in Hin. destruct Hin as [_ E].
  rewrite Z.eqb_refl in E. discriminate.
Qed.

End Grouping.

Section JoinOrder.

Variable labels : list Z.

(** The rows of the join from the left position [s] on. *)
Local Abbreviation rows_from s keys :=
  (flat_map (fun ik : nat * Z =>
               map (fun j => (snd ik, (fst ik, j))) (positions_of (snd ik) labels))
            (combine (seq s (List.length keys)) keys)).

Lemma rows_from_key : forall keys s r, In r (rows_from s keys) -> In (fst r) keys.
Proof.
  induction keys as [|k keys IH]; intros s r; simpl; [intros []|].
  rewrite in_app_iff. intros [Hin | Hin].
  - apply in_map_iff in Hin. destruct Hin as (j & <- & _). left. reflexivity.
  - right. eapply IH. exact Hin.
Qed.

(** On a clustered key column the grouped rows are the rows in the order
    of the left rows. *)
Lemma group_clustered : forall keys s,
  clustered keys ->
  group_by_key (first_seen keys) (rows_from s keys) = rows_from s keys.
Proof.
  induction keys as [|k keys IH]; intros s Hc; [reflexivity|].
  destruct Hc as [Hnext Hc]. specialize (IH (S s) Hc).
  cbn [List.length seq combine flat_map first_seen fst snd].
  set (H := map (fun j => (k, (s, j))) (positions_of k labels)).
  set (T := rows_from (S s) keys) in *.
  assert (HH : forall r, In r H -> fst r = k).
  { intros r Hr. apply in_map_iff in Hr. destruct Hr as (j & <- & _). reflexivity. }
  unfold group_by_key at 1. cbn [flat_map]. fold (group_by_key
    (filter (fun k' => negb (Z.eqb k' k)) (first_seen keys)) (H ++ T)).
  erewrite group_by_key_other; [ | exact HH | apply not_in_filter_other ].
  rewrite filter_app, filter_all
    by (intros r Hr; apply Z.eqb_eq, HH; exact Hr).
  rewrite <- app_assoc. f_equal.
  destruct (in_dec Z.eq_dec k keys) as [Hin | Hn].
  - destruct (Hnext Hin) as [tl ->]. rewrite <- IH at 3.
    cbn [first_seen filter]. rewrite Z.eqb_refl. cbn [negb].
    rewrite filter_filter_same. reflexivity.
  - rewrite first_seen_without by exact Hn. rewrite IH.
    rewrite filter_none; [reflexivity|].
    intros r Hr. apply Z.eqb_neq. intros E. apply Hn. rewrite <- E.
    eapply rows_from_key. exact Hr.
Qed.

Lemma map_snd_join_rows : forall keys,
  map snd (join_rows keys labels)
  = flat_map (fun ik : nat * Z => map (fun j => (fst ik, j)) (positions_of (snd ik) labels))
             (combine (seq 0 (List.length keys)) keys).
Proof.
  intros keys. unfold join_rows. generalize 0 as s.
  induction keys as [|k keys IH]; intros s; [reflexivity|].
  cbn [List.length seq combine flat_map fst snd]. rewrite map_app, map_map, IH.
  reflexivity.
Qed.

Lemma join_pairs_clustered : forall keys,
  clustered keys ->
  join_pairs keys labels
  = flat_map (fun ik : nat * Z => map (fun j => (fst ik, j)) (positions_of (snd ik) labels))
             (combine (seq 0 (List.length keys)) keys).
Proof.
  intros keys Hc. unfold join_pairs. rewrite <- map_snd_join_rows. f_equal.
  apply (group_clustered keys 0 Hc).
Qed.

End JoinOrder.

Lemma NoDup_clustered : forall keys, NoDup keys -> clustered keys.
Proof.
  intros keys Hnd. induction Hnd as [|k keys Hk Hnd IH]; simpl; [exact I|].
  split; [intros Hin; contradiction | exact IH].
Qed.

(** Labels repeated block by block are clustered. *)
Lemma clustered_blocks : forall {C} (count : C -> nat) (blocks : list (Z * C)),
  NoDup (map fst blocks) ->
  clustered (flat_map (fun lc => repeat (fst lc) (count (snd lc))) blocks).
Proof.
  intros C count blocks. induction blocks as [|[l c] blocks IH]; intros Hnd;
    [exact I|].
  inversion Hnd as [|? ? Hl Hnd']; subst. specialize (IH Hnd').
  cbn [flat_map fst snd].
  assert (Hrest : ~ In l (flat_map (fun lc => repeat (fst lc) (count (snd lc))) blocks)).
  { intros Hin. apply in_flat_map in Hin. destruct Hin as ([l' c'] & Hb & Hr).
    apply repeat_spec in Hr. cbn [fst] in Hr. subst l'.
    apply Hl. apply in_map_iff. exists (l, c'). auto. }
  induction (count c) as [|n IHn]; [exact IH|].
  cbn [repeat app]. split; [|exact IHn].
  destruct n as [|n]; cbn [repeat app].
  - intros Hin. contradiction.
  - intros _. eexists. reflexivity.
Qed.

(** ** [explode] *)

Lemma take_map_S : forall {A} (ps : list nat) (x : A) (l : list A),
  take (map S ps) (x :: l) = take ps l.
Proof.
  intros A ps x l. unfold take. induction ps as [|p ps IH]; simpl; [reflexivity|].
  rewrite IH. reflexivity.
Qed.

Lemma take_seq_all : forall {A} (l : list A), take (seq 0 (List.length l)) l = l.
Proof.
  induction l as [|x l IH]; [reflexivity|].
  cbn [List.length seq]. rewrite <- seq_shift.
  change (take (0 :: map S (seq 0 (List.length l))) (x :: l))
    with (x :: take (map S (seq 0 (List.length l))) (x :: l)).
  rewrite take_map_S, IH. reflexivity.
Qed.

Lemma map_fst_combine_eq : forall {A B} (l1 : list A) (l2 : list B),
  List.length l1 = List.length l2 -> map fst (combine l1 l2) = l1.
Proof.
  induction l1 as [|x l1 IH]; intros [|y l2] Hl; simpl in *; try discriminate; [reflexivity|].
  rewrite IH by lia. reflexivity.
Qed.

Lemma map_snd_combine_eq : forall {A B} (l1 : list A) (l2 : list B),
  List.length l1 = List.length l2 -> map snd (combine l1 l2) = l2.
Proof.
  induction l1 as [|x l1 IH]; intros [|y l2] Hl; simpl in *; try discriminate; [reflexivity|].
  rewrite IH by lia. reflexivity.
Qed.

Lemma filter_label_absent : forall (k : Z) (idx : list nat) (labels : list Z),
  ~ In k labels ->
  filter (fun pl : nat * Z => Z.eqb (snd pl) k) (combine idx labels) = [].
Proof.
  intros k idx labels. revert idx.
  induction labels as [|x labels IH]; intros [|i idx] Hn; simpl; try reflexivity.
  destruct (Z.eqb x k) eqn:E.
  - apply Z.eqb_eq in E. elim Hn. left. exact E.
  - apply IH. intros Hin. apply Hn. right. exact Hin.
Qed.

Lemma filter_label_unique : forall (labels : list Z) (s i : nat) (k : Z),
  NoDup labels ->
  In (i, k) (combine (seq s (List.length labels)) labels) ->
  filter (fun pl : nat * Z => Z.eqb (snd pl) k) (combine (seq s (List.length labels)) labels)
  = [(i, k)].
Proof.
  induction labels as [|x labels IH]; intros s i k Hnd Hin; simpl in *; [contradiction|].
  inversion Hnd as [|? ? Hx Hnd']; subst.
  destruct Hin as [[= <- <-] | Hin].
  - rewrite Z.eqb_refl. f_equal. apply filter_label_absent. exact Hx.
  - assert (Hk : In k labels) by (apply in_combine_r in Hin; exact Hin).
    destruct (Z.eqb x k) eqn:E.
    + apply Z.eqb_eq in E. subst x. contradiction.
    + apply IH; assumption.
Qed.

Lemma join_pairs_self : forall labels : list Z,
  NoDup labels ->
  join_pairs labels labels
  = map (fun i => (i, i)) (seq 0 (List.length labels)).
Proof.
  intros labels Hnd. rewrite join_pairs_clustered by (apply NoDup_clustered; exact Hnd).
  rewrite <- (@map_fst_combine_eq _ _ (seq 0 (List.length labels)) labels) at 2
    by apply length_seq.
  rewrite map_map.
  rewrite flat_map_ext_In with (g := fun ik : nat * Z => [(fst ik, fst ik)]).
  - induction (combine (seq 0 (List.length labels)) labels) as [|y l IH];
      simpl; [reflexivity | rewrite IH; reflexivity].
  - intros [i k] Hin. cbn [fst snd]. unfold positions_of.
    erewrite filter_label_unique; [reflexivity | exact Hnd | exact Hin].
Qed.

Lemma combine_zeros : forall {A} (labels : list Z) (g : list A),
  List.length labels = List.length g ->
  combine labels (map (fun _ : Z * A => 0%Z) (combine labels g))
  = map (fun l => (l, 0%Z)) labels.
Proof.
  induction labels as [|l labels IH]; intros [|x g] Hlg; simpl in *; try discriminate;
    [reflexivity|].
  rewrite IH by lia. reflexivity.
Qed.

Section ExplodeFacts.

Context {geom : Type} `{GeoOps geom}.

Lemma col_take_all : forall (c : column geom),
  col_take (seq 0 (col_length c)) c = c.
Proof. intros []; simpl; rewrite take_seq_all; reflexivity. Qed.

Lemma explode_parts_single : forall (labels : list Z) (g : list geom),
  (forall x, In x g -> parts x = None) ->
  explode_parts labels g = map (fun lg => ((fst lg, 0%Z), snd lg)) (combine labels g).
Proof.
  intros labels g Hs. unfold explode_parts.
  rewrite flat_map_ext_In with (g := fun lg : Z * geom => [((fst lg, 0%Z), snd lg)]).
  - induction (combine labels g) as [|y l IH]; simpl; [reflexivity | rewrite IH; reflexivity].
  - intros [l x] Hin. cbn [fst snd]. rewrite Hs; [reflexivity|].
    apply in_combine_r in Hin. exact Hin.
Qed.

Lemma exploded_single : forall (g : list geom),
  (forall x, In x g -> parts x = None) -> exploded g = g.
Proof.
  induction g as [|x g IH]; intros Hs; [reflexivity|].
  unfold exploded in *. cbn [flat_map]. rewrite (Hs x) by (left; reflexivity).
  rewrite IH by (intros y Hy; apply Hs; right; exact Hy). reflexivity.
Qed.

Lemma explode_checks_ok : forall (gdf : frame geom) (g : list geom),
  exploded g <> [] -> ~ In "name" (names gdf) -> explode_checks gdf g = Ok tt.
Proof.
  intros gdf g Hne Hname. unfold explode_checks.
  destruct (exploded g); [contradiction Hne; reflexivity|].
  rewrite (proj2 (mem_not_In _ _) Hname). reflexivity.
Qed.

(** The frame that [explode] returns for single-part geometries. *)
Lemma explode_single_parts :
  forall (gdf : frame geom) (g : list geom) (labels : list Z),
    get_geom "geometry" gdf = Ok g ->
    g <> [] ->
    index gdf = Index labels ->
    NoDup labels ->
    rectangular gdf ->
    (forall x, In x g -> parts x = None) ->
    ~ In "level_0" (names gdf) ->
    ~ In "level_1" (names gdf) ->
    ~ In "name" (names gdf) ->
    explode gdf
    = Ok {| index := MultiIndex (map (fun l => (l, 0%Z)) labels);
            cols := ("geometry", GeomCol g)
                    :: filter (fun nc => negb (mem (fst nc) ["geometry"])) (cols gdf);
            crs := crs gdf |}.
Proof.
  intros gdf g labels Hg Hne Hi Hnd Hrect Hs H0 H1 Hname.
  assert (Hn : nrows gdf = List.length labels) by (unfold nrows; rewrite Hi; reflexivity).
  assert (Hlg : List.length labels = List.length g).
  { apply get_geom_lookup, lookup_In in Hg. apply Hrect in Hg. simpl in Hg. lia. }
  unfold explode. rewrite Hg. cbn [rbind].
  rewrite explode_checks_ok by (try rewrite exploded_single by exact Hs; assumption).
  cbn [rbind]. unfold index_labels at 1. rewrite Hi. cbn [rbind].
  rewrite explode_parts_single by exact Hs.
  rewrite length_map, length_combine, <- Hlg, Nat.min_id.
  rewrite !map_map. cbn [fst snd].
  rewrite (map_ext (fun x : Z * geom => fst x) fst) by reflexivity.
  rewrite (map_ext (fun x : Z * geom => snd x) snd) by reflexivity.
  rewrite map_fst_combine_eq, map_snd_combine_eq by exact Hlg.
  rewrite drop_cols_ok
    by (intros c [<- | []]; eapply get_geom_In_names; exact Hg).
  set (attrs := {| index := index gdf;
                   cols := filter (fun nc => negb (mem (fst nc) ["geometry"])) (cols gdf);
                   crs := crs gdf |}).
  set (zeros := map (fun _ : Z * geom => 0%Z) (combine labels g)).
  assert (Hz : List.length zeros = List.length labels)
    by (unfold zeros; rewrite length_map, length_combine; lia).
  cbn [rbind].
  erewrite merge_ok; [ | reflexivity | exact Hi ]. cbn [rbind].
  unfold merged. rewrite join_pairs_self by exact Hnd. rewrite !map_map. cbn [fst snd cols].
  rewrite map_id.
  assert (Hattr : forall c x, In (c, x) (cols attrs) ->
            In (c, x) (cols gdf) /\ c <> "geometry").
  { intros c x Hin. apply filter_In in Hin. destruct Hin as [Hin Hc]. split; [exact Hin|].
    cbn [fst mem existsb] in Hc. intros ->. discriminate. }
  assert (Hleft : forall c, In c ["level_0"; "level_1"; "geometry"] -> ~ In c (names attrs)).
  { intros c Hc Hin. apply in_map_iff in Hin. destruct Hin as ([c' x] & E & Hin).
    cbn [fst] in E. subst c'. apply Hattr in Hin. destruct Hin as [Hin Hng].
    apply name_in_cols in Hin.
    destruct Hc as [<- | [<- | [<- | []]]]; [exact (H0 Hin) | exact (H1 Hin) | exact (Hng eq_refl)]. }
  cbn [map fst snd]. rewrite !suffixed_notin by (apply Hleft; simpl; auto).
  assert (Hright :
    map (fun nc : string * column geom =>
           (suffixed ["level_0"; "level_1"; "geometry"] "_y" (fst nc),
            col_take (seq 0 (List.length labels)) (snd nc))) (cols attrs)
    = cols attrs).
  { rewrite <- (map_id (cols attrs)) at 2. apply map_ext_in. intros [c x] Hin.
    cbn [fst snd]. f_equal.
    - apply suffixed_notin. intros Hc. apply (Hleft c Hc). eapply name_in_cols. exact Hin.
    - apply Hattr in Hin. destruct Hin as [Hin _]. apply Hrect in Hin.
      rewrite <- Hn, <- Hin. apply col_take_all. }
  change (names {| index := RangeIndex (List.length labels);
                   cols := [("level_0", IntCol labels); ("level_1", IntCol zeros);
                            ("geometry", GeomCol g)];
                   crs := None |})
    with ["level_0"; "level_1"; "geometry"].
  rewrite Hright.
  unfold set_index2, get_int, get_col. cbn [cols app lookup].
  change (String.eqb "level_0" "level_0") with true.
  change (String.eqb "level_0" "level_1") with false.
  change (String.eqb "level_1" "level_1") with true. cbv iota. cbn [rbind].
  cbn [col_take].
  replace (take (seq 0 (List.length labels)) labels) with labels
    by (symmetry; apply take_seq_all).
  replace (take (seq 0 (List.length labels)) zeros) with zeros
    by (rewrite <- Hz; symmetry; apply take_seq_all).
  replace (take (seq 0 (List.length labels)) g) with g
    by (rewrite Hlg; symmetry; apply take_seq_all).
  cbn [filter fst mem existsb negb orb].
  change (String.eqb "level_0" "level_0") with true.
  change (String.eqb "level_1" "level_0") with false.
  change (String.eqb "level_1" "level_1") with true.
  change (String.eqb "geometry" "level_0") with false.
  change (String.eqb "geometry" "level_1") with false.
  cbn [negb orb].
  assert (Hkeep :
    filter (fun nc : string * column geom => negb (mem (fst nc) ["level_0"; "level_1"]))
           (cols attrs) = cols attrs).
  { apply forallb_filter_id. apply forallb_forall. intros [c x] Hin. cbn [fst].
    apply negb_true_iff, mem_not_In. intros Hc.
    apply (Hleft c); [simpl in *; tauto | eapply name_in_cols; exact Hin]. }
  cbn [mem existsb] in Hkeep.
  rewrite Hkeep. unfold get_geom, get_col. cbn [cols lookup].
  change (String.eqb "geometry" "geometry") with true. cbv iota. cbn [rbind index cols].
  unfold zeros. rewrite combine_zeros by exact Hlg. reflexivity.
Qed.

End ExplodeFacts.

Section ExplodeSingleParts.

Context {geom : Type} `{GeoOps geom}.

(** C9, as the code has it.  For a collection of single-part geometries
    with at least one record, unique index labels and no column called
    [level_0], [level_1] or [name], [explode] returns as many records with
    the same geometries, the part number 0 under every parent label, every
    other column as it was, and the CRS of the input. *)
Theorem explode_single_part_collection :
  forall (gdf : frame geom) (g : list geom) (labels : list Z),
    get_geom "geometry" gdf = Ok g ->
    g <> [] ->
    index gdf = Index labels ->
    NoDup labels ->
    rectangular gdf ->
    (forall x, In x g -> parts x = None) ->
    ~ In "level_0" (names gdf) ->
    ~ In "level_1" (names gdf) ->
    ~ In "name" (names gdf) ->
    exists out,
      explode gdf = Ok out /\
      single_parts_kept gdf out /\
      get_geom "geometry" out = Ok g /\
      index out = MultiIndex (map (fun l => (l, 0%Z)) labels).
Proof.
  intros gdf g labels Hg Hne Hi Hnd Hrect Hs H0 H1 Hname.
  eexists. split; [apply explode_single_parts; eassumption|].
  assert (Hgo : forall cs c,
            get_geom "geometry"
              {| index := MultiIndex (map (fun l => (l, 0%Z)) labels);
                 cols := ("geometry", GeomCol g) :: cs; crs := c |} = Ok g)
    by reflexivity.
  split; [|split; [apply Hgo | reflexivity]].
  unfold single_parts_kept. split; [|split; [|split; [|split]]].
  - unfold nrows. cbn [index]. rewrite Hi, length_map. reflexivity.
  - rewrite Hgo, Hg. reflexivity.
  - exists labels. split; [exact Hi | reflexivity].
  - intros c x Hin Hc. cbn [cols]. right. apply filter_In. split; [exact Hin|].
    cbn [fst mem existsb]. apply String.eqb_neq in Hc. rewrite Hc. reflexivity.
  - reflexivity.
Qed.

End ExplodeSingleParts.

(** C9, as stated, fails on collections of single-part geometries: with
    an attribute column called [level_1] the join renames both columns of
    that name and [set_index] finds none; with a column called [name], and
    with no record at all, the [explode()] of line 327 raises. *)
Lemma explode_single_parts_raises :
  (forall g : cells, parts g = None)
  /\ explode ex_levels = Raise (KeyError "level_1")
  /\ explode ex_A = Raise TypeError
  /\ explode {| index := Index []; cols := [("geometry", GeomCol (@nil cells))];
                crs := None |}
     = Raise TypeError
  /\ ~ (exists out, explode ex_levels = Ok out /\ single_parts_kept ex_levels out)
  /\ ~ (exists out, explode ex_A = Ok out /\ single_parts_kept ex_A out).
Proof.
  split; [reflexivity|]. split; [reflexivity|]. split; [reflexivity|].
  split; [reflexivity|].
  split; intros (out & E & _); vm_compute in E; discriminate E.
Qed.

(** * The properties on the example data *)

Ltac names_differ :=
  let c := fresh "c" in
  let Hc := fresh "Hc" in
  let Hin := fresh "Hin" in
  intros c Hc Hin; unfold reserved in Hc; simpl in Hc, Hin;
  repeat match goal with
    | H : _ \/ _ |- _ => destruct H
    | H : False |- _ => destruct H
    end;
  subst; discriminate.

Lemma difference_mode_raises_name_error_witness :
  nth_error [ex_A; ex_B] 0 = Some ex_A /\
  nth_error [ex_A; ex_B] 1 = Some ex_B /\
  exists h',
    spatial_overlays 0 1 "difference" [ex_A; ex_B] = (Raise (NameError "reduce"), h').
Proof.
  split; [reflexivity|]. split; [reflexivity|].
  destruct (@difference_mode_raises_name_error cells _ [ex_A; ex_B] 0 1 ex_A ex_B
              [[1; 2]; [5]] [[2; 3]; [9]] eq_refl eq_refl eq_refl eq_refl eq_refl)
    as (h' & Hr & _).
  exists h'. exact Hr.
Defined.

Lemma unsupported_mode_returns_none_witness :
  "union" <> "intersection" /\
  "union" <> "difference" /\
  spatial_overlays 0 1 "union" [ex_A; ex_B]
  = (Ok PyNone, [ex_A; ex_B] ++ [repaired ex_A [[1; 2]; [5]]; repaired ex_B [[2; 3]; [9]]]).
Proof.
  split; [discriminate|]. split; [discriminate|].
  apply (@unsupported_mode_returns_none cells _ [ex_A; ex_B] 0 1 ex_A ex_B);
    try reflexivity; discriminate.
Defined.

Lemma spatial_overlays_no_empty_geometry_witness :
  ("intersection" = "intersection" \/ "intersection" = "difference") /\
  exists f g,
    nth_error (snd (spatial_overlays 0 1 "intersection" [ex_A; ex_B])) 11 = Some f /\
    get_geom "geometry" f = Ok g /\
    Forall (fun x => is_empty x = false) g.
Proof.
  split; [left; reflexivity|].
  apply (@spatial_overlays_no_empty_geometry cells _ [ex_A; ex_B] 0 1 "intersection");
    [left; reflexivity | vm_compute; reflexivity].
Defined.


Lemma spatial_overlays_repairs_copies_witness :
  nth_error [ex_A; ex_B] 0 = Some ex_A /\
  nth_error [ex_A; ex_B] 1 = Some ex_B /\
  nth_error (snd (spatial_overlays 0 1 "difference" [ex_A; ex_B])) 0 = Some ex_A /\
  nth_error (snd (spatial_overlays 0 1 "difference" [ex_A; ex_B])) 1 = Some ex_B.
Proof.
  split; [reflexivity|]. split; [reflexivity|].
  destruct (@spatial_overlays_repairs_copies cells _ [ex_A; ex_B] 0 1 ex_A ex_B
              [[1; 2]; [5]] [[2; 3]; [9]] "difference" eq_refl eq_refl eq_refl eq_refl)
    as (_ & _ & H1 & H2).
  split; [exact H1 | exact H2].
Defined.

Lemma row_transforms_by_flag_witness :
  getitem ex_row "geometry" = Ok (CGeom [1; 2]) /\
  geom_within_country ex_row [2; 3] = Ok (CGeom [2]) /\
  delete_roads_urb ex_row [2] = Ok (CGeom [1]).
Proof.
  split; [reflexivity|].
  destruct (@row_transforms_by_flag cells _ ex_row [1; 2] [2; 3] [2] eq_refl) as [Hw Hu].
  split; [exact (Hw false eq_refl) | exact (Hu true eq_refl)].
Defined.

Lemma map_roads_closed_world_witness :
  (exists c, classify (Some "trunk") = Ok c /\ In c coarse_classes)
  /\ classify (Some "busway") = Raise (KeyError "busway").
Proof.
  destruct (map_roads_closed_world cells) as (Hp & Ha & _). split.
  - apply Hp. apply mem_In. reflexivity.
  - apply Ha. apply mem_not_In. reflexivity.
Defined.

Lemma filter_tags_frequent_or_major_witness :
  get_str "highway" (ex_roads 1) = Ok [Some "primary"] /\
  exists keep : list bool,
    filter_tags (ex_roads 1) = Ok (mask_rows keep (ex_roads 1)) /\
    nth_error keep 0 = Some true.
Proof.
  split; [reflexivity|].
  destruct (@filter_tags_frequent_or_major (ex_roads 1) [Some "primary"] eq_refl)
    as (keep & Hf & _ & Hk).
  exists keep. split; [exact Hf|].
  apply (Hk 0 (Some "primary") eq_refl).
  exists "primary". split; [reflexivity|]. right. left. reflexivity.
Defined.

Lemma filter_length_below_500_witness :
  mapM (line_length (ex_vincenty 500)) [ex_road 1] = Ok [500%Q] /\
  exists keep : list bool,
    filter_length (ex_vincenty 500) (ex_roads 1)
    = Ok (mask_rows keep (set_col "distance" (NumCol [500%Q]) (ex_roads 1))) /\
    nth_error keep 0 <> Some true.
Proof.
  split; [reflexivity|].
  destruct (@filter_length_below_500 (ex_vincenty 500) (ex_roads 1) [ex_road 1]
              [500%Q] eq_refl eq_refl)
    as (keep & Hf & _ & Hk & _).
  exists keep. split; [exact Hf|].
  intros Hkeep. apply (Hk 0 500%Q eq_refl) in Hkeep.
  revert Hkeep. apply Qle_not_lt. apply Qle_lteq. right. reflexivity.
Defined.

Lemma explode_single_part_collection_witness :
  NoDup [10; 11]%Z /\
  rectangular ex_zones /\
  ~ In "name" (names ex_zones) /\
  exists out,
    explode ex_zones = Ok out /\
    single_parts_kept ex_zones out /\
    index out = MultiIndex [(10, 0); (11, 0)]%Z.
Proof.
  assert (Hnd : NoDup [10; 11]%Z).
  { constructor; [simpl; intros [E | []]; discriminate|].
    constructor; [intros [] | constructor]. }
  assert (Hrect : rectangular ex_zones).
  { intros c x Hin. simpl in Hin.
    destruct Hin as [[= <- <-] | [[= <- <-] | []]]; reflexivity. }
  assert (Hname : ~ In "name" (names ex_zones))
    by (simpl; intros [E | [E | []]]; discriminate).
  split; [exact Hnd|]. split; [exact Hrect|]. split; [exact Hname|].
  assert (Hne : [[1; 2]; [5]] <> @nil cells) by discriminate.
  destruct (@explode_single_part_collection cells _ ex_zones [[1; 2]; [5]] [10; 11]%Z
              eq_refl Hne eq_refl Hnd Hrect)
    as (out & He & Hk & _ & Hi).
  - intros x _. reflexivity.
  - simpl. intros [E | [E | []]]; discriminate.
  - simpl. intros [E | [E | []]]; discriminate.
  - exact Hname.
  - exists out. split; [exact He|]. split; [exact Hk | exact Hi].
Defined.

(** The boundary of the length filter: a road of exactly 500 is dropped,
    one of 499.9 is kept. *)
Example length_500_is_dropped :
  rbind (filter_length (ex_vincenty 500) (ex_roads 1)) (fun f => Ok (nrows f)) = Ok 0.
Proof. reflexivity. Qed.

Example length_below_500_is_kept :
  rbind (filter_length (ex_vincenty (4999 # 10)) (ex_roads 1)) (fun f => Ok (nrows f))
  = Ok 1.
Proof. reflexivity. Qed.

(** The tag filter: 21 occurrences are enough, 20 are not, and [trunk] is
    kept however rare. *)
(** The length that is compared is the float that line 147 computes: three
    segments of a third of 500 each, the nearest float below it, add up to
    exactly 500 as floats, and the road is dropped. *)
Example length_rounded_to_500_is_dropped :
  let third := round53 (500 # 3) in
  (third + third + third < 500)%Q
  /\ line_length (ex_vincenty third) (ex_road 3) = Ok 500%Q
  /\ rbind (filter_length (ex_vincenty third) (ex_roads 3)) (fun f => Ok (nrows f)) = Ok 0.
Proof. vm_compute. repeat split. Qed.

Example frequent_and_major_tags_are_kept :
  rbind (filter_tags (ex_tagged 21)) (get_str "highway")
  = Ok (repeat (Some "service") 21 ++ [Some "trunk"]).
Proof. vm_compute. reflexivity. Qed.

Example twenty_is_not_frequent :
  rbind (filter_tags (ex_tagged 20)) (get_str "highway") = Ok [Some "trunk"].
Proof. vm_compute. reflexivity. Qed.

(** A tag that is not in the table stops [map_roads]. *)
Example unknown_tag_raises :
  map_roads (set_col "fclass" (StrCol [Some "busway"]) (ex_roads 1))
  = Raise (KeyError "busway").
Proof. reflexivity. Qed.

(** * Further properties of the code *)

(** ** [spatial_overlays]: the result is a new object *)

Section FreshResult.

Context {geom : Type} `{GeoOps geom}.

Ltac keeps_fresh :=
  repeat first
    [ keeps_step
    | apply keeps_ret; simpl; assumption ].

Lemma intersection_branch_fresh : forall (h0 : heap geom) df1 df2,
  fresh h0 df1 -> keeps h0 (intersection_branch df1 df2) (fresh_val h0).
Proof.
  intros. unfold intersection_branch. cbv zeta.
  eapply keeps_bind; [apply keeps_add_candidates; assumption | intros ? ?].
  keeps_fresh.
Qed.

Lemma difference_branch_fresh : forall (h0 : heap geom) df1 df2,
  fresh h0 df1 -> keeps h0 (difference_branch df1 df2) (fresh_val h0).
Proof.
  intros. unfold difference_branch.
  eapply keeps_bind; [apply keeps_add_candidates; assumption | intros ? ?].
  keeps_fresh.
Qed.

Lemma spatial_overlays_fresh : forall (h0 : heap geom) df1 df2 how,
  keeps h0 (spatial_overlays df1 df2 how) (fresh_val h0).
Proof.
  intros. unfold spatial_overlays.
  eapply keeps_bind; [apply keeps_copy | intros d1 Hd1].
  eapply keeps_bind; [apply keeps_copy | intros d2 Hd2].
  eapply keeps_bind; [apply keeps_repair; assumption | intros ? ?].
  eapply keeps_bind; [apply keeps_repair; assumption | intros ? ?].
  destruct (String.eqb how "intersection").
  - apply intersection_branch_fresh; assumption.
  - destruct (String.eqb how "difference").
    + apply difference_branch_fresh; assumption.
    + apply keeps_ret. exact I.
Qed.

(** X1. A frame that [spatial_overlays] returns was allocated by the call:
    it is in the heap the call leaves, at a reference that no object of
    the caller had, the two inputs included. *)
Theorem spatial_overlays_returns_new_object :
  forall (h : heap geom) (df1 df2 : ref) (how : string) (out : ref) (h' : heap geom),
    spatial_overlays df1 df2 how h = (Ok (PyFrame out), h') ->
    (exists f, nth_error h' out = Some f) /\
    List.length h <= out /\
    (forall r f, nth_error h r = Some f -> r <> out).
Proof.
  intros h df1 df2 how out h' Hr.
  assert (Hfresh : List.length h <= out).
  { destruct (spatial_overlays_fresh h df1 df2 how []) as [_ Hv].
    rewrite app_nil_r in Hv. apply (Hv (PyFrame out)). rewrite Hr. reflexivity. }
  split; [|split; [exact Hfresh|]].
  - unfold spatial_overlays in Hr. inv_bind.
    destruct (String.eqb how "intersection").
    + destruct (intersection_branch_nonempty _ _ _ Hr) as (f & _ & Hf & _). eauto.
    + destruct (String.eqb how "difference").
      * destruct (difference_branch_nonempty _ _ _ Hr) as (f & _ & Hf & _). eauto.
      * apply ret_inv in Hr. destruct Hr as [Hr _]. discriminate Hr.
  - intros r f Hf E. subst r.
    assert (out < List.length h) by (apply nth_error_Some; congruence). lia.
Qed.

End FreshResult.

(** ** Assigning a column *)

Section AssignFacts.

Variable geom : Type.

Implicit Types (l r : list (string * column geom)).

Lemma assign_assign : forall c v w l, assign c v (assign c w l) = assign c v l.
Proof.
  intros c v w. induction l as [|[n x] l IH]; simpl.
  - rewrite String.eqb_refl. reflexivity.
  - destruct (String.eqb n c) eqn:E; simpl; rewrite E; [reflexivity|].
    rewrite IH. reflexivity.
Qed.

End AssignFacts.

(** ** [get_country]: the commands and the reads *)

Section ScriptFacts.

Context {world : Type} `{Script.OS world}.

Variable vincenty : point -> point -> result Q.

Lemma commands_app : forall l1 l2, commands (l1 ++ l2) = commands l1 ++ commands l2.
Proof. intros. unfold commands. apply flat_map_app. Qed.

Lemma reads_app : forall p l1 l2, reads p (l1 ++ l2) = reads p l1 + reads p l2.
Proof. intros. unfold reads. rewrite filter_app, length_app. reflexivity. Qed.

Lemma slept_app : forall l1 l2, slept (l1 ++ l2) = slept l1 + slept l2.
Proof.
  intros l1 l2. induction l1 as [|e l1 IH]; [reflexivity|].
  simpl. rewrite IH. destruct e; lia.
Qed.

(** The three outcomes of lines 130-138. *)
Lemma load_shapefile_run : forall (path : string) (w : world) (log : list Script.event),
  Script.load_shapefile path (w, log)
  = match Script.read_file path w with
    | Some f => (inl f, (w, log ++ [Script.ReadFile path]))
    | None =>
        match Script.read_file path (Script.sleep 30 w) with
        | Some f =>
            (inl f, (Script.sleep 30 w,
                     log ++ [Script.ReadFile path; Script.Sleep 30; Script.ReadFile path]))
        | None =>
            (match Script.read_file path (Script.sleep 60 (Script.sleep 30 w)) with
             | Some f => inl f
             | None => inr Script.DriverError
             end,
             (Script.sleep 60 (Script.sleep 30 w),
              log ++ [Script.ReadFile path; Script.Sleep 30; Script.ReadFile path;
                      Script.Sleep 60; Script.ReadFile path]))
        end
    end.
Proof.
  intros path w log.
  unfold Script.load_shapefile, Script.try_except, Script.io_bind,
    Script.gpd_read_file, Script.time_sleep. cbn [fst snd].
  destruct (Script.read_file path w); [reflexivity|].
  destruct (Script.read_file path (Script.sleep 30 w));
    rewrite <- !app_assoc; reflexivity.
Qed.

Lemma reads_read : forall path, reads path [Script.ReadFile path] = 1.
Proof.
  intros path. unfold reads. cbn [filter]. rewrite String.eqb_refl. reflexivity.
Qed.

Lemma load_shapefile_log : forall (path : string) (s : Script.state),
  let r := fst (Script.load_shapefile path s) in
  let s' := snd (Script.load_shapefile path s) in
  exists tail,
    snd s' = snd s ++ tail /\
    commands tail = [] /\
    1 <= reads path tail <= 3 /\
    match r with
    | inl f => Script.read_file path (fst s') = Some f
    | inr e => e = Script.DriverError /\ Script.read_file path (fst s') = None
    end.
Proof.
  intros path [w log]. cbv zeta. rewrite load_shapefile_run.
  pose proof (reads_read path) as Hone.
  destruct (Script.read_file path w) as [f|] eqn:E1; cbn [fst snd].
  { exists [Script.ReadFile path]. rewrite Hone. repeat split; auto. }
  destruct (Script.read_file path (Script.sleep 30 w)) as [f|] eqn:E2; cbn [fst snd].
  { exists ([Script.ReadFile path] ++ [Script.Sleep 30] ++ [Script.ReadFile path]).
    rewrite !reads_app, Hone. repeat split; simpl; auto. }
  exists ([Script.ReadFile path] ++ [Script.Sleep 30] ++ [Script.ReadFile path]
          ++ [Script.Sleep 60] ++ [Script.ReadFile path]).
  rewrite !reads_app, Hone.
  destruct (Script.read_file path (Script.sleep 60 (Script.sleep 30 w))) as [f|] eqn:E3;
    cbn [fst snd]; repeat split; simpl; auto.
Qed.

(** X3. Loading the shapefile reads it once, twice or three times and runs
    no command; it sleeps 30 seconds before the second read and 60 more
    before the third, so 90 seconds at most.  The frame it returns is the
    one that can be read in the state it leaves; it raises only when the
    third read has failed as well, and then it raises the reader's
    error. *)
Theorem load_shapefile_gives_up_after_three_reads :
  forall (path : string) (s : Script.state),
    let r := fst (Script.load_shapefile path s) in
    let s' := snd (Script.load_shapefile path s) in
    exists tail,
      snd s' = snd s ++ tail /\
      commands tail = [] /\
      1 <= reads path tail <= 3 /\
      slept tail = match reads path tail with 1 => 0 | 2 => 30 | _ => 90 end /\
      match r with
      | inl f => Script.read_file path (fst s') = Some f
      | inr e => e = Script.DriverError /\ reads path tail = 3
                 /\ Script.read_file path (fst s') = None
      end.
Proof.
  intros path [w log]. cbv zeta. rewrite load_shapefile_run.
  pose proof (reads_read path) as Hone.
  assert (Hsleep : forall n, reads path [Script.Sleep n] = 0) by reflexivity.
  destruct (Script.read_file path w) as [f|] eqn:E1; cbn [fst snd].
  - exists [Script.ReadFile path]. rewrite Hone. repeat split; simpl; auto; lia.
  - destruct (Script.read_file path (Script.sleep 30 w)) as [f|] eqn:E2; cbn [fst snd].
    + exists ([Script.ReadFile path] ++ [Script.Sleep 30] ++ [Script.ReadFile path]).
      rewrite !reads_app, Hone, Hsleep. repeat split; simpl; auto; lia.
    + exists ([Script.ReadFile path] ++ [Script.Sleep 30] ++ [Script.ReadFile path]
              ++ [Script.Sleep 60] ++ [Script.ReadFile path]).
      rewrite !reads_app, Hone, !Hsleep.
      destruct (Script.read_file path (Script.sleep 60 (Script.sleep 30 w)))
        as [f|] eqn:E3; repeat split; simpl; auto; lia.
Qed.

(** X4. [get_country] runs the clipping command exactly when the country's
    [.osm.pbf] file does not exist, and then the extraction command exactly
    when the shapefile does not exist after that or [overwrite] is set: at
    most these two commands, in this order, the extraction reading the
    file that the clipping writes.  It then reads the shapefile, three
    times at most, whatever the commands did. *)
Theorem get_country_commands :
  forall (country continent_osm base_path : string) (overwrite RAI : bool)
         (w : world) (log : list Script.event),
    let poly := Script.path_join (Script.path_join base_path "poly_files")
                                 (country ++ ".poly")%string in
    let shp := Script.path_join (Script.path_join base_path "country_data")
                                (country ++ ".shp")%string in
    let pbf := Script.path_join (Script.path_join base_path "osm_country")
                                (country ++ ".osm.pbf")%string in
    let clip := ("osmconvert64 " ++ continent_osm ++ " -B=" ++ poly
                 ++ " --complete-ways -o=" ++ pbf)%string in
    let w1 := if Script.path_exists pbf w then w else Script.system clip w in
    let s' := snd (Script.get_country vincenty country continent_osm base_path
                                      overwrite RAI (w, log)) in
    exists tail,
      snd s' = log ++ tail /\
      commands tail
      = (if Script.path_exists pbf w then [] else [clip])
        ++ (if negb (Script.path_exists shp w1) || overwrite
            then [Script.ogr2ogr "highway" shp pbf] else []) /\
      1 <= reads shp tail <= 3.
Proof.
  intros country continent_osm base_path overwrite RAI w log poly shp pbf clip w1 s'.
  subst s'. unfold Script.get_country. fold poly shp pbf.
  unfold Script.io_bind at 1. unfold Script.os_path_exists at 1. cbn [fst snd].
  assert (Hrest : forall (w2 : world) (log2 : list Script.event) (cs : list string),
             commands log2 = cs -> reads shp log2 = 0 ->
             exists tail,
               snd (snd (Script.io_bind (Script.load_shapefile shp)
                           (fun load_country =>
                              Script.pure (get_country vincenty load_country RAI))
                           (w2, log ++ log2)))
               = log ++ tail /\
               commands tail = cs /\ 1 <= reads shp tail <= 3).
  { intros w2 log2 cs Hcs Hr2.
    destruct (load_shapefile_log shp (w2, log ++ log2)) as (tail & Hlog & Hc & Hr & _).
    cbn [snd] in Hlog. exists (log2 ++ tail).
    unfold Script.io_bind.
    destruct (Script.load_shapefile shp (w2, log ++ log2)) as [[f|e] [w3 log3]];
      cbn [snd] in *; unfold Script.pure; cbn [snd]; subst log3;
      rewrite commands_app, reads_app, Hc, Hcs, Hr2, app_nil_r, <- app_assoc;
      (split; [reflexivity | split; [reflexivity | exact Hr]]). }
  unfold Script.clip_osm, Script.extract_osm, Script.os_system, Script.io_ret,
    Script.io_bind at 1 2 3, Script.os_path_exists.
  fold clip. subst w1.
  destruct (Script.path_exists pbf w) eqn:Epbf; cbn [negb fst snd app].
  - destruct (negb (Script.path_exists shp w) || overwrite) eqn:Eshp; cbn [fst snd].
    + apply (Hrest _ [Script.System (Script.ogr2ogr "highway" shp pbf)]); reflexivity.
    + specialize (Hrest w [] [] eq_refl eq_refl). rewrite app_nil_r in Hrest.
      exact Hrest.
  - destruct (negb (Script.path_exists shp (Script.system clip w)) || overwrite) eqn:Eshp;
      cbn [fst snd].
    + rewrite <- app_assoc.
      apply (Hrest _ [Script.System clip;
                      Script.System (Script.ogr2ogr "highway" shp pbf)]); reflexivity.
    + apply (Hrest _ [Script.System clip]); reflexivity.
Qed.

End ScriptFacts.

(** ** [get_country]: what the returned frame holds *)

Section ColumnFacts.

Variable geom : Type.

Implicit Types (f : frame geom).

Lemma get_col_mask_rows : forall c m f x,
  get_col c f = Ok x -> get_col c (mask_rows m f) = Ok (col_mask m x).
Proof.
  unfold get_col, mask_rows. simpl. intros c m f x. rewrite lookup_map_snd.
  destruct (lookup c (cols f)); simpl; [|discriminate].
  intros [= ->]. reflexivity.
Qed.

Lemma get_col_mask_rows_inv : forall c m f y,
  get_col c (mask_rows m f) = Ok y -> exists x, get_col c f = Ok x /\ y = col_mask m x.
Proof.
  unfold get_col, mask_rows. simpl. intros c m f y. rewrite lookup_map_snd.
  destruct (lookup c (cols f)) as [x|]; simpl; [|discriminate].
  intros [= <-]. exists x. split; reflexivity.
Qed.

Lemma get_str_mask_rows : forall c m f l,
  get_str c f = Ok l -> get_str c (mask_rows m f) = Ok (mask m l).
Proof.
  unfold get_str. intros c m f l.
  destruct (get_col c f) as [x|] eqn:E; [|discriminate].
  rewrite (get_col_mask_rows _ m _ E).
  destruct x; simpl; try discriminate. intros [= ->]. reflexivity.
Qed.

Lemma get_num_mask_rows : forall c m f l,
  get_num c f = Ok l -> get_num c (mask_rows m f) = Ok (mask m l).
Proof.
  unfold get_num. intros c m f l.
  destruct (get_col c f) as [x|] eqn:E; [|discriminate].
  rewrite (get_col_mask_rows _ m _ E).
  destruct x; simpl; try discriminate. intros [= ->]. reflexivity.
Qed.

Lemma get_str_set_col_other : forall c c' v f,
  c <> c' -> get_str c' (set_col c v f) = get_str c' f.
Proof.
  intros. unfold get_str. rewrite get_col_set_col_other by assumption. reflexivity.
Qed.

Lemma get_num_set_col_other : forall c c' v f,
  c <> c' -> get_num c' (set_col c v f) = get_num c' f.
Proof.
  intros. unfold get_num. rewrite get_col_set_col_other by assumption. reflexivity.
Qed.

Lemma get_str_In_names : forall c f l, get_str c f = Ok l -> In c (names f).
Proof.
  unfold get_str, get_col, names. intros c f l.
  destruct (lookup c (cols f)) as [x|] eqn:E; [|discriminate].
  intros _. apply lookup_In in E. apply in_map_iff. exists (c, x). auto.
Qed.

Lemma get_str_notin : forall c f, ~ In c (names f) -> get_str c f = Raise (KeyError c).
Proof.
  unfold get_str, get_col, names. intros c f Hn.
  apply lookup_None in Hn. rewrite Hn. reflexivity.
Qed.

End ColumnFacts.

Lemma Forall_mask : forall {A} (P : A -> Prop) (m : list bool) (l : list A),
  Forall P l -> Forall P (mask m l).
Proof.
  intros A P m. induction m as [|b m IH]; intros [|x l] Hl; simpl; try constructor.
  inversion Hl; subst. destruct b; [constructor|]; auto.
Qed.

Lemma Forall_mask_true : forall {A} (p : A -> bool) (l : list A),
  Forall (fun x => p x = true) (mask (map p l) l).
Proof.
  intros A p l. rewrite mask_map_filter. apply Forall_forall.
  intros x Hx. apply filter_In in Hx. apply Hx.
Qed.

Lemma mapM_Forall2 : forall {A B} (f : A -> result B) l ys,
  mapM f l = Ok ys -> Forall2 (fun x y => f x = Ok y) l ys.
Proof.
  induction l as [|x l IH]; simpl; intros ys.
  - intros [= <-]. constructor.
  - destruct (f x) as [y|] eqn:E; [|discriminate].
    destruct (mapM f l) as [ys'|]; [|discriminate].
    intros [= <-]. constructor; [exact E | apply IH; reflexivity].
Qed.

Lemma classify_class : forall x c, classify x = Ok c -> In c coarse_classes.
Proof.
  intros [tag|] c; [|discriminate]. unfold classify, dict_getitem.
  destruct (dict_find dict_map tag) as [v|] eqn:E; [|discriminate].
  intros [= <-]. apply dict_map_classes. eapply dict_find_In. exact E.
Qed.

Section CountryResult.

Variable vincenty : point -> point -> result Q.

(** The tags that lines 140-143 keep, counted in the frame as loaded. *)
Lemma isin_kept : forall (tags : list (option string)),
  let uniq := nodup string_dec
                (map fst (filter (fun tn => 20 <? snd tn) (value_counts tags))
                 ++ ["primary"; "secondary"; "trunk"; "motorway"]) in
  Forall (fun x => exists t, x = Some t /\
                     (20 < count_occ option_string_dec tags (Some t) \/ In t major_tags))
         (mask (isin uniq tags) tags).
Proof.
  intros tags uniq. unfold isin. rewrite mask_map_filter. apply Forall_forall.
  intros [t|] Hx; apply filter_In in Hx; destruct Hx as [_ Hx]; [|discriminate].
  exists t. split; [reflexivity|].
  apply mem_In, nodup_In, in_app_or in Hx.
  destruct Hx as [Hx | Hx]; [left; apply In_frequent; exact Hx | right; exact Hx].
Qed.

Lemma filter_tags_inv : forall f out,
  filter_tags f = Ok out ->
  exists tags, get_str "highway" f = Ok tags /\
    exists keep, out = mask_rows keep f /\
      Forall (fun x => exists t, x = Some t /\
                (20 < count_occ option_string_dec tags (Some t) \/ In t major_tags))
             (mask keep tags).
Proof.
  intros f out. unfold filter_tags.
  destruct (get_str "highway" f) as [tags|] eqn:E; [|discriminate].
  cbn [rbind]. intros [= <-]. exists tags. split; [reflexivity|].
  eexists. split; [reflexivity|]. apply isin_kept.
Qed.

Lemma filter_length_inv : forall f out,
  filter_length vincenty f = Ok out ->
  exists d keep,
    out = mask_rows keep (set_col "distance" (NumCol d) f) /\
    Forall (fun L => (L < 500)%Q) (mask keep d).
Proof.
  intros f out. unfold filter_length.
  destruct (get_geom "geometry" f) as [g|]; [|discriminate]. cbn [rbind].
  destruct (mapM (line_length vincenty) g) as [d|]; [|discriminate]. cbn [rbind].
  unfold get_num. rewrite get_col_set_col_same. cbn [rbind].
  intros [= <-]. exists d. eexists. split; [reflexivity|].
  eapply Forall_impl; [|apply Forall_mask_true].
  intros L HL. apply Qltb_lt. exact HL.
Qed.

Lemma map_roads_inv : forall (f out : frame linegeom),
  map_roads f = Ok out ->
  exists tags roads,
    get_str "fclass" f = Ok tags /\
    Forall2 (fun x c => classify x = Ok c) tags roads /\
    out = set_col "roads" (StrCol (map Some roads)) f.
Proof.
  intros f out. unfold map_roads.
  destruct (get_str "fclass" f) as [tags|]; [|discriminate]. cbn [rbind].
  destruct (mapM classify tags) as [roads|] eqn:E; [|discriminate]. cbn [rbind].
  intros [= <-]. exists tags, roads. split; [reflexivity|].
  split; [apply mapM_Forall2; exact E | reflexivity].
Qed.

(** X5. Whatever frame [get_country] returns from a loaded frame: its
    [roads] column holds, row by row, the class that the table gives for
    the [fclass] tag of the row, one of the five coarse classes; every
    [highway] tag in it is a tag that occurs more than 20 times in the
    loaded frame or one of the four major tags, and none is null; and,
    unless [RAI] is set, its [distance] column holds only lengths below
    500. *)
Theorem get_country_result :
  forall (f out : frame linegeom) (RAI : bool),
    get_country vincenty f RAI = Ok out ->
    exists (tags : list (option string)),
      get_str "highway" f = Ok tags /\
      (exists fclass roads,
         get_str "fclass" out = Ok fclass /\
         get_str "roads" out = Ok (map Some roads) /\
         Forall2 (fun x c => classify x = Ok c /\ In c coarse_classes) fclass roads) /\
      (exists highway,
         get_str "highway" out = Ok highway /\
         Forall (fun x => exists t, x = Some t /\
                   (20 < count_occ option_string_dec tags (Some t) \/ In t major_tags))
                highway) /\
      (RAI = false ->
       exists d, get_num "distance" out = Ok d /\ Forall (fun L => (L < 500)%Q) d).
Proof.
  intros f out RAI Hrun. unfold get_country in Hrun.
  destruct (filter_tags f) as [f1|] eqn:E1; [|discriminate]. cbn [rbind] in Hrun.
  apply filter_tags_inv in E1. destruct E1 as (tags & Htags & keep & -> & Hkeep).
  exists tags. split; [exact Htags|].
  assert (Hhw1 : get_str "highway" (mask_rows keep f) = Ok (mask keep tags))
    by (apply get_str_mask_rows; exact Htags).
  assert (Hroads : forall f2,
             map_roads f2 = Ok out ->
             (exists fclass roads,
                get_str "fclass" out = Ok fclass /\
                get_str "roads" out = Ok (map Some roads) /\
                Forall2 (fun x c => classify x = Ok c /\ In c coarse_classes) fclass roads)
             /\ get_str "highway" out = get_str "highway" f2
             /\ get_num "distance" out = get_num "distance" f2).
  { intros f2 Hm. apply map_roads_inv in Hm.
    destruct Hm as (fclass & roads & Hf & Hr & ->). split; [|split].
    - exists fclass, roads. split; [|split].
      + rewrite get_str_set_col_other by discriminate. exact Hf.
      + unfold get_str. rewrite get_col_set_col_same. reflexivity.
      + eapply Forall2_impl; [|exact Hr]. intros x c Hc.
        split; [exact Hc | eapply classify_class; exact Hc].
    - apply get_str_set_col_other. discriminate.
    - apply get_num_set_col_other. discriminate. }
  destruct RAI; cbn [negb rbind] in Hrun.
  - destruct (Hroads _ Hrun) as (Hr & Hh & _). split; [exact Hr | split].
    + exists (mask keep tags). split; [|exact Hkeep]. rewrite Hh. exact Hhw1.
    + discriminate.
  - destruct (filter_length vincenty (mask_rows keep f)) as [f2|] eqn:E2; [|discriminate].
    cbn [rbind] in Hrun. apply filter_length_inv in E2.
    destruct E2 as (d & keep2 & -> & Hd).
    destruct (Hroads _ Hrun) as (Hr & Hh & Hdist). split; [exact Hr | split].
    + exists (mask keep2 (mask keep tags)). split.
      * rewrite Hh. apply get_str_mask_rows.
        rewrite get_str_set_col_other by discriminate. exact Hhw1.
      * apply Forall_mask. exact Hkeep.
    + intros _. exists (mask keep2 d). split; [|exact Hd].
      rewrite Hdist. apply get_num_mask_rows. unfold get_num.
      rewrite get_col_set_col_same. reflexivity.
Qed.

Lemma filters_keep_names : forall (f f2 : frame linegeom) (RAI : bool),
  (f1 <- filter_tags f ;;
   if negb RAI then filter_length vincenty f1 else Ok f1)%res = Ok f2 ->
  forall c, In c (names f2) -> c = "distance" \/ In c (names f).
Proof.
  intros f f2 RAI Hrun c.
  destruct (filter_tags f) as [f1|] eqn:E1; [|discriminate]. cbn [rbind] in Hrun.
  apply filter_tags_inv in E1. destruct E1 as (tags & _ & keep & -> & _).
  destruct RAI; cbn [negb] in Hrun.
  - injection Hrun as <-. rewrite names_mask_rows. auto.
  - apply filter_length_inv in Hrun. destruct Hrun as (d & keep2 & -> & _).
    rewrite names_mask_rows, In_names_set_col, names_mask_rows. auto.
Qed.

Lemma map_roads_needs_fclass : forall f : frame linegeom,
  ~ In "fclass" (names f) -> map_roads f = Raise (KeyError "fclass").
Proof.
  intros f Hn. unfold map_roads. rewrite get_str_notin by exact Hn. reflexivity.
Qed.

Lemma get_country_returns_with_fclass : forall (f out : frame linegeom) (RAI : bool),
  get_country vincenty f RAI = Ok out -> In "fclass" (names f).
Proof.
  intros f out RAI Hrun.
  destruct (in_dec string_dec "fclass" (names f)) as [Hin | Hn]; [exact Hin|].
  exfalso. unfold get_country in Hrun.
  destruct (filter_tags f) as [f1|] eqn:E1; [|discriminate]. cbn [rbind] in Hrun.
  destruct (if negb RAI then filter_length vincenty f1 else Ok f1) as [f2|] eqn:E2;
    [|discriminate].
  cbn [rbind] in Hrun. rewrite map_roads_needs_fclass in Hrun; [discriminate|].
  intros Hin.
  assert (Hf2 : (f1 <- filter_tags f ;;
                 if negb RAI then filter_length vincenty f1 else Ok f1)%res = Ok f2)
    by (rewrite E1; cbn [rbind]; exact E2).
  destruct (filters_keep_names _ _ Hf2 _ Hin) as [E | Hf];
    [discriminate E | exact (Hn Hf)].
Qed.

(** X6. [get_country] classifies by the column [fclass]: from a loaded
    frame that has no column of that name it never returns a frame,
    whatever [RAI] is, and when the filters of lines 140-148 go through,
    what it raises is the [KeyError] of line 306. *)
Theorem get_country_needs_fclass :
  forall (f : frame linegeom) (RAI : bool),
    ~ In "fclass" (names f) ->
    (forall out, get_country vincenty f RAI <> Ok out) /\
    (forall f2,
       (f1 <- filter_tags f ;;
        if negb RAI then filter_length vincenty f1 else Ok f1)%res = Ok f2 ->
       get_country vincenty f RAI = Raise (KeyError "fclass")).
Proof.
  intros f RAI Hn.
  assert (Hraise : forall f2,
             (f1 <- filter_tags f ;;
              if negb RAI then filter_length vincenty f1 else Ok f1)%res = Ok f2 ->
             get_country vincenty f RAI = Raise (KeyError "fclass")).
  { intros f2 Hrun. pose proof (filters_keep_names _ _ Hrun) as Hnames.
    unfold get_country.
    destruct (filter_tags f) as [f1|]; [|discriminate]. cbn [rbind] in *.
    rewrite Hrun. cbn [rbind]. apply map_roads_needs_fclass.
    intros Hin. destruct (Hnames _ Hin) as [E | Hin']; [discriminate | exact (Hn Hin')]. }
  split; [|exact Hraise].
  intros out Hrun. unfold get_country in Hrun.
  destruct (filter_tags f) as [f1|] eqn:E1; [|discriminate]. cbn [rbind] in Hrun.
  destruct (if negb RAI then filter_length vincenty f1 else Ok f1) as [f2|] eqn:E2;
    [|discriminate].
  cbn [rbind] in Hrun. specialize (Hraise f2).
  unfold get_country in Hraise. rewrite E1 in Hraise. cbn [rbind] in Hraise.
  rewrite E2 in Hraise. cbn [rbind] in Hraise. rewrite Hraise in Hrun; [discriminate|].
  reflexivity.
Qed.

End CountryResult.

Section ScriptResult.

Context {world : Type} `{Script.OS world}.

Variable vincenty : point -> point -> result Q.

(** X7. A frame that the whole of [get_country] returns is what lines
    140-159 make of the shapefile as it can be read in the state the call
    leaves, and this shapefile has a column [fclass]; an exception of
    lines 140-159 is passed on as it is, and the reader's error comes out
    only when the shapefile cannot be read in the state the call leaves. *)
Theorem get_country_processes_the_shapefile :
  forall (country continent_osm base_path : string) (overwrite RAI : bool)
         (s : Script.state),
    let shp := Script.path_join (Script.path_join base_path "country_data")
                                (country ++ ".shp")%string in
    let r := fst (Script.get_country vincenty country continent_osm base_path
                                     overwrite RAI s) in
    let s' := snd (Script.get_country vincenty country continent_osm base_path
                                      overwrite RAI s) in
    match r with
    | inl out =>
        exists f, Script.read_file shp (fst s') = Some f /\
                  get_country vincenty f RAI = Ok out /\
                  In "fclass" (names f)
    | inr (Script.Python e) =>
        exists f, Script.read_file shp (fst s') = Some f /\
                  get_country vincenty f RAI = Raise e
    | inr Script.DriverError => Script.read_file shp (fst s') = None
    end.
Proof.
  intros country continent_osm base_path overwrite RAI s shp r s'.
  assert (Hrun : exists s4,
             Script.get_country vincenty country continent_osm base_path overwrite RAI s
             = Script.io_bind (Script.load_shapefile shp)
                 (fun load_country => Script.pure (get_country vincenty load_country RAI))
                 s4).
  { unfold Script.get_country. fold shp.
    unfold Script.io_bind at 1 2 3 4, Script.os_path_exists, Script.clip_osm,
      Script.extract_osm, Script.os_system, Script.io_ret.
    destruct (negb (Script.path_exists _ (fst s)));
      cbn [fst snd];
      match goal with
      | |- context [if ?b then _ else _] => destruct b
      end; eexists; reflexivity. }
  destruct Hrun as [s4 Hrun]. subst r s'. rewrite Hrun. clear Hrun.
  destruct (load_shapefile_log shp s4) as (tail & _ & _ & _ & Hres).
  unfold Script.io_bind.
  destruct (Script.load_shapefile shp s4) as [[f|e] s5]; cbn [fst snd] in *.
  - unfold Script.pure.
    destruct (get_country vincenty f RAI) as [out|e] eqn:Eg; cbn [fst snd].
    + exists f. split; [exact Hres | split; [exact Eg|]].
      eapply get_country_returns_with_fclass. exact Eg.
    + exists f. split; [exact Hres | exact Eg].
  - destruct Hres as (-> & Hnone). exact Hnone.
Qed.

End ScriptResult.

(** ** [get_country]: filtering twice *)

Lemma mask_repeat_true : forall {A} (n : nat) (l : list A),
  List.length l <= n -> mask (repeat true n) l = l.
Proof.
  intros A n. induction n as [|n IH]; intros [|x l] Hl; simpl in *;
    try reflexivity; [lia|].
  rewrite IH by lia. reflexivity.
Qed.

Lemma length_mask_eq : forall {A B} (m : list bool) (l1 : list A) (l2 : list B),
  List.length l1 = List.length l2 ->
  List.length (mask m l1) = List.length (mask m l2).
Proof.
  intros A B m. induction m as [|b m IH]; intros [|x l1] [|y l2] Hl; simpl in *;
    try reflexivity; try discriminate.
  destruct b; simpl; [f_equal|]; apply IH; lia.
Qed.

Lemma map_all_true : forall {A} (p : A -> bool) (l : list A),
  (forall x, In x l -> p x = true) -> map p l = repeat true (List.length l).
Proof.
  intros A p l. induction l as [|x l IH]; intros Hall; simpl; [reflexivity|].
  rewrite (Hall x) by (left; reflexivity).
  rewrite IH by (intros; apply Hall; right; assumption). reflexivity.
Qed.

Lemma count_occ_filter : forall (p : option string -> bool) l x,
  p x = true ->
  count_occ option_string_dec (filter p l) x = count_occ option_string_dec l x.
Proof.
  intros p l x Hp. induction l as [|y l IH]; simpl; [reflexivity|].
  destruct (option_string_dec y x) as [-> | Hne].
  - rewrite Hp. simpl. destruct (option_string_dec x x); [|congruence].
    rewrite IH. reflexivity.
  - destruct (p y); simpl; [|exact IH].
    destruct (option_string_dec y x); [congruence | exact IH].
Qed.

Section FilterTwice.

Lemma col_mask_all : forall (n : nat) (x : column linegeom),
  col_length x <= n -> col_mask (repeat true n) x = x.
Proof.
  intros n x Hx. destruct x; simpl in *; rewrite mask_repeat_true by exact Hx;
    reflexivity.
Qed.

Lemma col_length_mask : forall (m : list bool) (x : column linegeom) {B} (l : list B),
  col_length x = List.length l ->
  col_length (col_mask m x) = List.length (mask m l).
Proof.
  intros m x B l Hx. destruct x; simpl in *; apply length_mask_eq; exact Hx.
Qed.

(** X8. Filtering the tags a second time changes nothing: in a frame whose
    columns all have one value per row, the rows that lines 140-144 keep
    are again rows that lines 140-144 keep, since a tag kept for its count
    keeps all its rows. *)
Theorem filter_tags_twice :
  forall (f f1 : frame linegeom),
    rectangular f ->
    filter_tags f = Ok f1 ->
    filter_tags f1 = Ok f1.
Proof.
  intros f f1 Hrect Hf. unfold filter_tags in Hf.
  destruct (get_str "highway" f) as [tags|] eqn:Etags; [|discriminate].
  cbn [rbind] in Hf. injection Hf as <-.
  set (uniq := nodup string_dec _).
  set (p := fun x : option string => match x with Some s => mem s uniq | None => false end).
  change (isin uniq tags) with (map p tags).
  assert (Hlen : List.length tags = nrows f).
  { unfold get_str, get_col in Etags.
    destruct (lookup "highway" (cols f)) as [x|] eqn:El; [|discriminate].
    destruct x; try discriminate. injection Etags as ->.
    apply lookup_In in El. apply (Hrect _ _ El). }
  unfold filter_tags.
  rewrite (get_str_mask_rows _ (map p tags) _ Etags). cbn [rbind].
  rewrite mask_map_filter.
  set (uniq1 := nodup string_dec _).
  unfold isin. rewrite map_all_true.
  2:{ intros [s|] Hx; apply filter_In in Hx; destruct Hx as [_ Hx]; [|discriminate].
      apply mem_In, nodup_In, in_or_app.
      unfold p in Hx. apply mem_In, nodup_In, in_app_or in Hx.
      destruct Hx as [Hx | Hx]; [left | right; exact Hx].
      apply In_frequent. apply In_frequent in Hx.
      rewrite count_occ_filter; [exact Hx|].
      unfold p. apply mem_In, nodup_In, in_or_app. left. apply In_frequent. exact Hx. }
  f_equal. rewrite <- mask_map_filter.
  unfold mask_rows at 1. cbn [index cols crs].
  set (n := List.length (mask (map p tags) tags)).
  assert (Hidx : index_mask (repeat true n) (index_mask (map p tags) (index f))
                 = index_mask (map p tags) (index f)).
  { unfold nrows in Hlen. destruct (index f) as [l | l]; simpl; f_equal;
      apply mask_repeat_true; unfold n; rewrite (length_mask_eq (map p tags) l tags);
      auto. }
  unfold mask_rows. cbn [index cols crs]. rewrite Hidx. f_equal.
  rewrite map_map. cbn [fst snd]. apply map_ext_in.
  intros [c x] Hin. cbn [fst snd]. f_equal.
  apply col_mask_all. unfold n.
  rewrite (col_length_mask (map p tags) x tags); [lia|].
  rewrite Hlen. apply (Hrect _ _ Hin).
Qed.

End FilterTwice.

(** ** [line_length] *)

Lemma round_half_even_nonneg : forall n d : Z,
  (0 <= n)%Z -> (0 < d)%Z -> (0 <= round_half_even n d)%Z.
Proof.
  intros n d Hn Hd. unfold round_half_even.
  assert (Hq : (0 <= n / d)%Z) by (apply Z.div_pos; lia).
  destruct (2 * (n mod d) <? d)%Z; [exact Hq|].
  destruct (d <? 2 * (n mod d))%Z; [lia|].
  destruct (Z.even (n / d)); lia.
Qed.

Lemma scaled_nonneg : forall n d e sn sd : Z,
  (0 < n)%Z -> (0 < d)%Z -> scaled n d e = (sn, sd) -> (0 <= sn)%Z /\ (0 < sd)%Z.
Proof.
  intros n d e sn sd Hn Hd. unfold scaled.
  destruct (e <? 0)%Z eqn:He; intros [= <- <-].
  - apply Z.ltb_lt in He. split; [|exact Hd].
    apply Z.mul_nonneg_nonneg; [lia | apply Z.pow_nonneg; lia].
  - apply Z.ltb_ge in He. split; [lia|].
    apply Z.mul_pos_pos; [exact Hd | apply Z.pow_pos_nonneg; lia].
Qed.

Lemma round53_pos_nonneg : forall n d : Z,
  (0 < n)%Z -> (0 < d)%Z -> (0 <= round53_pos n d)%Q.
Proof.
  intros n d Hn Hd. unfold round53_pos.
  destruct (scaled n d (ulp_exponent n d)) as [sn sd] eqn:E.
  destruct (scaled_nonneg _ Hn Hd E) as [Hsn Hsd].
  pose proof (round_half_even_nonneg Hsn Hsd) as Hm.
  destruct (ulp_exponent n d <? 0)%Z.
  - rewrite Qred_correct. unfold Qle. simpl. lia.
  - unfold Qle. simpl. rewrite Z.mul_1_r.
    apply Z.mul_nonneg_nonneg; [exact Hm | apply Z.pow_nonneg; lia].
Qed.

Lemma round53_nonneg : forall q : Q, (0 <= q)%Q -> (0 <= round53 q)%Q.
Proof.
  intros [n d] Hq. unfold round53. cbn [Qnum Qden].
  destruct n as [|n|n].
  - apply Qle_refl.
  - apply round53_pos_nonneg; reflexivity.
  - unfold Qle in Hq. simpl in Hq. lia.
Qed.

Lemma fadd_nonneg : forall x y : Q, (0 <= x)%Q -> (0 <= y)%Q -> (0 <= fadd x y)%Q.
Proof.
  intros x y Hx Hy. apply round53_nonneg.
  apply Qle_trans with (0 + 0)%Q; [apply Qle_refl|].
  apply Qplus_le_compat; assumption.
Qed.

Lemma fsum_from_nonneg : forall (ds : list Q) (acc : Q),
  (0 <= acc)%Q -> Forall (fun d => (0 <= d)%Q) ds -> (0 <= fold_left fadd ds acc)%Q.
Proof.
  induction ds as [|d ds IH]; intros acc Hacc Hds; simpl; [exact Hacc|].
  inversion Hds; subst. apply IH; [apply fadd_nonneg|]; assumption.
Qed.

Lemma fsum_nonneg : forall ds : list Q,
  Forall (fun d => (0 <= d)%Q) ds -> (0 <= fsum ds)%Q.
Proof. intros ds Hds. apply fsum_from_nonneg; [apply Qle_refl | exact Hds]. Qed.

Section LineLength.

Variable vincenty : point -> point -> result Q.

Lemma sum_km_inv : forall l d,
  sum_km vincenty l = Ok d ->
  exists ds, mapM (fun ab => vincenty (fst ab) (snd ab)) l = Ok ds /\ d = fsum ds.
Proof.
  intros l d. unfold sum_km.
  destruct (mapM _ l) as [ds|]; [|discriminate]. cbn [rbind].
  intros [= <-]. exists ds. auto.
Qed.

Lemma sum_km_nonneg : forall l d,
  (forall a b k, vincenty a b = Ok k -> (0 <= k)%Q) ->
  sum_km vincenty l = Ok d -> (0 <= d)%Q.
Proof.
  intros l d Hpos Hd. apply sum_km_inv in Hd. destruct Hd as (ds & Hds & ->).
  apply fsum_nonneg. apply mapM_Forall2 in Hds.
  induction Hds as [|[a b] k l ds Hk _ IH]; constructor; [|exact IH].
  eapply Hpos. exact Hk.
Qed.

Lemma single_length_nonneg : forall line d,
  (forall a b k, vincenty a b = Ok k -> (0 <= k)%Q) ->
  single_length vincenty line = Ok d -> (0 <= d)%Q.
Proof.
  intros [c | s] d Hpos; unfold single_length; cbn [coords rbind]; [|discriminate].
  destruct (sum_km vincenty (pairwise c)) as [d'|] eqn:E.
  - intros [= <-]. eapply sum_km_nonneg; eassumption.
  - intros Hd. eapply sum_km_nonneg; eassumption.
Qed.

(** X10. With a distance function that returns no negative number, no
    length is negative, for a line and for a multi-line, whichever order
    of the coordinates was used. *)
Theorem line_length_nonnegative :
  forall (line : linegeom) (d : Q),
    (forall a b k, vincenty a b = Ok k -> (0 <= k)%Q) ->
    line_length vincenty line = Ok d ->
    (0 <= d)%Q.
Proof.
  intros line d Hpos. unfold line_length.
  destruct (String.eqb (geometryType line) "MultiLineString").
  - destruct (mapM (single_length vincenty) (segments line)) as [ds|] eqn:E;
      [|discriminate].
    cbn [rbind]. intros [= <-]. apply fsum_nonneg.
    apply mapM_Forall2 in E.
    induction E as [|s k l ds Hk _ IH]; constructor; [|exact IH].
    eapply single_length_nonneg; eassumption.
  - apply single_length_nonneg. exact Hpos.
Qed.

End LineLength.

(** ** [explode]: geometries of several parts *)

Lemma take_app : forall {A} (ps qs : list nat) (l : list A),
  take (ps ++ qs) l = take ps l ++ take qs l.
Proof. intros. unfold take. apply flat_map_app. Qed.

Lemma take_repeat : forall {A} (p k : nat) (l : list A) (x : A),
  nth_error l p = Some x -> take (repeat p k) l = repeat x k.
Proof.
  intros A p k l x Hx. induction k as [|k IH]; [reflexivity|].
  cbn [repeat]. change (p :: repeat p k) with ([p] ++ repeat p k).
  rewrite take_app, IH. unfold take. cbn [flat_map]. rewrite Hx. reflexivity.
Qed.

Lemma length_take : forall {A} (ps : list nat) (l : list A),
  (forall p, In p ps -> p < List.length l) -> List.length (take ps l) = List.length ps.
Proof.
  intros A ps l. induction ps as [|p ps IH]; intros Hps; [reflexivity|].
  change (p :: ps) with ([p] ++ ps). rewrite take_app, length_app, IH
    by (intros; apply Hps; right; assumption).
  unfold take. cbn [flat_map].
  destruct (nth_error l p) eqn:E; [reflexivity|].
  apply nth_error_None in E. specialize (Hps p (or_introl eq_refl)). lia.
Qed.

Lemma In_combine_seq : forall {A} (l : list A) (s p : nat) (x : A),
  nth_error l p = Some x -> In (s + p, x) (combine (seq s (List.length l)) l).
Proof.
  intros A l. induction l as [|y l IH]; intros s [|p] x Hx; simpl in *;
    try discriminate.
  - injection Hx as ->. left. f_equal. lia.
  - right. replace (s + S p) with (S s + p) by lia. apply IH. exact Hx.
Qed.

Lemma positions_of_unique : forall (labels : list Z) (p : nat) (k : Z),
  NoDup labels -> nth_error labels p = Some k -> positions_of k labels = [p].
Proof.
  intros labels p k Hnd Hp. unfold positions_of.
  erewrite filter_label_unique; [reflexivity | exact Hnd |].
  apply (In_combine_seq labels 0 p). exact Hp.
Qed.

(** Joining the labels at the positions [ps] with the labels themselves
    pairs row number [i] with the position [ps_i], when equal labels come
    one after the other. *)
Lemma join_pairs_take : forall (labels : list Z) (ps : list nat),
  NoDup labels ->
  (forall p, In p ps -> p < List.length labels) ->
  clustered (take ps labels) ->
  join_pairs (take ps labels) labels = combine (seq 0 (List.length ps)) ps.
Proof.
  intros labels ps Hnd Hps Hc. rewrite join_pairs_clustered by exact Hc.
  clear Hc. rewrite length_take by exact Hps.
  generalize 0 as s. induction ps as [|p ps IH]; intros s; [reflexivity|].
  change (p :: ps) with ([p] ++ ps). rewrite take_app.
  destruct (nth_error labels p) as [k|] eqn:Ek.
  2:{ apply nth_error_None in Ek. specialize (Hps p (or_introl eq_refl)). lia. }
  unfold take at 1. cbn [flat_map app List.length seq combine fst snd].
  rewrite Ek. cbn [app combine flat_map fst snd].
  rewrite (@positions_of_unique labels p k Hnd Ek). cbn [map app].
  f_equal. apply IH. intros q Hq. apply Hps. right. exact Hq.
Qed.

Section ExplodeParts.

Context {geom : Type} `{GeoOps geom}.

Lemma keys_of_parts : forall (x : geom) (l : Z),
  map (fun e : Z * Z * geom => fst (fst e))
      match parts x with
      | Some ps => map (fun kp => ((l, Z.of_nat (fst kp)), snd kp))
                       (combine (seq 0 (List.length ps)) ps)
      | None => [((l, 0%Z), x)]
      end
  = repeat l (part_count x).
Proof.
  intros x l. unfold part_count. destruct (parts x) as [ps|]; [|reflexivity].
  rewrite map_map. cbn [fst].
  generalize 0 as s. induction ps as [|p ps IH]; intros s; [reflexivity|].
  simpl. f_equal. apply IH.
Qed.

Lemma explode_parts_keys : forall (g : list geom) (pre labels : list Z),
  List.length labels = List.length g ->
  map (fun e => fst (fst e)) (explode_parts labels g)
  = take (parents_from (List.length pre) g) (pre ++ labels).
Proof.
  unfold explode_parts, parents_from.
  induction g as [|x g IH]; intros pre [|l labels] Hl; simpl in Hl; try discriminate;
    [reflexivity|].
  cbn [combine flat_map List.length seq fst snd].
  rewrite map_app, take_app, keys_of_parts.
  rewrite (take_repeat _ (part_count x) (pre ++ l :: labels) (x := l))
    by (rewrite nth_error_app2, Nat.sub_diag by lia; reflexivity).
  f_equal. specialize (IH (pre ++ [l]) labels).
  rewrite length_app, Nat.add_1_r, <- app_assoc in IH. apply IH. lia.
Qed.

Lemma explode_parts_blocks : forall (g : list geom) (labels : list Z),
  map (fun e => fst (fst e)) (explode_parts labels g)
  = flat_map (fun lg => repeat (fst lg) (part_count (snd lg))) (combine labels g).
Proof.
  intros g labels. unfold explode_parts.
  induction (combine labels g) as [|[l x] lg IH]; [reflexivity|].
  cbn [flat_map fst snd]. rewrite map_app, keys_of_parts, IH. reflexivity.
Qed.

Lemma explode_parts_geometries : forall (g : list geom) (labels : list Z),
  List.length labels = List.length g ->
  map snd (explode_parts labels g) = exploded g.
Proof.
  unfold explode_parts, exploded.
  induction g as [|x g IH]; intros [|l labels] Hl; simpl in Hl; try discriminate;
    [reflexivity|].
  cbn [combine flat_map fst snd]. rewrite map_app, IH by lia. f_equal.
  destruct (parts x) as [ps|]; [|reflexivity].
  rewrite map_map. cbn [snd]. apply map_snd_combine_eq. apply length_seq.
Qed.

Lemma parents_from_range : forall (g : list geom) (s p : nat),
  In p (parents_from s g) -> s <= p < s + List.length g.
Proof.
  unfold parents_from. induction g as [|x g IH]; intros s p; simpl; [intros []|].
  rewrite in_app_iff. intros [Hin | Hin].
  - apply repeat_spec in Hin. cbn [fst] in Hin. lia.
  - apply IH in Hin. lia.
Qed.

Lemma length_explode_parts : forall (g : list geom) (labels : list Z),
  List.length labels = List.length g ->
  List.length (explode_parts labels g) = list_sum (map part_count g).
Proof.
  unfold explode_parts.
  induction g as [|x g IH]; intros [|l labels] Hl; simpl in Hl; try discriminate;
    [reflexivity|].
  change (list_sum (map part_count (x :: g)))
    with (part_count x + list_sum (map part_count g)).
  cbn [combine flat_map fst snd]. rewrite length_app, IH by lia.
  f_equal. unfold part_count. destruct (parts x) as [ps|]; [|reflexivity].
  rewrite length_map, length_combine, length_seq. apply Nat.min_id.
Qed.

End ExplodeParts.

Lemma combine_fst_snd : forall {A B C} (l : list (A * B * C)),
  combine (map (fun e => fst (fst e)) l) (map (fun e => snd (fst e)) l) = map fst l.
Proof.
  induction l as [|[[a b] c] l IH]; simpl; [reflexivity | rewrite IH; reflexivity].
Qed.

Section ExplodeRows.

Context {geom : Type} `{GeoOps geom}.

(** X12. [explode] on a frame with unique index labels, no column called
    [level_0], [level_1] or [name] and at least one part in all: the result
    has one row for every part of every geometry, in the order of the rows
    and of the parts, under the pair (label of the parent, number of the
    part); each row carries the attributes of its parent; the CRS is that
    of the input.  A geometry without parts leaves no row. *)
Theorem explode_rows :
  forall (gdf : frame geom) (g : list geom) (labels : list Z),
    get_geom "geometry" gdf = Ok g ->
    index gdf = Index labels ->
    NoDup labels ->
    rectangular gdf ->
    ~ In "level_0" (names gdf) ->
    ~ In "level_1" (names gdf) ->
    ~ In "name" (names gdf) ->
    let rows := explode_parts labels g in
    rows <> [] ->
    explode gdf
    = Ok {| index := MultiIndex (map fst rows);
            cols := ("geometry", GeomCol (map snd rows))
                    :: map (fun nc => (fst nc, col_take (parents g) (snd nc)))
                           (filter (fun nc => negb (mem (fst nc) ["geometry"])) (cols gdf));
            crs := crs gdf |}
    /\ List.length rows = list_sum (map part_count g).
Proof.
  intros gdf g labels Hg Hi Hnd Hrect H0 H1 Hname rows Hrows.
  assert (Hn : nrows gdf = List.length labels) by (unfold nrows; rewrite Hi; reflexivity).
  assert (Hlg : List.length labels = List.length g).
  { apply get_geom_lookup, lookup_In in Hg. apply Hrect in Hg. simpl in Hg. lia. }
  split; [|apply length_explode_parts; exact Hlg].
  assert (Hkeys : map (fun e => fst (fst e)) rows = take (parents g) labels)
    by (apply (explode_parts_keys g [] labels); exact Hlg).
  assert (Hparts : exploded g <> []).
  { rewrite <- (explode_parts_geometries g labels Hlg). fold rows.
    destruct rows; [contradiction Hrows; reflexivity | discriminate]. }
  assert (Hclustered : clustered (take (parents g) labels)).
  { rewrite <- Hkeys. unfold rows. rewrite explode_parts_blocks.
    apply clustered_blocks. rewrite map_fst_combine_eq by exact Hlg. exact Hnd. }
  assert (Hrange : forall p, In p (parents g) -> p < List.length labels).
  { intros p Hp. apply parents_from_range in Hp. lia. }
  assert (Hlen : List.length (parents g) = List.length rows).
  { rewrite <- (length_take (parents g) labels Hrange), <- Hkeys. apply length_map. }
  unfold explode. rewrite Hg. cbn [rbind].
  rewrite explode_checks_ok by assumption. cbn [rbind].
  unfold index_labels at 1. rewrite Hi.
  cbn [rbind]. fold rows.
  rewrite drop_cols_ok
    by (intros c [<- | []]; eapply get_geom_In_names; exact Hg).
  set (attrs := {| index := index gdf;
                   cols := filter (fun nc => negb (mem (fst nc) ["geometry"])) (cols gdf);
                   crs := crs gdf |}).
  cbn [rbind].
  erewrite merge_ok; [ | reflexivity | exact Hi ]. cbn [rbind].
  unfold merged. rewrite Hkeys, join_pairs_take by assumption.
  rewrite map_fst_combine_eq, map_snd_combine_eq by apply length_seq.
  cbn [cols map fst snd].
  assert (Hattr : forall c x, In (c, x) (cols attrs) ->
            In (c, x) (cols gdf) /\ c <> "geometry").
  { intros c x Hin. apply filter_In in Hin. destruct Hin as [Hin Hc]. split; [exact Hin|].
    cbn [fst mem existsb] in Hc. intros ->. discriminate. }
  assert (Hleft : forall c, In c ["level_0"; "level_1"; "geometry"] -> ~ In c (names attrs)).
  { intros c Hc Hin. apply in_map_iff in Hin. destruct Hin as ([c' x] & E & Hin).
    cbn [fst] in E. subst c'. apply Hattr in Hin. destruct Hin as [Hin Hng].
    apply name_in_cols in Hin.
    destruct Hc as [<- | [<- | [<- | []]]]; [exact (H0 Hin) | exact (H1 Hin) | exact (Hng eq_refl)]. }
  rewrite !suffixed_notin by (apply Hleft; simpl; auto).
  assert (Hright :
    map (fun nc : string * column geom =>
           (suffixed ["level_0"; "level_1"; "geometry"] "_y" (fst nc),
            col_take (parents g) (snd nc))) (cols attrs)
    = map (fun nc => (fst nc, col_take (parents g) (snd nc))) (cols attrs)).
  { apply map_ext_in. intros [c x] Hin. cbn [fst snd]. f_equal.
    apply suffixed_notin. intros Hc. apply (Hleft c Hc). eapply name_in_cols. exact Hin. }
  change (names {| index := RangeIndex (List.length rows);
                   cols := [("level_0", IntCol (take (parents g) labels));
                            ("level_1", IntCol (map (fun e => snd (fst e)) rows));
                            ("geometry", GeomCol (map snd rows))];
                   crs := None |})
    with ["level_0"; "level_1"; "geometry"].
  rewrite Hright.
  unfold set_index2, get_int, get_col. cbn [cols app lookup].
  change (String.eqb "level_0" "level_0") with true.
  change (String.eqb "level_0" "level_1") with false.
  change (String.eqb "level_1" "level_1") with true. cbv iota. cbn [rbind].
  cbn [col_take].
  replace (take (seq 0 (List.length (parents g))) (take (parents g) labels))
    with (take (parents g) labels)
    by (rewrite <- (length_take (parents g) labels Hrange);
        symmetry; apply take_seq_all).
  replace (take (seq 0 (List.length (parents g))) (map (fun e => snd (fst e)) rows))
    with (map (fun e : Z * Z * geom => snd (fst e)) rows)
    by (rewrite Hlen, <- (length_map (fun e : Z * Z * geom => snd (fst e)) rows);
        symmetry; apply take_seq_all).
  replace (take (seq 0 (List.length (parents g))) (map snd rows))
    with (map snd rows)
    by (rewrite Hlen, <- (length_map snd rows); symmetry; apply take_seq_all).
  cbn [filter fst mem existsb negb orb].
  change (String.eqb "level_0" "level_0") with true.
  change (String.eqb "level_1" "level_0") with false.
  change (String.eqb "level_1" "level_1") with true.
  change (String.eqb "geometry" "level_0") with false.
  change (String.eqb "geometry" "level_1") with false.
  cbn [negb orb].
  assert (Hkeep :
    filter (fun nc : string * column geom => negb (mem (fst nc) ["level_0"; "level_1"]))
           (map (fun nc => (fst nc, col_take (parents g) (snd nc))) (cols attrs))
    = map (fun nc => (fst nc, col_take (parents g) (snd nc))) (cols attrs)).
  { apply forallb_filter_id. apply forallb_forall. intros [c x] Hin. cbn [fst].
    apply negb_true_iff, mem_not_In. intros Hc.
    apply in_map_iff in Hin. destruct Hin as ([c' x'] & [= -> _] & Hin).
    apply (Hleft c); [simpl in *; tauto | eapply name_in_cols; exact Hin]. }
  cbn [mem existsb] in Hkeep.
  rewrite Hkeep. unfold get_geom, get_col. cbn [cols lookup].
  change (String.eqb "geometry" "geometry") with true. cbv iota. cbn [rbind index cols].
  rewrite <- Hkeys, combine_fst_snd. reflexivity.
Qed.

End ExplodeRows.

(** ** [Create_Buffer] *)

Section BufferRun.

Context {geom : Type} `{GeoOps geom} `{Projections geom}.

Lemma to_crs_new : forall (h l : heap geom) k f g c epsg,
  nth_error l k = Some f ->
  get_geom "geometry" f = Ok g ->
  crs f = Some c ->
  to_crs (List.length h + k) epsg (h ++ l)
  = (Ok (List.length h + List.length l),
     h ++ (l ++ [reprojected f g c (from_epsg epsg)])).
Proof.
  intros h l k f g c epsg Hk Hg Hc. unfold to_crs. run_cbn.
  erewrite copy_new by eassumption. run_cbn.
  assert (Hnew : nth_error (l ++ [f]) (List.length l) = Some f) by apply nth_error_snoc.
  erewrite geometry_new by exact Hnew. rewrite Hg. run_cbn.
  erewrite deref_new by exact Hnew. run_cbn. rewrite Hc.
  run_cbn. rewrite store_new. run_cbn. f_equal. f_equal.
  clear. induction l as [|x l IH]; simpl; [reflexivity | rewrite IH; reflexivity].
Qed.

Lemma to_crs_naive : forall (h l : heap geom) k f g epsg,
  nth_error l k = Some f ->
  get_geom "geometry" f = Ok g ->
  crs f = None ->
  to_crs (List.length h + k) epsg (h ++ l) = (Raise ValueError, h ++ (l ++ [f])).
Proof.
  intros h l k f g epsg Hk Hg Hc. unfold to_crs. run_cbn.
  erewrite copy_new by eassumption. run_cbn.
  assert (Hnew : nth_error (l ++ [f]) (List.length l) = Some f) by apply nth_error_snoc.
  erewrite geometry_new by exact Hnew. rewrite Hg. run_cbn.
  erewrite deref_new by exact Hnew. run_cbn. rewrite Hc. reflexivity.
Qed.

Lemma nth_error_old : forall (h l : heap geom) r f,
  nth_error h r = Some f -> nth_error (h ++ l) r = Some f.
Proof.
  intros h l r f Hr. rewrite nth_error_app1 by (apply nth_error_Some; congruence).
  exact Hr.
Qed.

(** X13. [Create_Buffer] on a frame that has a CRS returns a new frame and
    leaves every frame of the caller as it was.  The new frame is in
    EPSG 4326 whatever [epsg1] and the CRS of the input are; its geometries
    are those of the input taken to [epsg1], buffered by [size] there and
    taken to EPSG 4326; index and the other columns are those of the
    input. *)
Theorem Create_Buffer_result :
  forall (h : heap geom) (gdf : ref) (f : frame geom) (g : list geom) (c : string)
         (epsg1 : nat) (size : Q),
    nth_error h gdf = Some f ->
    get_geom "geometry" f = Ok g ->
    crs f = Some c ->
    exists out h' fo,
      Create_Buffer gdf epsg1 size h = (Ok out, h') /\
      nth_error h' out = Some fo /\
      List.length h <= out /\
      (forall r f', nth_error h r = Some f' -> nth_error h' r = Some f') /\
      crs fo = Some (from_epsg 4326) /\
      index fo = index f /\
      cols fo
      = assign "geometry"
          (GeomCol (map (fun x => transform (from_epsg epsg1) (from_epsg 4326)
                                    (buffer (transform c (from_epsg epsg1) x) size)) g))
          (cols f).
Proof.
  intros h gdf f g c epsg1 size Hf Hg Hc.
  exists (List.length h + 2). eexists. eexists. split.
  { unfold Create_Buffer. rewrite <- (app_nil_r h) at 1. run_cbn.
    erewrite copy_old by eassumption. run_cbn.
    erewrite (to_crs_new h [f] 0) by (try reflexivity; eassumption). run_cbn.
    erewrite geometry_new by reflexivity.
    unfold reprojected at 1. unfold get_geom, get_col. cbn [cols].
    rewrite lookup_assign_same. run_cbn.
    erewrite setitem_new by reflexivity. run_cbn.
    erewrite (to_crs_new h _ 1); [reflexivity | reflexivity | | reflexivity].
    apply get_geom_set_col_same. }
  split.
  { rewrite nth_error_app2 by lia.
    replace (List.length h + 2 - List.length h) with 2 by lia. reflexivity. }
  split; [lia|]. split; [intros r f' Hr; apply nth_error_old; exact Hr|].
  split; [reflexivity|]. split; [reflexivity|].
  unfold reprojected, set_col. cbn [cols]. rewrite !assign_assign, !map_map. reflexivity.
Qed.

(** X14. A frame without a CRS cannot be projected: [Create_Buffer] raises
    [ValueError] at its first [to_crs], before any geometry is buffered,
    and the frames of the caller are as they were. *)
Theorem Create_Buffer_needs_crs :
  forall (h : heap geom) (gdf : ref) (f : frame geom) (g : list geom)
         (epsg1 : nat) (size : Q),
    nth_error h gdf = Some f ->
    get_geom "geometry" f = Ok g ->
    crs f = None ->
    exists h',
      Create_Buffer gdf epsg1 size h = (Raise ValueError, h') /\
      (forall r f', nth_error h r = Some f' -> nth_error h' r = Some f') /\
      (forall r f', nth_error h' r = Some f' -> List.length h <= r -> f' = f).
Proof.
  intros h gdf f g epsg1 size Hf Hg Hc.
  exists (h ++ [f; f]). split; [|split].
  - unfold Create_Buffer. rewrite <- (app_nil_r h) at 1. run_cbn.
    erewrite copy_old by eassumption. run_cbn.
    erewrite (to_crs_naive h [f] 0) by (try reflexivity; eassumption). reflexivity.
  - intros r f' Hr. apply nth_error_old. exact Hr.
  - intros r f' Hr Hle. rewrite nth_error_app2 in Hr by exact Hle.
    destruct (r - List.length h) as [|[|k]]; simpl in Hr.
    + congruence.
    + congruence.
    + destruct k; discriminate.
Qed.

End BufferRun.

(** ** [spatial_overlays]: the rows of an intersection *)

Lemma dict_set_fresh : forall {V} (k : Z) (v : V) (d : list (Z * V)),
  ~ In k (map fst d) -> dict_set k v d = d ++ [(k, v)].
Proof.
  intros V k v. induction d as [|[k' v'] d IH]; intros Hn; simpl; [reflexivity|].
  destruct (Z.eqb k' k) eqn:E.
  - apply Z.eqb_eq in E. elim Hn. left. exact E.
  - rewrite IH; [reflexivity|]. intros Hin. apply Hn. right. exact Hin.
Qed.

Lemma to_dict_unique : forall {V} (labels : list Z) (values : list V),
  NoDup labels -> to_dict labels values = combine labels values.
Proof.
  intros V labels values Hnd. unfold to_dict.
  assert (Hgen : forall (acc : list (Z * V)),
             (forall k, In k labels -> ~ In k (map fst acc)) ->
             fold_left (fun d kv => dict_set (fst kv) (snd kv) d) (combine labels values) acc
             = acc ++ combine labels values).
  { revert values. induction Hnd as [|l labels Hl Hnd IH]; intros values acc Hacc.
    - simpl. rewrite app_nil_r. reflexivity.
    - destruct values as [|v values]; simpl; [rewrite app_nil_r; reflexivity|].
      rewrite dict_set_fresh by (apply Hacc; left; reflexivity).
      rewrite IH.
      + rewrite <- app_assoc. reflexivity.
      + intros k Hk. rewrite map_app, in_app_iff. simpl.
        intros [Hin | [<- | []]]; [|exact (Hl Hk)].
        revert Hin. apply Hacc. right. exact Hk. }
  apply (Hgen []). intros k _ [].
Qed.

Lemma owners_of_pairs : forall {X} (cands : list (list nat)) (pre xs : list X),
  List.length xs = List.length cands ->
  map fst (flat_map (fun xc : X * list nat => map (pair (fst xc)) (snd xc))
                    (combine xs cands))
  = take (owners_from (List.length pre) (map (@List.length nat) cands)) (pre ++ xs).
Proof.
  unfold owners_from. intros X.
  induction cands as [|c cands IH]; intros pre [|x xs] Hl; simpl in Hl; try discriminate;
    [reflexivity|].
  cbn [combine flat_map map List.length seq fst snd].
  rewrite map_app, take_app, map_map. cbn [fst].
  rewrite (take_repeat _ (List.length c) (pre ++ x :: xs) (x := x))
    by (rewrite nth_error_app2, Nat.sub_diag by lia; reflexivity).
  f_equal.
  - clear. induction c as [|k c IH]; simpl; [reflexivity | rewrite IH; reflexivity].
  - specialize (IH (pre ++ [x]) xs).
    rewrite length_app, Nat.add_1_r, <- app_assoc in IH. apply IH. lia.
Qed.

Lemma owners_from_range : forall (counts : list nat) (s p : nat),
  In p (owners_from s counts) -> s <= p < s + List.length counts.
Proof.
  unfold owners_from. induction counts as [|c counts IH]; intros s p; simpl; [intros []|].
  rewrite in_app_iff. intros [Hin | Hin].
  - apply repeat_spec in Hin. lia.
  - apply IH in Hin. lia.
Qed.

Lemma snd_of_pairs : forall {X Y} (xs : list X) (ys : list Y) (cands : list (list nat)),
  List.length xs = List.length cands ->
  List.length ys = List.length cands ->
  map snd (flat_map (fun xc : X * list nat => map (pair (fst xc)) (snd xc))
                    (combine xs cands))
  = map snd (flat_map (fun xc : Y * list nat => map (pair (fst xc)) (snd xc))
                      (combine ys cands)).
Proof.
  intros X Y xs ys cands. revert xs ys.
  induction cands as [|c cands IH]; intros [|x xs] [|y ys] Hx Hy; simpl in *;
    try discriminate; [reflexivity|].
  rewrite !map_app, !map_map. cbn [snd]. f_equal. apply IH; lia.
Qed.

Lemma flat_map_map : forall {X Y Z'} (f : Y -> list Z') (g : X -> Y) (l : list X),
  flat_map f (map g l) = flat_map (fun x => f (g x)) l.
Proof.
  intros X Y Z' f g l. induction l as [|x l IH]; simpl; [reflexivity|].
  rewrite IH. reflexivity.
Qed.

Lemma map_of_flat_map : forall {X Y Z'} (f : Y -> Z') (g : X -> list Y) (l : list X),
  map f (flat_map g l) = flat_map (fun x => map f (g x)) l.
Proof.
  intros X Y Z' f g l. induction l as [|x l IH]; simpl; [reflexivity|].
  rewrite map_app, IH. reflexivity.
Qed.

Lemma flat_map_flat_map : forall {X Y Z'} (f : Y -> list Z') (g : X -> list Y) (l : list X),
  flat_map f (flat_map g l) = flat_map (fun x => flat_map f (g x)) l.
Proof.
  intros X Y Z' f g l. induction l as [|x l IH]; simpl; [reflexivity|].
  rewrite flat_map_app, IH. reflexivity.
Qed.

Lemma first_seen_In : forall k keys, In k keys -> In k (first_seen keys).
Proof.
  intros k keys. induction keys as [|k' keys IH]; simpl; [auto|].
  intros [E | Hin]; [left; exact E|].
  destruct (Z.eq_dec k' k) as [E | Hne]; [left; exact E|]. right.
  apply filter_In. split; [apply IH; exact Hin|].
  apply negb_true_iff, Z.eqb_neq. congruence.
Qed.

Lemma In_positions_of : forall (labels : list Z) (j : nat) (k : Z),
  nth_error labels j = Some k -> In j (positions_of k labels).
Proof.
  intros labels j k Hj. unfold positions_of. apply in_map_iff. exists (j, k).
  split; [reflexivity|]. apply filter_In. split.
  - apply (In_combine_seq labels 0 j). exact Hj.
  - apply Z.eqb_refl.
Qed.

Lemma positions_of_range : forall (labels : list Z) (j : nat) (k : Z),
  In j (positions_of k labels) -> j < List.length labels.
Proof.
  intros labels j k Hj. unfold positions_of in Hj. apply in_map_iff in Hj.
  destruct Hj as ([j' l] & E & Hin). cbn [fst] in E. subst j'.
  apply filter_In in Hin. destruct Hin as [Hin _].
  apply in_combine_l in Hin. apply in_seq in Hin. lia.
Qed.

Lemma In_group_by_key : forall {A} (ks : list Z) (rows : list (Z * A)) (r : Z * A),
  In r (group_by_key ks rows) <-> In (fst r) ks /\ In r rows.
Proof.
  intros A ks rows r. unfold group_by_key. rewrite in_flat_map. split.
  - intros (k & Hk & Hr). apply filter_In in Hr. destruct Hr as [Hr E].
    apply Z.eqb_eq in E. subst k. auto.
  - intros [Hk Hr]. exists (fst r). split; [exact Hk|].
    apply filter_In. split; [exact Hr | apply Z.eqb_refl].
Qed.

(** The positions that a join pairs are positions of the key column and of
    the index. *)
Lemma join_pairs_range : forall (keys labels : list Z) (ij : nat * nat),
  In ij (join_pairs keys labels) ->
  fst ij < List.length keys /\ snd ij < List.length labels.
Proof.
  intros keys labels ij Hin. unfold join_pairs in Hin. apply in_map_iff in Hin.
  destruct Hin as (r & <- & Hr). apply In_group_by_key in Hr. destruct Hr as [_ Hr].
  unfold join_rows in Hr. apply in_flat_map in Hr. destruct Hr as ([i k] & Hik & Hr).
  apply in_map_iff in Hr. destruct Hr as (j & <- & Hj). cbn [fst snd] in *. split.
  - apply in_combine_l in Hik. apply in_seq in Hik. lia.
  - eapply positions_of_range. exact Hj.
Qed.

(** A join has a row as soon as one key is a label. *)
Lemma join_pairs_nonempty : forall (keys labels : list Z) (k : Z),
  In k keys -> In k labels -> join_pairs keys labels <> [].
Proof.
  intros keys labels k Hk Hl.
  apply In_nth_error in Hk. destruct Hk as [i Hi].
  apply In_nth_error in Hl. destruct Hl as [j Hj].
  assert (Hin : In (i, j) (join_pairs keys labels)).
  { unfold join_pairs. apply in_map_iff. exists (k, (i, j)). split; [reflexivity|].
    apply In_group_by_key. cbn [fst]. split.
    - apply first_seen_In. eapply nth_error_In. exact Hi.
    - unfold join_rows. apply in_flat_map. exists (i, k). split.
      + apply (In_combine_seq keys 0 i). exact Hi.
      + apply in_map_iff. exists j. split; [reflexivity|].
        apply In_positions_of. exact Hj. }
  intros E. rewrite E in Hin. exact Hin.
Qed.

Lemma take_cons : forall {X} (p : nat) (ps : list nat) (l : list X),
  take (p :: ps) l = take [p] l ++ take ps l.
Proof. intros. apply (take_app [p] ps l). Qed.

Lemma take_one : forall {X} (p : nat) (l : list X) (x : X),
  nth_error l p = Some x -> take [p] l = [x].
Proof. intros X p l x Hx. unfold take. cbn [flat_map]. rewrite Hx. reflexivity. Qed.

(** Rows taken from two lists side by side are taken pair by pair. *)
Lemma combine_take : forall {X Y} (J : list (nat * nat)) (L1 : list X) (L2 : list Y),
  (forall ij, In ij J -> fst ij < List.length L1 /\ snd ij < List.length L2) ->
  combine (take (map fst J) L1) (take (map snd J) L2)
  = flat_map (fun ij => combine (take [fst ij] L1) (take [snd ij] L2)) J.
Proof.
  intros X Y J L1 L2. induction J as [|[i j] J IH]; intros HJ; [reflexivity|].
  cbn [map flat_map fst snd]. rewrite (take_cons i), (take_cons j).
  destruct (HJ (i, j) (or_introl eq_refl)) as [Hi Hj]. cbn [fst snd] in Hi, Hj.
  destruct (nth_error L1 i) as [x|] eqn:Ex; [|apply nth_error_None in Ex; lia].
  destruct (nth_error L2 j) as [y|] eqn:Ey; [|apply nth_error_None in Ey; lia].
  rewrite (take_one _ _ Ex), (take_one _ _ Ey). cbn [app combine]. f_equal.
  apply IH. intros ij Hin. apply HJ. right. exact Hin.
Qed.

Lemma combine_one : forall {X Y} (x : X) (ps : list nat) (B : list Y),
  flat_map (fun j => combine [x] (take [j] B)) ps = map (pair x) (take ps B).
Proof.
  intros X Y x ps B. induction ps as [|p ps IH]; [reflexivity|].
  cbn [flat_map]. rewrite (take_cons p ps), map_app, IH. f_equal.
  unfold take. cbn [flat_map]. destruct (nth_error B p); reflexivity.
Qed.

Section SecondJoin.

Variable X : Type.

Variables (labels : list Z) (B : list X).

(** The key of a candidate pair in the second join. *)
Local Abbreviation key := (fun xk : X * nat => Z.of_nat (snd xk)).

(** The second join, seen from the pairs, for the rows of one key. *)
Lemma joined_rows_of_key : forall (k : Z) (P : list (X * nat)) (pre : list X),
  flat_map (fun r : Z * (nat * nat) =>
              combine (take [fst (snd r)] (pre ++ map fst P)) (take [snd (snd r)] B))
           (filter (fun r => Z.eqb (fst r) k)
              (flat_map (fun ik : nat * Z =>
                           map (fun j => (snd ik, (fst ik, j))) (positions_of (snd ik) labels))
                        (combine (seq (List.length pre) (List.length (map key P)))
                                 (map key P))))
  = flat_map (fun xk => map (pair (fst xk)) (take (positions_of (key xk) labels) B))
             (filter (fun xk => Z.eqb (key xk) k) P).
Proof.
  intros k P. induction P as [|[x c] P IH]; intros pre; [reflexivity|].
  cbn [map List.length seq combine flat_map fst snd filter].
  rewrite filter_app, flat_map_app.
  specialize (IH (pre ++ [x])).
  rewrite length_app, Nat.add_1_r, <- app_assoc in IH. cbn [app] in IH. rewrite IH.
  destruct (Z.eqb (Z.of_nat c) k) eqn:E.
  - cbn [flat_map fst snd]. f_equal.
    rewrite filter_all by (intros r Hr; apply in_map_iff in Hr;
                           destruct Hr as (j & <- & _); exact E).
    rewrite flat_map_map. cbn [fst snd].
    rewrite (take_one (List.length pre) (pre ++ x :: map fst P) (x := x))
      by (rewrite nth_error_app2, Nat.sub_diag by lia; reflexivity).
    apply combine_one.
  - rewrite filter_none by (intros r Hr; apply in_map_iff in Hr;
                            destruct Hr as (j & <- & _); exact E).
    reflexivity.
Qed.

(** The second join, seen from the pairs: the pairs come grouped by
    candidate, and each meets the rows of the second frame whose label is
    its candidate. *)
Lemma joined_rows : forall (P : list (X * nat)),
  List.length labels <= List.length B ->
  let J := join_pairs (map key P) labels in
  combine (take (map fst J) (map fst P)) (take (map snd J) B)
  = flat_map (fun xk => map (pair (fst xk)) (take (positions_of (key xk) labels) B))
             (by_candidate P).
Proof.
  intros P Hl J. subst J.
  rewrite combine_take.
  2:{ intros ij Hin. apply join_pairs_range in Hin. rewrite !length_map in *. lia. }
  unfold join_pairs, group_by_key, by_candidate.
  rewrite flat_map_map, !flat_map_flat_map.
  apply flat_map_ext. intros k. apply (joined_rows_of_key k P []).
Qed.

End SecondJoin.

Lemma pairs_keys_blocks : forall {X Y} (l : list (X * list Y)),
  map fst (flat_map (fun ij => map (fun k => (fst ij, k)) (snd ij)) l)
  = flat_map (fun lc => repeat (fst lc) (List.length (snd lc))) l.
Proof.
  intros X Y l. induction l as [|[x ys] l IH]; [reflexivity|].
  cbn [flat_map fst snd]. rewrite map_app, IH, map_map. cbn [fst]. f_equal.
  clear. induction ys as [|y ys IH]; simpl; [reflexivity | rewrite IH; reflexivity].
Qed.

Section IntersectionRows.

Context {geom : Type} `{GeoOps geom}.

Variables (a b : frame geom) (ga gb : list geom) (la lb : list Z).

Hypothesis la_unique : NoDup la.
Hypothesis la_length : List.length la = List.length ga.
Hypothesis lb_length : List.length lb <= List.length gb.

Local Abbreviation key := (fun xk : geom * nat => Z.of_nat (snd xk)).

(** The first join puts the records of the first frame next to their
    candidate pairs, in the order of the pairs. *)
Lemma first_join :
  map fst (join_pairs (map fst (nei ga gb la)) la)
  = seq 0 (List.length (candidate_pairs ga gb))
  /\ take (rows_1 ga gb la) ga = map fst (candidate_pairs ga gb)
  /\ keys_2 ga gb la = map key (candidate_pairs ga gb)
  /\ List.length (nei ga gb la) = List.length (candidate_pairs ga gb).
Proof.
  unfold keys_2, rows_1, nei.
  rewrite to_dict_unique by exact la_unique.
  set (cands := map (sindex_intersection gb) (map bounds ga)).
  assert (Hc : List.length cands = List.length ga)
    by (unfold cands; rewrite !length_map; reflexivity).
  set (nei := flat_map (fun ij : Z * list nat => map (fun k => (fst ij, k)) (snd ij))
                       (combine la cands)).
  set (P := flat_map (fun xc : geom * list nat => map (pair (fst xc)) (snd xc))
                     (combine ga cands)).
  assert (EP : candidate_pairs ga gb = P).
  { unfold candidate_pairs, P, cands. rewrite map_map, combine_map_self, flat_map_map.
    reflexivity. }
  set (owners := owners_from 0 (map (@List.length nat) cands)).
  assert (Hrange : forall Y (xs : list Y), List.length xs = List.length cands ->
                     forall p, In p owners -> p < List.length xs).
  { intros Y xs Hx p Hp. apply owners_from_range in Hp.
    rewrite length_map in Hp. lia. }
  assert (Hnei : map fst nei = take owners la)
    by (apply (owners_of_pairs cands [] la); lia).
  assert (HP : map fst P = take owners ga)
    by (apply (owners_of_pairs cands [] ga); lia).
  assert (Hsnd : map snd nei = map snd P)
    by (apply snd_of_pairs; lia).
  assert (Hn : List.length owners = List.length nei).
  { rewrite <- (length_take owners la) by (apply Hrange; lia).
    rewrite <- Hnei. apply length_map. }
  assert (Hlen : List.length nei = List.length P).
  { rewrite <- (length_map snd nei), Hsnd. apply length_map. }
  assert (Hidx2 : map (fun ik : Z * nat => Z.of_nat (snd ik)) nei = map key P).
  { rewrite <- (map_map snd Z.of_nat nei), Hsnd, map_map. reflexivity. }
  assert (Hclustered : clustered (take owners la)).
  { rewrite <- Hnei. unfold nei. rewrite pairs_keys_blocks.
    apply clustered_blocks. rewrite map_fst_combine_eq by lia. exact la_unique. }
  rewrite Hnei, join_pairs_take by first [exact la_unique | exact Hclustered | apply Hrange; lia].
  rewrite map_fst_combine_eq, map_snd_combine_eq by apply length_seq.
  rewrite EP, Hn, <- Hlen, <- HP, <- Hidx2.
  split; [reflexivity|]. split; [reflexivity|]. split; [|reflexivity].
  rewrite <- (length_map (fun ik : Z * nat => Z.of_nat (snd ik)) nei).
  apply take_seq_all.
Qed.

Lemma intersections_rows :
  intersections ga gb la lb
  = flat_map (overlaps gb lb) (by_candidate (candidate_pairs ga gb)).
Proof.
  destruct first_join as (_ & H1 & H2 & _).
  unfold intersections, rows_A, rows_B. rewrite H1, H2.
  rewrite (joined_rows lb gb (candidate_pairs ga gb) lb_length).
  rewrite map_of_flat_map. apply flat_map_ext. intros xk.
  unfold overlaps. rewrite map_map. reflexivity.
Qed.

(** The number of rows that the two joins leave. *)
Lemma nrows_joined_2 :
  nrows (joined_2 a b ga gb la lb)
  = List.length (join_pairs (map key (candidate_pairs ga gb)) lb).
Proof.
  destruct first_join as (H0 & _ & H2 & Hlen).
  unfold nrows, joined_2, merged. cbn [index].
  unfold joined_1, merged. cbn [index]. unfold pairs0. cbn [index].
  rewrite H0, H2, Hlen. unfold RangeIndex, index_take.
  set (n := List.length (candidate_pairs ga gb)).
  replace (take (seq 0 n) (map Z.of_nat (seq 0 n))) with (map Z.of_nat (seq 0 n))
    by (pose proof (take_seq_all (map Z.of_nat (seq 0 n))) as T;
        rewrite length_map, length_seq in T; symmetry; exact T).
  rewrite length_take; [apply length_map|].
  intros p Hp. apply in_map_iff in Hp. destruct Hp as (ij & <- & Hin).
  apply join_pairs_range in Hin. rewrite !length_map, length_seq in *. apply Hin.
Qed.

(** The joins leave a row as soon as one candidate is a label of the
    second frame. *)
Lemma joined_2_has_rows :
  (exists xk, In xk (candidate_pairs ga gb) /\ In (key xk) lb) ->
  nrows (joined_2 a b ga gb la lb) <> 0.
Proof.
  intros (xk & Hxk & Hl). rewrite nrows_joined_2.
  assert (Hne : join_pairs (map key (candidate_pairs ga gb)) lb <> []).
  { apply join_pairs_nonempty with (k := key xk); [|exact Hl].
    apply in_map_iff. exists xk. auto. }
  destruct (join_pairs _ lb); [contradiction Hne; reflexivity | discriminate].
Qed.

End IntersectionRows.

Lemma NoDup_map_of_nat : forall l : list nat, NoDup l -> NoDup (map Z.of_nat l).
Proof.
  intros l Hnd. induction Hnd as [|x l Hx Hnd IH]; simpl; constructor; [|exact IH].
  intros Hin. apply in_map_iff in Hin. destruct Hin as (y & E & Hy).
  apply Nat2Z.inj in E. subst y. exact (Hx Hy).
Qed.

Lemma positions_of_default : forall (n k : nat),
  k < n -> positions_of (Z.of_nat k) (map Z.of_nat (seq 0 n)) = [k].
Proof.
  intros n k Hk. apply positions_of_unique.
  - apply NoDup_map_of_nat, seq_NoDup.
  - rewrite nth_error_map.
    rewrite (nth_error_nth' (seq 0 n) 0) by (rewrite length_seq; exact Hk).
    rewrite seq_nth by exact Hk. reflexivity.
Qed.

Lemma In_by_candidate : forall {X} (P : list (X * nat)) (xk : X * nat),
  In xk (by_candidate P) -> In xk P.
Proof.
  intros X P xk Hin. unfold by_candidate in Hin. apply in_flat_map in Hin.
  destruct Hin as (k & _ & Hin). apply filter_In in Hin. apply Hin.
Qed.

Section IntersectionGeometry.

Context {geom : Type} `{GeoOps geom}.

Lemma intersection_mode_geometry :
  forall (h : heap geom) (df1 df2 : ref) (f1 f2 : frame geom) (g1 g2 : list geom)
         (l1 l2 : list Z),
    nth_error h df1 = Some f1 ->
    nth_error h df2 = Some f2 ->
    get_geom "geometry" f1 = Ok g1 ->
    get_geom "geometry" f2 = Ok g2 ->
    index f1 = Index l1 ->
    index f2 = Index l2 ->
    NoDup l1 ->
    List.length l1 = List.length g1 ->
    List.length l2 <= List.length g2 ->
    (forall c, In c reserved -> ~ In c (names f1)) ->
    (forall c, In c reserved -> ~ In c (names f2)) ->
    let A := map (fun x => buffer x 0) g1 in
    let B := map (fun x => buffer x 0) g2 in
    (exists xk, In xk (candidate_pairs A B) /\ In (Z.of_nat (snd xk)) l2) ->
    exists out h' fo,
      spatial_overlays df1 df2 "intersection" h = (Ok (PyFrame out), h') /\
      nth_error h' out = Some fo /\
      get_geom "geometry" fo
      = Ok (filter (fun x => negb (is_empty x))
                   (flat_map (overlaps B l2) (by_candidate (candidate_pairs A B)))).
Proof.
  intros h df1 df2 f1 f2 g1 g2 l1 l2 H1 H2 Hg1 Hg2 Hi1 Hi2 Hnd Hl1 Hl2 Hr1 Hr2 A B Hjoin.
  set (a := repaired f1 g1). set (b := repaired f2 g2).
  assert (Ha : get_geom "geometry" a = Ok A) by apply get_geom_repaired.
  assert (Hb : get_geom "geometry" b = Ok B) by apply get_geom_repaired.
  assert (Hna : names a = names f1) by (eapply names_repaired; exact Hg1).
  assert (Hnb : names b = names f2) by (eapply names_repaired; exact Hg2).
  assert (Hia : index a = Index l1) by exact Hi1.
  assert (Hib : index b = Index l2) by exact Hi2.
  assert (Hra : forall c, In c reserved -> ~ In c (names a))
    by (rewrite Hna; exact Hr1).
  assert (Hrb : forall c, In c reserved -> ~ In c (names b))
    by (rewrite Hnb; exact Hr2).
  assert (HlA : List.length l1 = List.length A)
    by (unfold A; rewrite length_map; exact Hl1).
  assert (HlB : List.length l2 <= List.length B)
    by (unfold B; rewrite length_map; exact Hl2).
  assert (Hrows : nrows (joined_2 a b A B l1 l2) <> 0)
    by (apply joined_2_has_rows; assumption).
  exists (List.length h + 9). eexists. exists (intersected a b A B l1 l2).
  split.
  { unfold spatial_overlays. erewrite prologue_run by eassumption.
    change (String.eqb "intersection" "intersection") with true. cbv iota.
    eapply intersection_branch_run; eassumption. }
  split.
  { rewrite nth_error_app2 by lia.
    replace (List.length h + 9 - List.length h) with 9 by lia. reflexivity. }
  unfold intersected, kept.
  erewrite get_geom_mask_rows by (eapply get_geom_dfinter; eassumption).
  rewrite mask_map_filter. rewrite intersections_rows by assumption. reflexivity.
Qed.



End IntersectionGeometry.

(** ** [spatial_overlays]: a second frame that uses a bookkeeping name *)

Lemma list_remove_absent : forall s l, ~ In s l -> list_remove s l = Raise ValueError.
Proof.
  intros s l. induction l as [|x l IH]; intros Hn; simpl; [reflexivity|].
  destruct (String.eqb x s) eqn:E.
  - apply String.eqb_eq in E. elim Hn. left. exact E.
  - rewrite IH; [reflexivity|]. intros Hin. apply Hn. right. exact Hin.
Qed.

Lemma list_remove_incl : forall s l r x, list_remove s l = Ok r -> In x r -> In x l.
Proof.
  intros s l. induction l as [|y l IH]; intros r x; simpl; [discriminate|].
  destruct (String.eqb y s).
  - intros [= <-] Hin. right. exact Hin.
  - destruct (list_remove s l) as [r'|]; [|discriminate].
    intros [= <-] [<- | Hin]; [left; reflexivity | right; eapply IH; eauto].
Qed.

Lemma suffixed_differs : forall other sfx n t,
  In t other -> ends_with sfx t = false -> suffixed other sfx n <> t.
Proof.
  intros other sfx n t Ht He E. unfold suffixed in E.
  destruct (mem n other) eqn:Em.
  - subst t. rewrite ends_with_append in He. discriminate.
  - subst t. apply mem_In in Ht. congruence.
Qed.

Section SecondFrameNames.

Context {geom : Type} `{GeoOps geom}.

Lemma merge_names : forall (left right m : frame geom) key sfx,
  merge left right key sfx = Ok m ->
  names m = map (suffixed (names right) (fst sfx)) (names left)
            ++ map (suffixed (names left) (snd sfx)) (names right).
Proof.
  intros left right m key sfx. unfold merge.
  destruct (get_int key left) as [keys|]; [|discriminate]. cbn [rbind].
  destruct (index_labels right) as [labels|]; [|discriminate]. cbn [rbind].
  intros [= <-]. unfold names. cbn [cols]. rewrite map_app, !map_map. reflexivity.
Qed.

Lemma merge_frames_raise : forall (h l : heap geom) k1 k2 fl fr key sfx e,
  nth_error l k1 = Some fl ->
  nth_error l k2 = Some fr ->
  merge fl fr key sfx = Raise e ->
  merge_frames (List.length h + k1) (List.length h + k2) key sfx (h ++ l)
  = (Raise e, h ++ l).
Proof.
  intros h l k1 k2 fl fr key sfx e H1 H2 Hm. unfold merge_frames, bind.
  erewrite deref_new by eassumption. erewrite deref_new by eassumption.
  unfold lift. rewrite Hm. reflexivity.
Qed.

(** A name that both frames of the second join have is the name of no
    column of the joined frame. *)
Lemma shared_name_renamed : forall (left right m : frame geom) key t,
  merge left right key ("_1", "_2") = Ok m ->
  In t (names left) ->
  In t (names right) ->
  ends_with "_1" t = false ->
  ends_with "_2" t = false ->
  ~ In t (names m).
Proof.
  intros left right m key t Hm Hl Hr H1 H2 Hin.
  rewrite (merge_names _ _ _ _ Hm) in Hin. cbn [fst snd] in Hin.
  apply in_app_or in Hin. destruct Hin as [Hin | Hin];
    apply in_map_iff in Hin; destruct Hin as (n & E & _); revert E.
  - apply suffixed_differs; assumption.
  - apply suffixed_differs; assumption.
Qed.

(** X17. In intersection mode the second frame must not have a column
    called [bbox] or [histreg]: the join of line 52 then renames the
    column of that name that lines 42-43 put on the first frame, so that
    line 58 or 59 finds no such name to remove; the call raises and
    returns nothing. *)
Theorem intersection_mode_second_frame_bookkeeping :
  forall (h : heap geom) (df1 df2 : ref) (f1 f2 : frame geom) (g1 g2 : list geom)
         (t : string),
    nth_error h df1 = Some f1 ->
    nth_error h df2 = Some f2 ->
    get_geom "geometry" f1 = Ok g1 ->
    get_geom "geometry" f2 = Ok g2 ->
    In t ["bbox"; "histreg"] ->
    In t (names f2) ->
    exists e h', spatial_overlays df1 df2 "intersection" h = (Raise e, h').
Proof.
  intros h df1 df2 f1 f2 g1 g2 t H1 H2 Hg1 Hg2 Ht Htb.
  unfold spatial_overlays. erewrite prologue_run by eassumption.
  change (String.eqb "intersection" "intersection") with true. cbv iota.
  set (a := repaired f1 g1). set (b := repaired f2 g2).
  set (A := map (fun x => buffer x 0) g1). set (B := map (fun x => buffer x 0) g2).
  assert (Ha : get_geom "geometry" a = Ok A) by apply get_geom_repaired.
  assert (Hb : get_geom "geometry" b = Ok B) by apply get_geom_repaired.
  assert (Hnb : names b = names f2) by (eapply names_repaired; exact Hg2).
  unfold intersection_branch. run_cbn.
  erewrite add_candidates_run by eassumption. run_cbn.
  set (a1 := with_candidates a A B).
  assert (Hta : In t (names a1)).
  { unfold a1, with_candidates. rewrite !In_names_set_col.
    destruct Ht as [<- | [<- | []]]; auto. }
  assert (Hl : get_list "histreg" a1
               = Ok (map (sindex_intersection B) (map bounds A)))
    by apply get_list_set_col_same.
  run_step. rewrite Hl. run_cbn.
  destruct (index_labels a1) as [la|e] eqn:Ela; run_cbn;
    [|do 2 eexists; reflexivity].
  rewrite alloc_new. run_cbn.
  match goal with
  | |- context [h ++ [a1; b; ?p]] => set (p0 := p)
  end.
  destruct (merge p0 a1 "idx1" ("_x", "_y")) as [m1|e] eqn:Em1.
  2:{ erewrite merge_frames_raise; [|reflexivity|reflexivity|exact Em1].
      do 2 eexists; reflexivity. }
  erewrite merge_frames_new; [|reflexivity|reflexivity|exact Em1]. run_cbn.
  assert (Htm : In t (names m1)).
  { rewrite (merge_names _ _ _ _ Em1). apply in_or_app. right.
    apply in_map_iff. exists t. split; [|exact Hta].
    apply suffixed_notin. change (names p0) with ["idx1"; "idx2"].
    destruct Ht as [<- | [<- | []]]; simpl; intros [E | [E | []]]; discriminate. }
  destruct (merge m1 b "idx2" ("_1", "_2")) as [m2|e] eqn:Em2.
  2:{ erewrite merge_frames_raise; [|reflexivity|reflexivity|exact Em2].
      do 2 eexists; reflexivity. }
  erewrite merge_frames_new; [|reflexivity|reflexivity|exact Em2]. run_cbn.
  assert (Hnm : ~ In t (names m2)).
  { eapply shared_name_renamed; [exact Em2 | exact Htm | rewrite Hnb; exact Htb | |];
      destruct Ht as [<- | [<- | []]]; reflexivity. }
  run_step. unfold apply_has_rows.
  destruct (nrows m2 =? 0); run_cbn; [do 2 eexists; reflexivity|].
  destruct (get_geom "geometry_1" m2) as [g_1|e]; run_cbn;
    [|do 2 eexists; reflexivity].
  destruct (get_geom "geometry_2" m2) as [g_2|e]; run_cbn;
    [|do 2 eexists; reflexivity].
  run_step. run_step. run_step. run_step.
  match goal with
  | |- context [list_remove "geometry_1" (names ?p)] => set (pairs := p)
  end.
  assert (Hnp : ~ In t (names pairs)).
  { unfold pairs, names. cbn [cols]. fold (names (set_col "Intersection"
      (GeomCol (map intersect_row (combine g_1 g_2))) m2)).
    rewrite In_names_set_col. intros [E | Hin]; [|exact (Hnm Hin)].
    destruct Ht as [<- | [<- | []]]; discriminate. }
  destruct (list_remove "geometry_1" (names pairs)) as [c1|e] eqn:E1; run_cbn;
    [|do 2 eexists; reflexivity].
  destruct (list_remove "geometry_2" c1) as [c2|e] eqn:E2; run_cbn;
    [|do 2 eexists; reflexivity].
  assert (Hn2 : ~ In t c2).
  { intros Hin. apply Hnp. eapply list_remove_incl; [exact E1|].
    eapply list_remove_incl; [exact E2 | exact Hin]. }
  destruct Ht as [<- | [<- | []]].
  - destruct (list_remove "histreg" c2) as [c3|e] eqn:E3; run_cbn;
      [|do 2 eexists; reflexivity].
    rewrite list_remove_absent.
    + run_cbn. do 2 eexists; reflexivity.
    + intros Hin. apply Hn2. eapply list_remove_incl; [exact E3 | exact Hin].
  - rewrite list_remove_absent by exact Hn2. run_cbn. do 2 eexists; reflexivity.
Qed.

End SecondFrameNames.

(** ** [map_roads]: classifying is row by row *)

Lemma mapM_mask : forall {A B} (f : A -> result B) (m : list bool) l ys,
  mapM f l = Ok ys -> mapM f (mask m l) = Ok (mask m ys).
Proof.
  intros A B f m. induction m as [|b m IH]; intros [|x l] ys; simpl;
    try (intros [= <-]; reflexivity); try (intros _; reflexivity).
  destruct (f x) as [y|] eqn:E; [|discriminate].
  destruct (mapM f l) as [ys'|] eqn:El; [|discriminate].
  intros [= <-]. specialize (IH l ys' El). destruct b; simpl.
  - rewrite E, IH. reflexivity.
  - exact IH.
Qed.

Lemma map_mask : forall {A B} (f : A -> B) (m : list bool) (l : list A),
  map f (mask m l) = mask m (map f l).
Proof.
  intros A B f m. induction m as [|b m IH]; intros [|x l]; simpl; try reflexivity.
  destruct b; simpl; rewrite IH; reflexivity.
Qed.

Section RoadsRows.

Variable geom : Type.

Lemma assign_map_snd : forall (F : column geom -> column geom) c v
    (l : list (string * column geom)),
  assign c (F v) (map (fun nc => (fst nc, F (snd nc))) l)
  = map (fun nc => (fst nc, F (snd nc))) (assign c v l).
Proof.
  intros F c v l. induction l as [|[n x] l IH]; simpl; [reflexivity|].
  destruct (String.eqb n c); simpl; [reflexivity | rewrite IH; reflexivity].
Qed.

Lemma mask_rows_set_col : forall m c v (f : frame geom),
  mask_rows m (set_col c v f) = set_col c (col_mask m v) (mask_rows m f).
Proof.
  intros m c v f. unfold mask_rows, set_col. cbn [index cols crs].
  rewrite assign_map_snd. reflexivity.
Qed.

(** X18. Classifying the roads is row by row and changes nothing but the
    column [roads]: index, CRS and the other columns stay; on any
    selection of the rows of a frame that [map_roads] classifies, it gives
    the same selection of the classified frame; and classifying a second
    time changes nothing. *)
Theorem map_roads_row_by_row :
  forall (f f1 : frame geom),
    map_roads f = Ok f1 ->
    index f1 = index f /\ crs f1 = crs f /\
    (forall c, c <> "roads" -> get_col c f1 = get_col c f) /\
    (forall m, map_roads (mask_rows m f) = Ok (mask_rows m f1)) /\
    map_roads f1 = Ok f1.
Proof.
  intros f f1. unfold map_roads.
  destruct (get_str "fclass" f) as [tags|] eqn:Et; [|discriminate]. cbn [rbind].
  destruct (mapM classify tags) as [roads|] eqn:Er; [|discriminate]. cbn [rbind].
  intros [= <-]. split; [reflexivity|]. split; [reflexivity|]. split; [|split].
  - intros c Hc. apply get_col_set_col_other. congruence.
  - intros m. rewrite (get_str_mask_rows _ m _ Et). cbn [rbind].
    rewrite (mapM_mask _ m _ Er). cbn [rbind].
    rewrite mask_rows_set_col. cbn [col_mask]. rewrite map_mask. reflexivity.
  - rewrite get_str_set_col_other by discriminate. rewrite Et. cbn [rbind].
    rewrite Er. cbn [rbind]. f_equal. unfold set_col. cbn [index cols crs].
    rewrite assign_assign. reflexivity.
Qed.

End RoadsRows.

(** ** [explode]: a second call *)

Lemma suffixed_inv : forall other sfx n t,
  suffixed other sfx n = t -> ends_with sfx t = false -> n = t.
Proof.
  intros other sfx n t E He. unfold suffixed in E.
  destruct (mem n other); [|exact E].
  subst t. rewrite ends_with_append in He. discriminate.
Qed.

Section ExplodeTwice.

Context {geom : Type} `{GeoOps geom}.

(** The frame that [explode] returns has no column called [name]. *)
Lemma explode_result_has_no_name : forall (gdf out : frame geom),
  explode gdf = Ok out -> ~ In "name" (names out).
Proof.
  intros gdf out. unfold explode.
  destruct (get_geom "geometry" gdf) as [g|]; [|discriminate]. cbn [rbind].
  destruct (explode_checks gdf g) eqn:Ec; [|discriminate]. cbn [rbind].
  destruct (index_labels gdf) as [labels|]; [|discriminate]. cbn [rbind].
  destruct (drop_cols ["geometry"] gdf) as [attrs|] eqn:Ed; [|discriminate]. cbn [rbind].
  destruct (merge _ attrs "level_0" ("_x", "_y")) as [m|] eqn:Em; [|discriminate].
  cbn [rbind]. unfold set_index2.
  destruct (get_int "level_0" m) as [l0|]; [|discriminate]. cbn [rbind].
  destruct (get_int "level_1" m) as [l1|]; [|discriminate]. cbn [rbind].
  match goal with
  | |- context [get_geom "geometry" ?f] =>
      destruct (get_geom "geometry" f) as [g'|]; [|discriminate]
  end.
  cbn [rbind index cols crs]. intros [= <-]. unfold names at 1. cbn [cols]. intros Hin.
  apply in_map_iff in Hin. destruct Hin as ([c x] & E & Hin). cbn [fst] in E. subst c.
  apply filter_In in Hin. destruct Hin as [Hin _]. apply name_in_cols in Hin.
  rewrite (merge_names _ _ _ _ Em) in Hin. cbn [fst snd] in Hin.
  apply in_app_or in Hin. destruct Hin as [Hin | Hin];
    apply in_map_iff in Hin; destruct Hin as (n & E & Hn);
    apply suffixed_inv in E; try reflexivity; subst n.
  - simpl in Hn. destruct Hn as [E | [E | [E | []]]]; discriminate.
  - unfold drop_cols in Ed. destruct (find _ ["geometry"]); [discriminate|].
    injection Ed as <-. apply in_map_iff in Hn. destruct Hn as ([c' x'] & E & Hn).
    cbn [fst] in E. subst c'. cbn [cols] in Hn. apply filter_In in Hn.
    destruct Hn as [Hn _]. apply name_in_cols in Hn.
    unfold explode_checks in Ec. destruct (exploded g); [discriminate|].
    apply mem_In in Hn. rewrite Hn in Ec. discriminate.
Qed.

(** X19. What [explode] returns has a two-level index and a geometry
    column, so [explode] cannot be applied to it again: the second call
    raises, a [ValueError] at the join of line 329, which is by one key;
    or, when no geometry of the frame has a part, a [TypeError] at the
    [explode()] of line 327 already. *)
Theorem explode_twice_raises :
  forall (gdf out : frame geom),
    explode gdf = Ok out ->
    (exists labels, index out = MultiIndex labels) /\
    (exists g, get_geom "geometry" out = Ok g /\
               explode out
               = Raise match exploded g with [] => TypeError | _ :: _ => ValueError end).
Proof.
  intros gdf out Hrun. pose proof (explode_result_has_no_name _ Hrun) as Hname.
  revert Hrun. unfold explode at 1.
  destruct (get_geom "geometry" gdf) as [g|]; [|discriminate]. cbn [rbind].
  destruct (explode_checks gdf g); [|discriminate]. cbn [rbind].
  destruct (index_labels gdf) as [labels|]; [|discriminate]. cbn [rbind].
  destruct (drop_cols ["geometry"] gdf) as [attrs|]; [|discriminate]. cbn [rbind].
  destruct (merge _ attrs "level_0" ("_x", "_y")) as [m|]; [|discriminate]. cbn [rbind].
  unfold set_index2.
  destruct (get_int "level_0" m) as [l0|]; [|discriminate]. cbn [rbind].
  destruct (get_int "level_1" m) as [l1|]; [|discriminate]. cbn [rbind].
  match goal with
  | |- context [get_geom "geometry" ?f] =>
      destruct (get_geom "geometry" f) as [g'|] eqn:Eg; [|discriminate]
  end.
  cbn [rbind index cols crs]. intros E. injection E as E. subst out.
  split; [eexists; reflexivity|]. exists g'. split; [exact Eg|].
  match goal with
  | |- explode ?o = _ => set (out := o) in *
  end.
  assert (Hg' : get_geom "geometry" out = Ok g') by exact Eg.
  unfold explode. rewrite Hg'. cbn [rbind]. unfold explode_checks.
  destruct (exploded g'); [reflexivity|].
  apply mem_not_In in Hname. rewrite Hname. reflexivity.
Qed.

End ExplodeTwice.

(** * The further properties on the example data *)

Lemma spatial_overlays_returns_new_object_witness :
  let h' := snd (spatial_overlays 0 1 "intersection" [ex_A; ex_B]) in
  spatial_overlays 0 1 "intersection" [ex_A; ex_B] = (Ok (PyFrame 11), h') /\
  (exists f, nth_error h' 11 = Some f) /\
  2 <= 11.
Proof.
  intros h'.
  assert (Hrun : spatial_overlays 0 1 "intersection" [ex_A; ex_B] = (Ok (PyFrame 11), h'))
    by reflexivity.
  split; [exact Hrun|].
  destruct (@spatial_overlays_returns_new_object cells _ [ex_A; ex_B] 0 1 "intersection"
              11 h' Hrun) as (Hf & Hle & _).
  split; [exact Hf | exact Hle].
Defined.

Lemma get_country_result_witness :
  exists out,
    get_country (ex_vincenty 1) (ex_roads 1) false = Ok out /\
    exists d, get_num "distance" out = Ok d /\ Forall (fun L => (L < 500)%Q) d.
Proof.
  eexists. split; [reflexivity|].
  destruct (@get_country_result (ex_vincenty 1) (ex_roads 1) _ false eq_refl)
    as (tags & _ & _ & _ & Hd).
  exact (Hd eq_refl).
Defined.

Lemma get_country_needs_fclass_witness :
  ~ In "fclass" (names (ex_tagged 21)) /\
  get_country (ex_vincenty 1) (ex_tagged 21) true = Raise (KeyError "fclass").
Proof.
  assert (Hn : ~ In "fclass" (names (ex_tagged 21)))
    by (simpl; intros [E | []]; discriminate).
  split; [exact Hn|].
  destruct (@get_country_needs_fclass (ex_vincenty 1) (ex_tagged 21) true Hn) as [_ Hr].
  eapply Hr. vm_compute. reflexivity.
Defined.

Lemma filter_tags_twice_witness :
  rectangular (ex_roads 1) /\
  filter_tags (ex_roads 1) = Ok (ex_roads 1) /\
  filter_tags (ex_roads 1) = Ok (ex_roads 1).
Proof.
  assert (Hrect : rectangular (ex_roads 1)).
  { intros c x Hin. simpl in Hin.
    destruct Hin as [[= <- <-] | [[= <- <-] | [[= <- <-] | []]]]; reflexivity. }
  assert (Hf : filter_tags (ex_roads 1) = Ok (ex_roads 1)) by reflexivity.
  split; [exact Hrect|]. split; [exact Hf|].
  exact (@filter_tags_twice (ex_roads 1) (ex_roads 1) Hrect Hf).
Defined.

Lemma line_length_nonnegative_witness :
  (forall a b k, ex_vincenty 2 a b = Ok k -> (0 <= k)%Q) /\
  line_length (ex_vincenty 2) (ex_road 1) = Ok 2%Q /\
  (0 <= 2)%Q.
Proof.
  assert (Hpos : forall a b k, ex_vincenty 2 a b = Ok k -> (0 <= k)%Q).
  { intros a b k [= <-]. discriminate. }
  split; [exact Hpos|]. split; [reflexivity|].
  exact (@line_length_nonnegative (ex_vincenty 2) (ex_road 1) 2%Q Hpos eq_refl).
Defined.

Lemma explode_rows_witness :
  NoDup [10; 11]%Z /\
  rectangular ex_zones /\
  ~ In "name" (names ex_zones) /\
  exists out,
    @explode cells cells_parts ex_zones = Ok out /\
    index out = MultiIndex [(10, 0); (10, 1); (11, 0)]%Z /\
    get_geom "geometry" out = Ok [[1]; [2]; [5]] /\
    nrows out = 3.
Proof.
  assert (Hnd : NoDup [10; 11]%Z).
  { constructor; [simpl; intros [E | []]; discriminate|].
    constructor; [intros [] | constructor]. }
  assert (Hrect : rectangular ex_zones).
  { intros c x Hin. simpl in Hin.
    destruct Hin as [[= <- <-] | [[= <- <-] | []]]; reflexivity. }
  assert (Hname : ~ In "name" (names ex_zones))
    by (simpl; intros [E | [E | []]]; discriminate).
  split; [exact Hnd|]. split; [exact Hrect|]. split; [exact Hname|].
  destruct (@explode_rows cells cells_parts ex_zones [[1; 2]; [5]] [10; 11]%Z
              eq_refl eq_refl Hnd Hrect) as [He _].
  - simpl. intros [E | [E | []]]; discriminate.
  - simpl. intros [E | [E | []]]; discriminate.
  - exact Hname.
  - discriminate.
  - eexists. split; [exact He|]. split; [reflexivity|]. split; reflexivity.
Defined.

Lemma Create_Buffer_result_witness :
  nth_error [ex_A] 0 = Some ex_A /\
  exists out h' fo,
    Create_Buffer 0 3857 1 [ex_A] = (Ok out, h') /\
    nth_error h' out = Some fo /\
    crs fo = Some "epsg:4326" /\
    nth_error h' 0 = Some ex_A.
Proof.
  split; [reflexivity|].
  destruct (@Create_Buffer_result cells _ _ [ex_A] 0 ex_A [[1; 2]; [5]] "epsg:4326"
              3857 1%Q eq_refl eq_refl eq_refl)
    as (out & h' & fo & Hr & Hn & _ & Hold & Hcrs & _).
  exists out, h', fo. split; [exact Hr|]. split; [exact Hn|].
  split; [exact Hcrs | apply Hold; reflexivity].
Defined.

Lemma Create_Buffer_needs_crs_witness :
  nth_error [ex_naive] 0 = Some ex_naive /\
  crs ex_naive = None /\
  exists h', Create_Buffer 0 3857 1 [ex_naive] = (Raise ValueError, h').
Proof.
  split; [reflexivity|]. split; [reflexivity|].
  destruct (@Create_Buffer_needs_crs cells _ _ [ex_naive] 0 ex_naive [[1; 2]; [5]]
              3857 1%Q eq_refl eq_refl eq_refl) as (h' & Hr & _).
  exists h'. exact Hr.
Defined.



Lemma intersection_mode_second_frame_bookkeeping_witness :
  In "bbox" (names ex_B_bbox) /\
  exists e h', spatial_overlays 0 1 "intersection" [ex_A; ex_B_bbox] = (Raise e, h').
Proof.
  assert (Hin : In "bbox" (names ex_B_bbox)) by (simpl; auto).
  split; [exact Hin|].
  apply (@intersection_mode_second_frame_bookkeeping cells _ [ex_A; ex_B_bbox] 0 1
           ex_A ex_B_bbox [[1; 2]; [5]] [[2; 3]; [9]] "bbox"
           eq_refl eq_refl eq_refl eq_refl);
    [simpl; auto | exact Hin].
Defined.

Lemma map_roads_row_by_row_witness :
  exists f1,
    map_roads (ex_roads 1) = Ok f1 /\
    map_roads f1 = Ok f1 /\
    get_str "roads" f1 = Ok [Some "primary"].
Proof.
  eexists. split; [reflexivity|].
  destruct (@map_roads_row_by_row linegeom (ex_roads 1) _ eq_refl)
    as (_ & _ & _ & _ & Htwice).
  split; [exact Htwice | reflexivity].
Defined.

Lemma explode_twice_raises_witness :
  exists out, explode ex_zones = Ok out /\ explode out = Raise ValueError.
Proof.
  set (out := {| index := MultiIndex [(10, 0); (11, 0)]%Z;
                 cols := [("geometry", GeomCol [[1; 2]; [5]]);
                          ("kind", StrCol [Some "a"; Some "b"])];
                 crs := Some "epsg:4326" |} : frame cells).
  assert (Hrun : explode ex_zones = Ok out) by reflexivity.
  exists out. split; [exact Hrun|].
  destruct (@explode_twice_raises cells _ ex_zones out Hrun) as (_ & g & Hg & Hr).
  vm_compute in Hg. injection Hg as <-. exact Hr.
Defined.

(** A shapefile that can be read after 30 seconds: both commands are run,
    the first read fails, and the second gives the frame. *)
Example get_country_waits_for_the_shapefile :
  let run := @Script.get_country nat (ex_machine 30) (ex_vincenty 1)
               "NLD" "europe.osm.pbf" "/data" false true (0, []) in
  commands (snd (snd run))
  = [("osmconvert64 europe.osm.pbf -B=/data/poly_files/NLD.poly"
      ++ " --complete-ways -o=/data/osm_country/NLD.osm.pbf")%string;
     Script.ogr2ogr "highway" "/data/country_data/NLD.shp" "/data/osm_country/NLD.osm.pbf"]
  /\ reads "/data/country_data/NLD.shp" (snd (snd run)) = 2
  /\ slept (snd (snd run)) = 30
  /\ fst (snd run) = 30
  /\ exists out, fst run = inl out /\ get_str "roads" out = Ok [Some "primary"].
Proof.
  vm_compute. repeat split. eexists. split; reflexivity.
Qed.

(** The extraction command as the shell gets it, with its quotes and with
    the indentation of the continued lines. *)
Example extract_osm_command :
  String.length (Script.ogr2ogr "highway" "a.shp" "b.pbf") = 181
  /\ Script.dquote = String (Ascii.ascii_of_nat 34) EmptyString
  /\ commands (snd (snd (@Script.extract_osm_rail nat (ex_machine 0) "a.shp" "b.pbf" (0, []))))
     = [Script.ogr2ogr "railway" "a.shp" "b.pbf"].
Proof. vm_compute. repeat split. Qed.

(** A record of two parts becomes two rows with the attributes of the
    record. *)
Example explode_two_parts :
  @explode cells cells_parts ex_zones
  = Ok {| index := MultiIndex [(10, 0); (10, 1); (11, 0)]%Z;
          cols := [("geometry", GeomCol [[1]; [2]; [5]]);
                   ("kind", StrCol [Some "a"; Some "a"; Some "b"])];
          crs := Some "epsg:4326" |}.
Proof. reflexivity. Qed.

(** A collection whose only member is a collection without members: the
    first call returns the member, and the second call finds no part. *)
Example explode_twice_without_parts :
  let gdf := {| index := Index [10]%Z; cols := [("geometry", GeomCol [[0]])];
                crs := None |} in
  let out := {| index := MultiIndex [(10, 0)]%Z; cols := [("geometry", GeomCol [[]])];
                crs := None |} in
  @explode cells cells_nested gdf = Ok out
  /\ @explode cells cells_nested out = Raise TypeError.
Proof. split; reflexivity. Qed.

(** The rows of an intersection come candidate by candidate: with two
    records that both overlap both records of the second frame, the
    overlaps with its first record come before those with its second. *)
Example intersection_rows_by_candidate :
  let A := {| index := Index [10; 11]%Z;
              cols := [("geometry", GeomCol [[1; 2]; [1; 3]])];
              crs := None |} in
  let B := {| index := Index [0; 1]%Z;
              cols := [("geometry", GeomCol [[1]; [2; 3]])];
              crs := None |} in
  rbind (fst (spatial_overlays 0 1 "intersection" [A; B]))
        (fun v => match v with
                  | PyFrame out =>
                      match nth_error (snd (spatial_overlays 0 1 "intersection" [A; B])) out with
                      | Some fo => get_geom "geometry" fo
                      | None => Raise IndexError
                      end
                  | PyNone => Raise TypeError
                  end)
  = Ok [[1]; [1]; [2]; [3]].
Proof. reflexivity. Qed.
